(** * Dungeon Forge: the browser generation backend (tauriMock), the
      stores and the preview canvas, embedded in Rocq.

    The definitions follow the TypeScript sources function by function:
    [SeededRandom], [generateDungeon], the [generate_once] / [run_simulation] /
    [cancel_simulation] commands, [calcStats], the generation store, the
    [BranchWeightsEditor] callbacks, the drawing effect of [PreviewCanvas]
    with [calculateBounds], [calculateScale] and [calculateOffset], the
    selection and zoom actions of the editor store, and the project store
    with its undo history.

    Seeds are integers: the toolbar stores [parseInt(...) || 0], the store
    draws [Math.floor(Math.random() * 2147483647)], and a simulation uses
    [seedStart + i]. *)

From Stdlib Require Import ZArith QArith Qround Qabs Qpower String List Bool Lia Lqa.
From Stdlib Require Import DecimalString DecimalZ DecimalPos.
From Stdlib Require Import Sorting.Sorted Sorting.Permutation.
Import ListNotations.

Local Open Scope Z_scope.

(** ** JavaScript numbers

    Every number of the program is an IEEE-754 double.  The values that the
    generator computes with are integers, and the embedding keeps them in [Z];
    the places where a double cannot hold the exact integer result are the
    multiplication of the generator state by 1103515245 and the sum
    [seedStart + i] of a simulation, so rounding to a 53-bit significand is
    written out there, with the overflow to infinity of a product beyond the
    range of a double.  Quotients that are
    not integers ([seed / 0x7fffffff], [i / roomCount], means, weights) are
    kept as exact rationals in [Q]. *)

Module Js.

(** Round an integer to the nearest double (ties to even).  Integers below
    2^53 in magnitude are doubles already. *)
Definition round53 (x : Z) : Z :=
  let m := Z.abs x in
  if m <? 2 ^ 53 then x
  else
    let e := Z.log2 m - 52 in
    let q := Z.shiftr m e in
    let r := Z.land m (Z.ones e) in
    let half := Z.shiftl 1 (e - 1) in
    let q' := if (half <? r) || ((r =? half) && Z.odd q) then q + 1 else q in
    Z.sgn x * Z.shiftl q' e.

(** The result of integer arithmetic in doubles: an integer-valued double,
    or [None] for an infinity, which a result of magnitude 2^1024 or more
    (of 1025 bits or more) becomes. *)
Definition number := option Z.

Definition to_double (x : Z) : number :=
  let r := round53 x in
  if Z.log2 (Z.abs r) <? 1024 then Some r else None.

(** Double multiplication and addition on integer-valued doubles. *)
Definition mul (a b : Z) : number := to_double (a * b).

Definition add (a : number) (b : Z) : number :=
  match a with
  | Some x => to_double (x + b)
  | None => None
  end.

(** ToInt32: the operand of a bitwise operator is reduced modulo 2^32 into
    the signed 32-bit range; an infinity becomes 0. *)
Definition ToInt32 (x : number) : Z :=
  match x with
  | Some v => (v + 2 ^ 31) mod 2 ^ 32 - 2 ^ 31
  | None => 0
  end.

(** [a & b] on numbers. *)
Definition band (a : number) (b : Z) : Z := Z.land (ToInt32 a) (ToInt32 (Some b)).

(** [a / b] for integers, as a rational in lowest terms.  [None] is NaN:
    the program divides by zero only in 0/0, on an empty list. *)
Definition div (a b : Z) : option Q :=
  if b =? 0 then None else Some (Qred (inject_Z a / inject_Z b)).

(** [Math.floor(a / 2)] and the like: the quotient of two integers, the
    divisor positive, rounded down. *)
Definition floor_div (a b : Z) : Z := a / b.

(** [Math.floor] and [Math.round] of a rational. *)
Definition floor (q : Q) : Z := Qfloor q.
Definition round (q : Q) : Z := Qfloor (q + (1 # 2)).

(** Number to string, as a template literal does for an integer. *)
Definition toString (n : Z) : string := NilZero.string_of_int (Z.to_int n).

End Js.

(** ** SeededRandom *)

Module SeededRandom.

(** The object has one field, [seed]. *)
Record t := mk { seed : Z }.

(** The state update of [next]:
    [(this.seed * 1103515245 + 12345) & 0x7fffffff]. *)
Definition step (s : Z) : Z :=
  Js.band (Js.add (Js.mul s 1103515245) 12345) 0x7fffffff.

(** [next()] stores the new seed and returns [seed / 0x7fffffff].  The
    quotient is kept exact; [Math.floor] of its product with one of the
    small integers the program uses is unchanged by the rounding of the
    double quotient and product, because a non-integer [s * k / 0x7fffffff]
    is at least 1/0x7fffffff away from the next integer. *)
Definition next (rng : t) : Q * t :=
  let s := step (seed rng) in
  (inject_Z s / inject_Z 0x7fffffff, mk s)%Q.

(** [nextInt(min, max)]. *)
Definition nextInt (min max : Z) (rng : t) : Z * t :=
  let (r, rng') := next rng in
  (Js.floor (r * inject_Z (max - min + 1)) + min, rng').

(** [pick(array)]: an index past the end reads [undefined], here [None]. *)
Definition pick {T : Type} (array : list T) (rng : t) : option T * t :=
  let (r, rng') := next rng in
  (nth_error array (Z.to_nat (Js.floor (r * inject_Z (Z.of_nat (length array))))),
   rng').

End SeededRandom.

(** ** Domain types (types/index.ts) *)

Module Position.
Record t := mk { x : Z; y : Z }.
End Position.

Module Rectangle.
Record t := mk { x : Z; y : Z; width : Z; height : Z }.
End Rectangle.

(** A string-valued property that may hold [undefined] ([None]): the value
    [pick] returns is stored as it is. *)
Definition jsstring := option string.

Module PlacedEntity.
Record t := mk { id : string; type : jsstring; position : Position.t }.
End PlacedEntity.

(** The [metadata] record of a generated room has the two keys the generator
    writes. *)
Module RoomMetadata.
Record t := mk { difficulty : option Q; theme : jsstring }.
End RoomMetadata.

Module GeneratedRoom.
Record t := mk {
  id : string;
  type : jsstring;
  bounds : Rectangle.t;
  entities : list PlacedEntity.t;
  metadata : RoomMetadata.t }.
End GeneratedRoom.

Module RoomConnection.
Record t := mk {
  fromRoomId : string;
  toRoomId : string;
  fromDoor : Position.t;
  toDoor : Position.t }.
End RoomConnection.

Module SpawnPoint.
Record t := mk {
  id : string;
  type : jsstring;
  position : Position.t;
  roomId : string }.
End SpawnPoint.

Module DungeonLayout.
Record t := mk {
  rooms : list GeneratedRoom.t;
  connections : list RoomConnection.t;
  spawnPoints : list SpawnPoint.t;
  playerStart : Position.t;
  exits : list Position.t }.
End DungeonLayout.

Module ConstraintResult.
Record t := mk { constraintId : string; passed : bool; message : option string }.
End ConstraintResult.

Module GenerationMetadata.
Record t := mk { nodeExecutions : Z; retryCount : Z }.
End GenerationMetadata.

Module GenerationResult.
Record t := mk {
  seed : Z;
  timestamp : Z;
  success : bool;
  data : option DungeonLayout.t;
  constraintResults : list ConstraintResult.t;
  metadata : GenerationMetadata.t;
  errors : list string;
  durationMs : Z }.
End GenerationResult.

(** The generator definition that a request may carry.  The mock never
    reads it.  Values of type [unknown] are kept in their printed form, and
    the editor-only parts (node groups, edge metadata, declared parameters,
    output schema) are left out. *)
Module NodeType.
Inductive t :=
  | start | output | subgraph | room | room_chain | branch | merge
  | spawn_point | loot_drop | encounter | prop
  | random_select | sequence | condition | loop
  | distribution | curve | table.
End NodeType.

Module GeneratorType.
Inductive t := dungeon | loot | encounter | custom.
End GeneratorType.

Module ConstraintType.
Inductive t :=
  | distance | count | density | progression | required | forbidden
  | connected | custom.
End ConstraintType.

Module ConstraintSeverity.
Inductive t := error | warning.
End ConstraintSeverity.

Module PortDirection.
Inductive t := input | output.
End PortDirection.

Module Port.
Record t := mk { id : string; type : PortDirection.t; dataType : string }.
End Port.

Module PortRef.
Record t := mk { nodeId : string; portId : string }.
End PortRef.

Module Edge.
Record t := mk { id : string; source : PortRef.t; target : PortRef.t }.
End Edge.

(** [Record<string, unknown>]: keys with printed values. *)
Definition Parameters := list (string * string).

Module GraphNode.
Record t := mk {
  id : string;
  type : NodeType.t;
  position : Position.t;
  data : Parameters;
  inputs : list Port.t;
  outputs : list Port.t }.
End GraphNode.

Module NodeGraph.
Record t := mk { nodes : list GraphNode.t; edges : list Edge.t }.
End NodeGraph.

Module Constraint.
Record t := mk {
  id : string;
  type : ConstraintType.t;
  parameters : Parameters;
  errorMessage : string;
  severity : ConstraintSeverity.t }.
End Constraint.

Module Generator.
Record t := mk {
  id : string;
  name : string;
  description : string;
  type : GeneratorType.t;
  graph : NodeGraph.t;
  constraints : list Constraint.t }.
End Generator.

Module GenerationRequest.
Record t := mk {
  generatorId : string;
  seed : Z;
  parameters : option Parameters;
  generator : option Generator.t }.
End GenerationRequest.

Module SimulationConfig.
Record t := mk {
  generatorId : string;
  runCount : Z;
  seedStart : option Z;
  parameters : option Parameters }.
End SimulationConfig.

(** ** Control flow

    [generateDungeon] owns one [SeededRandom] and mutates it at every draw;
    reading a property of [undefined] raises a TypeError that nothing in the
    generator catches.  The commands and the store mutate shared state in the
    same way.  A computation takes the state and gives back its outcome with
    the state it leaves behind. *)

Inductive outcome (A : Type) : Type :=
  | Returned (a : A)
  | Thrown (error : string).
Arguments Returned {A} a.
Arguments Thrown {A} error.

Definition Eff (St A : Type) : Type := St -> outcome A * St.

Definition ret {St A} (a : A) : Eff St A := fun st => (Returned a, st).

Definition bind {St A B} (m : Eff St A) (k : A -> Eff St B) : Eff St B :=
  fun st =>
    match m st with
    | (Returned a, st') => k a st'
    | (Thrown e, st') => (Thrown e, st')
    end.

Notation "x <- m ;; k" := (bind m (fun x => k))
  (at level 61, m at next level, right associativity).

Definition throw {St A} (e : string) : Eff St A := fun st => (Thrown e, st).

(** Property access on a value that may be [undefined]. *)
Definition the {St A} (v : option A) : Eff St A :=
  match v with
  | Some a => ret a
  | None => throw "TypeError: Cannot read properties of undefined"
  end.

(** [for (let i = 0; i < count; i++) body], the loop state passed along. *)
Fixpoint for_from {St S} (n : nat) (i : Z) (body : Z -> S -> Eff St S) (s : S)
    : Eff St S :=
  match n with
  | O => ret s
  | Datatypes.S n' => s' <- body i s ;; for_from n' (i + 1) body s'
  end.

Definition for_loop {St S} (count : Z) (body : Z -> S -> Eff St S) (init : S)
    : Eff St S :=
  for_from (Z.to_nat count) 0 body init.

(** The generator's computations run on its [rng]. *)
Definition Gen (A : Type) : Type := Eff SeededRandom.t A.

(** A method call on the generator's [rng]. *)
Definition draw {A} (method : SeededRandom.t -> A * SeededRandom.t) : Gen A :=
  fun rng => let (a, rng') := method rng in (Returned a, rng').

(** [array[i]] and [array.slice(from, to)]. *)
Definition index {T} (array : list T) (i : Z) : option T :=
  if i <? 0 then None else nth_error array (Z.to_nat i).

Definition slice {T} (from to : nat) (array : list T) : list T :=
  firstn (to - from) (skipn from array).

Definition jsstring_eqb (a b : jsstring) : bool :=
  match a, b with
  | Some s, Some s' => String.eqb s s'
  | None, None => true
  | _, _ => false
  end.

(** ** generateDungeon *)

Definition roomTypes : list string :=
  ["entrance"; "hallway"; "chamber"; "treasure"; "boss"]%string.

(** Body of the entity loop of room [i], placed at [x], [y]. *)
Definition entity_body (i x y width height : Z) (e : Z)
    (entities : list PlacedEntity.t) : Gen (list PlacedEntity.t) :=
  type <- draw (SeededRandom.pick ["enemy"; "chest"; "trap"; "decoration"]%string) ;;
  ex <- draw (SeededRandom.nextInt 1 (width - 2)) ;;
  ey <- draw (SeededRandom.nextInt 1 (height - 2)) ;;
  ret (entities ++
       [PlacedEntity.mk
          ("entity-" ++ Js.toString i ++ "-" ++ Js.toString e)%string
          type
          (Position.mk (x + ex) (y + ey))]).

(** State of the room loop: [lastX], [lastY] and the rooms pushed so far. *)
Record RoomLoop := mkRoomLoop {
  lastX : Z;
  lastY : Z;
  rooms_so_far : list GeneratedRoom.t }.

Definition room_body (roomCount : Z) (i : Z) (st : RoomLoop) : Gen RoomLoop :=
  width <- draw (SeededRandom.nextInt 6 14) ;;
  height <- draw (SeededRandom.nextInt 6 12) ;;
  offsetX <- draw (SeededRandom.nextInt (-3) 8) ;;
  offsetY <- draw (SeededRandom.nextInt (-3) 8) ;;
  let x := lastX st + offsetX in
  let y := lastY st + offsetY in
  roomType <- (if i =? 0 then ret (Some "entrance"%string)
               else if i =? roomCount - 1 then ret (Some "boss"%string)
               else draw (SeededRandom.pick (slice 1 4 roomTypes))) ;;
  theme <- draw (SeededRandom.pick ["stone"; "moss"; "crystal"; "lava"]%string) ;;
  entities <- (if negb (jsstring_eqb roomType (Some "entrance"%string))
               then entityCount <- draw (SeededRandom.nextInt 0 4) ;;
                    for_loop entityCount (entity_body i x y width height) []
               else ret []) ;;
  let room :=
    GeneratedRoom.mk
      ("room-" ++ Js.toString i)%string
      roomType
      (Rectangle.mk x y width height)
      entities
      (RoomMetadata.mk (Js.div i roomCount) theme) in
  ret (mkRoomLoop (x + width) (y + Js.floor_div height 2)
                  (rooms_so_far st ++ [room])).

(** Body of the loop that connects the rooms sequentially. *)
Definition connect_body (rooms : list GeneratedRoom.t) (i : Z)
    (connections : list RoomConnection.t) : Gen (list RoomConnection.t) :=
  from <- the (index rooms i) ;;
  to <- the (index rooms (i + 1)) ;;
  let fb := GeneratedRoom.bounds from in
  let tb := GeneratedRoom.bounds to in
  ret (connections ++
       [RoomConnection.mk
          (GeneratedRoom.id from)
          (GeneratedRoom.id to)
          (Position.mk (Rectangle.x fb + Rectangle.width fb)
                       (Rectangle.y fb + Js.floor_div (Rectangle.height fb) 2))
          (Position.mk (Rectangle.x tb)
                       (Rectangle.y tb + Js.floor_div (Rectangle.height tb) 2))]).

(** Body of the loop that adds the branching connections. *)
Definition branch_body (rooms : list GeneratedRoom.t) (i : Z)
    (connections : list RoomConnection.t) : Gen (list RoomConnection.t) :=
  let len := Z.of_nat (length rooms) in
  fromIdx <- draw (SeededRandom.nextInt 0 (len - 3)) ;;
  toIdx <- draw (SeededRandom.nextInt (fromIdx + 2) (len - 1)) ;;
  from <- the (index rooms fromIdx) ;;
  to <- the (index rooms toIdx) ;;
  let fb := GeneratedRoom.bounds from in
  let tb := GeneratedRoom.bounds to in
  ret (connections ++
       [RoomConnection.mk
          (GeneratedRoom.id from)
          (GeneratedRoom.id to)
          (Position.mk (Rectangle.x fb + Js.floor_div (Rectangle.width fb) 2)
                       (Rectangle.y fb + Rectangle.height fb))
          (Position.mk (Rectangle.x tb + Js.floor_div (Rectangle.width tb) 2)
                       (Rectangle.y tb))]).

(** Body of the spawn-point loop.  The object literal evaluates [type]
    before it reads [room.bounds]. *)
Definition spawn_body (rooms : list GeneratedRoom.t) (i : Z)
    (spawnPoints : list SpawnPoint.t) : Gen (list SpawnPoint.t) :=
  picked <- draw (SeededRandom.pick (skipn 1 rooms)) ;;
  type <- draw (SeededRandom.pick ["enemy"; "item"; "npc"]%string) ;;
  room <- the picked ;;
  let b := GeneratedRoom.bounds room in
  sx <- draw (SeededRandom.nextInt 1 (Rectangle.width b - 2)) ;;
  sy <- draw (SeededRandom.nextInt 1 (Rectangle.height b - 2)) ;;
  ret (spawnPoints ++
       [SpawnPoint.mk
          ("spawn-" ++ Js.toString i)%string
          type
          (Position.mk (Rectangle.x b + sx) (Rectangle.y b + sy))
          (GeneratedRoom.id room)]).

Definition room_center (r : GeneratedRoom.t) : Position.t :=
  let b := GeneratedRoom.bounds r in
  Position.mk (Rectangle.x b + Js.floor_div (Rectangle.width b) 2)
              (Rectangle.y b + Js.floor_div (Rectangle.height b) 2).

Definition generateDungeon_body : Gen DungeonLayout.t :=
  roomCount <- draw (SeededRandom.nextInt 5 12) ;;
  st <- for_loop roomCount (room_body roomCount) (mkRoomLoop 0 0 []) ;;
  let rooms := rooms_so_far st in
  let len := Z.of_nat (length rooms) in
  connections <- for_loop (len - 1) (connect_body rooms) [] ;;
  branchCount <- draw (SeededRandom.nextInt 0 (Js.floor_div roomCount 3)) ;;
  connections <- for_loop branchCount (branch_body rooms) connections ;;
  spawnCount <- draw (SeededRandom.nextInt 3 8) ;;
  spawnPoints <- for_loop spawnCount (spawn_body rooms) [] ;;
  startRoom <- the (index rooms 0) ;;
  exitRoom <- the (index rooms (len - 1)) ;;
  ret (DungeonLayout.mk rooms connections spawnPoints
                        (room_center startRoom) [room_center exitRoom]).

Definition generateDungeon (seed : Z) : outcome DungeonLayout.t :=
  fst (generateDungeon_body (SeededRandom.mk seed)).

(** ** Statistics (calcStats) *)

Module DistributionStats.
(** [stdDev] is [Math.sqrt(variance)], an irrational number in general;
    the record keeps the variance it is the root of. *)
Record t := mk {
  min : option Z;
  max : option Z;
  mean : option Q;
  median : option Z;
  variance : option Q;
  p5 : option Z;
  p25 : option Z;
  p75 : option Z;
  p95 : option Z;
  histogram : list (Z * Z) }.
End DistributionStats.

(** [[...values].sort((a, b) => a - b)]: the numbers in ascending order. *)
Fixpoint insert (a : Z) (sorted : list Z) : list Z :=
  match sorted with
  | [] => [a]
  | b :: rest => if a <=? b then a :: sorted else b :: insert a rest
  end.

Definition sort_numeric (values : list Z) : list Z :=
  fold_right insert [] values.

(** [sorted[Math.floor(sorted.length * p)]].  The literals 0.05 and 0.95 are
    not exact doubles, but their product with a length rounds to the same
    floor as the exact product for every length an array can have. *)
Definition at_fraction (sorted : list Z) (p : Q) : option Z :=
  nth_error sorted
    (Z.to_nat (Js.floor (inject_Z (Z.of_nat (length sorted)) * p))).

Definition calcStats (values : list Z) : DistributionStats.t :=
  let sorted := sort_numeric values in
  let n := Z.of_nat (length values) in
  let sum := fold_left Z.add values 0 in
  let mean := Js.div sum n in
  let variance :=
    match mean with
    | Some m =>
        Some (Qred (fold_left (fun acc v => acc + (inject_Z v - m) ^ 2) values 0
                    / inject_Z n))%Q
    | None => None
    end in
  DistributionStats.mk
    (nth_error sorted 0)
    (index sorted (Z.of_nat (length sorted) - 1))
    mean
    (nth_error sorted (Z.to_nat (Js.floor_div (Z.of_nat (length sorted)) 2)))
    variance
    (at_fraction sorted (5 # 100))
    (at_fraction sorted (25 # 100))
    (at_fraction sorted (75 # 100))
    (at_fraction sorted (95 # 100))
    [].

Module SimulationStatistics.
Record t := mk {
  roomCount : DistributionStats.t;
  pathLength : DistributionStats.t;
  enemyCount : DistributionStats.t;
  itemCount : DistributionStats.t }.
End SimulationStatistics.

Module ConstraintSummary.
Record t := mk { passRate : Q; violations : Z }.
End ConstraintSummary.

Module SimulationResults.
Record t := mk {
  config : SimulationConfig.t;
  runs : Z;
  successRate : option Q;
  durationMs : Z;
  statistics : SimulationStatistics.t;
  constraintResults : list (string * ConstraintSummary.t);
  warnings : list string }.
End SimulationResults.

(** ** The generation store and the commands

    The commands and the store actions run on one event loop.  Their shared
    state is the store, of which the fields that a simulation touches are
    kept, and the record of the commands called so far. *)

Module Store.
Record t := mk {
  simulationConfig : option SimulationConfig.t;
  simulationResults : option SimulationResults.t;
  simulationProgress : Z;
  isSimulating : bool;
  error : option string }.
End Store.

Inductive Invocation :=
  | Invoke_generate_once (request : GenerationRequest.t)
  | Invoke_run_simulation (config : SimulationConfig.t)
  | Invoke_cancel_simulation.

Record World := mkWorld {
  store : Store.t;
  invoked : list Invocation }.

Definition Task (A : Type) : Type := Eff World A.

(** [invoke(cmd, args)], and the direct call [commands.cmd(args)]: the call
    is put on record and the handler of the command runs. *)
Definition invoke {A} (cmd : Invocation) (handler : Task A) : Task A :=
  fun w => handler (mkWorld (store w) (invoked w ++ [cmd])).

(** zustand's [set]. *)
Definition set (update : Store.t -> Store.t) : Task unit :=
  fun w => (Returned tt, mkWorld (update (store w)) (invoked w)).

(** [try m catch (error) h]. *)
Definition try_catch {A} (m : Task A) (h : string -> Task A) : Task A :=
  fun w =>
    match m w with
    | (Returned a, w') => (Returned a, w')
    | (Thrown e, w') => h e w'
    end.

(** What one [generate_once] reads from outside: [performance.now()] before
    and after, [Math.random()] for the simulated delay, and [Date.now()]. *)
Module Env.
Record t := mk {
  startTime : Q;
  random : Q;
  endTime : Q;
  now : Z }.
End Env.

Definition generate_once (env : Env.t) (request : GenerationRequest.t)
    : outcome GenerationResult.t :=
  let startTime := Env.startTime env in
  match generateDungeon (GenerationRequest.seed request) with
  | Thrown e => Thrown e
  | Returned dungeon =>
      let endTime := Env.endTime env in
      let rooms_length := Z.of_nat (length (DungeonLayout.rooms dungeon)) in
      Returned
        (GenerationResult.mk
           (GenerationRequest.seed request)
           (Env.now env)
           true
           (Some dungeon)
           [ ConstraintResult.mk "min-rooms" (5 <=? rooms_length)
               (Some ("Room count: " ++ Js.toString rooms_length)%string);
             ConstraintResult.mk "connected" true (Some "All rooms connected"%string);
             ConstraintResult.mk "has-exit"
               (0 <? Z.of_nat (length (DungeonLayout.exits dungeon)))
               (Some "Exit exists"%string) ]
           (GenerationMetadata.mk (rooms_length * 3) 0)
           []
           (Js.round (endTime - startTime)))
  end.


(** [cancel_simulation]: "No-op in mock". *)
Definition cancel_simulation : Task unit := ret tt.

(** The store's [cancelSimulation]. *)
Definition cancelSimulation : Task unit :=
  _ <- invoke Invoke_cancel_simulation cancel_simulation ;;
  set (fun s =>
         Store.mk (Store.simulationConfig s) (Store.simulationResults s)
                  (Store.simulationProgress s) false (Store.error s)).

(** What one [run_simulation] meets: its two clock readings, the environment
    of each of its runs, and whether the user presses Cancel while run [i]
    is awaited (the only points where another task can run). *)
Module SimEnv.
Record t := mk {
  startTime : Q;
  endTime : Q;
  run : Z -> Env.t;
  cancel_pressed : Z -> bool }.
End SimEnv.

(** [await commands.generate_once(...)] inside the simulation loop. *)
Definition await_generate_once (env : SimEnv.t) (i : Z)
    (request : GenerationRequest.t) : Task GenerationResult.t :=
  result <- invoke (Invoke_generate_once request)
              (fun w => (generate_once (SimEnv.run env i) request, w)) ;;
  _ <- (if SimEnv.cancel_pressed env i then cancelSimulation else ret tt) ;;
  ret result.

Definition coalesce {A} (v : option A) (default : A) : A :=
  match v with Some a => a | None => default end.

(** The seed is the double sum [(config.seedStart ?? 0) + i]: the exact sum
    rounded to the nearest double.  The counter [i] is far below the range
    of a double, so the sum of a finite [seedStart] and [i] is finite. *)
Definition run_body (env : SimEnv.t) (config : SimulationConfig.t) (i : Z)
    (results : list GenerationResult.t) : Task (list GenerationResult.t) :=
  let seed := Js.round53 (coalesce (SimulationConfig.seedStart config) 0 + i) in
  result <- await_generate_once env i
              (GenerationRequest.mk (SimulationConfig.generatorId config) seed
                                    None None) ;;
  ret (results ++ [result]).

Definition count_enemies (room : GeneratedRoom.t) : Z :=
  Z.of_nat (length (filter (fun e => jsstring_eqb (PlacedEntity.type e)
                                                   (Some "enemy"%string))
                           (GeneratedRoom.entities room))).

Definition aggregate (env : SimEnv.t) (config : SimulationConfig.t)
    (results : list GenerationResult.t) : SimulationResults.t :=
  let roomCounts :=
    map (fun r => coalesce (option_map (fun d => Z.of_nat (length (DungeonLayout.rooms d)))
                                       (GenerationResult.data r)) 0) results in
  let pathLengths :=
    map (fun r => coalesce (option_map (fun d => Z.of_nat (length (DungeonLayout.connections d)))
                                       (GenerationResult.data r)) 0) results in
  let enemyCounts :=
    map (fun r => coalesce (option_map (fun d => fold_left (fun sum room => sum + count_enemies room)
                                                           (DungeonLayout.rooms d) 0)
                                       (GenerationResult.data r)) 0) results in
  SimulationResults.mk
    config
    (SimulationConfig.runCount config)
    (Js.div (Z.of_nat (length (filter GenerationResult.success results)))
            (Z.of_nat (length results)))
    (Js.round (SimEnv.endTime env - SimEnv.startTime env))
    (SimulationStatistics.mk
       (calcStats roomCounts)
       (calcStats pathLengths)
       (calcStats enemyCounts)
       (calcStats (map (fun _ => 0) roomCounts)))
    [ ("min-rooms"%string, ConstraintSummary.mk 1 0);
      ("connected"%string, ConstraintSummary.mk 1 0) ]
    [].

Definition run_simulation (env : SimEnv.t) (config : SimulationConfig.t)
    : Task SimulationResults.t :=
  results <- for_loop (SimulationConfig.runCount config) (run_body env config) [] ;;
  ret (aggregate env config results).

(** The store's [runSimulation]. *)
Definition runSimulation (env : SimEnv.t) (config : SimulationConfig.t)
    : Task unit :=
  _ <- set (fun _ => Store.mk (Some config) None 0 true None) ;;
  try_catch
    (results <- invoke (Invoke_run_simulation config) (run_simulation env config) ;;
     set (fun s => Store.mk (Store.simulationConfig s) (Some results) 100 false
                            (Store.error s)))
    (fun e =>
       set (fun s => Store.mk (Store.simulationConfig s) (Store.simulationResults s)
                              (Store.simulationProgress s) false (Some e))).

(** ** BranchWeightsEditor (NodeProperties.tsx)

    The three callbacks of the editor.  Weights are kept as exact rationals;
    each callback is given by the array it passes to [onChange]. *)

Module BranchWeightsEditor.

Local Open Scope Q_scope.

(** [reduce((a, b) => a + b, 0)]. *)
Definition total (weights : list Q) : Q := fold_left Qplus weights 0.

(** An element of an array handed to [onChange]; [None] is an element that
    is not a finite number: NaN or an infinity from a division by zero, or
    a hole left by an assignment past the end. *)
Definition element := option Q.

Definition quotient (w sum : Q) : element :=
  if Qeq_bool sum 0 then None else Some (w / sum).

Definition addPath (weights : list Q) : list Q :=
  let newWeight := 1 / inject_Z (Z.of_nat (length weights) + 1) in
  let normalizedWeights := map (fun w => w * (1 - newWeight)) weights in
  normalizedWeights ++ [newWeight].

(** [weights.filter((_, i) => i !== index)], counting from [i]. *)
Fixpoint filter_out (i index : nat) (weights : list Q) : list Q :=
  match weights with
  | [] => []
  | w :: rest =>
      if Nat.eqb i index then filter_out (S i) index rest
      else w :: filter_out (S i) index rest
  end.

(** [removePath] returns without calling [onChange] ([None]) when two or
    fewer paths are left. *)
Definition removePath (weights : list Q) (index : nat) : option (list element) :=
  if (length weights <=? 2)%nat then None
  else
    let newWeights := filter_out 0 index weights in
    let sum := total newWeights in
    Some (map (fun w => quotient w sum) newWeights).

(** [newWeights[index] = v]: an index past the end extends the array and
    leaves holes. *)
Fixpoint assign (array : list element) (index : nat) (v : Q) : list element :=
  match array, index with
  | [], O => [Some v]
  | [], S index' => None :: assign [] index' v
  | _ :: rest, O => Some v :: rest
  | a :: rest, S index' => a :: assign rest index' v
  end.

(** [reduce] and [map] skip holes. *)
Definition total_present (array : list element) : Q :=
  fold_left (fun a b => match b with Some w => a + w | None => a end) array 0.

Definition updateWeight (weights : list Q) (index : nat) (value : Z)
    : list element :=
  let newWeights := assign (map Some weights) index (inject_Z value / 100) in
  let sum := total_present newWeights in
  map (fun b => match b with Some w => quotient w sum | None => None end)
      newWeights.

End BranchWeightsEditor.

(** * Properties

    ** Vocabulary of the statements *)

(** A computation returns, whatever state it starts from, with a value that
    satisfies [post]. *)
Definition returns {St A} (m : Eff St A) (post : A -> Prop) : Prop :=
  forall st, exists a st', m st = (Returned a, st') /\ post a.

Definition room_ok (r : GeneratedRoom.t) : Prop :=
  6 <= Rectangle.width (GeneratedRoom.bounds r) <= 14 /\
  6 <= Rectangle.height (GeneratedRoom.bounds r) <= 12.

(** Invariant of the room loop before iteration [i]. *)
Definition rooms_inv (i : Z) (st : RoomLoop) : Prop :=
  Z.of_nat (length (rooms_so_far st)) = i /\ Forall room_ok (rooms_so_far st).

(** [c] is a connection from room [a] to room [b]. *)
Definition connects (c : RoomConnection.t) (a b : GeneratedRoom.t) : Prop :=
  RoomConnection.fromRoomId c = GeneratedRoom.id a /\
  RoomConnection.toRoomId c = GeneratedRoom.id b.

(** [rooms[j]] and [rooms[j + 1]] are joined by one of the connections. *)
Definition linked (rooms : list GeneratedRoom.t)
    (connections : list RoomConnection.t) (j : Z) : Prop :=
  exists a b c,
    index rooms j = Some a /\ index rooms (j + 1) = Some b /\
    In c connections /\ connects c a b.

Definition chain_upto (rooms : list GeneratedRoom.t) (i : Z)
    (connections : list RoomConnection.t) : Prop :=
  forall j, 0 <= j < i -> linked rooms connections j.

(** The position lies within the rectangle. *)
Definition contains (b : Rectangle.t) (p : Position.t) : Prop :=
  Rectangle.x b <= Position.x p <= Rectangle.x b + Rectangle.width b /\
  Rectangle.y b <= Position.y p <= Rectangle.y b + Rectangle.height b.

(** Room ids reachable from a room id along the connections. *)
Inductive reachable (connections : list RoomConnection.t) (from : string)
    : string -> Prop :=
  | reachable_here : reachable connections from from
  | reachable_step (c : RoomConnection.t) :
      reachable connections from (RoomConnection.fromRoomId c) ->
      In c connections ->
      reachable connections from (RoomConnection.toRoomId c).


Definition layout_ok (layout : DungeonLayout.t) : Prop :=
  let rooms := DungeonLayout.rooms layout in
  5 <= Z.of_nat (length rooms) <= 12 /\
  Forall room_ok rooms /\
  chain_upto rooms (Z.of_nat (length rooms) - 1) (DungeonLayout.connections layout) /\
  exists startRoom, index rooms 0 = Some startRoom /\
                    DungeonLayout.playerStart layout = room_center startRoom.

(** The layout of a result, when the command returned one. *)
Definition layout_of (o : outcome GenerationResult.t) : option DungeonLayout.t :=
  match o with
  | Returned result => GenerationResult.data result
  | Thrown _ => None
  end.

(** The requests of the [generate_once] invocations on record. *)
Definition generate_requests (log : list Invocation) : list GenerationRequest.t :=
  flat_map (fun c => match c with Invoke_generate_once r => [r] | _ => [] end) log.

(** The request that run [i] of a simulation sends. *)
Definition request_for (config : SimulationConfig.t) (i : Z) : GenerationRequest.t :=
  GenerationRequest.mk (SimulationConfig.generatorId config)
                       (Js.round53 (coalesce (SimulationConfig.seedStart config) 0 + i))
                       None None.

(** Run indices [i, i + 1, ..., i + n - 1]. *)
Definition run_indices (i : Z) (n : nat) : list Z :=
  map (fun k => i + Z.of_nat k) (seq 0 n).

(** The same simulation with Cancel never pressed. *)
Definition uncancelled (env : SimEnv.t) : SimEnv.t :=
  SimEnv.mk (SimEnv.startTime env) (SimEnv.endTime env) (SimEnv.run env)
            (fun _ => false).

(** The caller got something other than a [SimulationResults]. *)
Definition cancelled_result (o : outcome SimulationResults.t) : Prop :=
  forall results, o <> Returned results.

(** The index formula of the specification: the percentile [p] of [n] values
    is the sorted value at index [floor(p * (n - 1))]. *)
Definition documented_percentile (values : list Z) (p : Q) : option Z :=
  nth_error (sort_numeric values)
    (Z.to_nat (Js.floor (p * inject_Z (Z.of_nat (length values) - 1)))).


(** The array after an assignment within its bounds. *)
Fixpoint replaced (weights : list Q) (index : nat) (v : Q) : list Q :=
  match weights, index with
  | [], _ => []
  | _ :: rest, O => v :: rest
  | w :: rest, S index' => w :: replaced rest index' v
  end.

(** ** Sample inputs *)

Definition sample_env : Env.t := Env.mk 0 (1 # 2) 200 1700000000000.
Definition later_env : Env.t := Env.mk 5000 (1 # 10) 5110 1700000005000.

Definition sample_graph : NodeGraph.t :=
  let out := Port.mk "out" PortDirection.output "room" in
  let inp := Port.mk "in" PortDirection.input "room" in
  NodeGraph.mk
    [ GraphNode.mk "n1" NodeType.start (Position.mk 0 0) [("label", "Start")]
                   [] [out];
      GraphNode.mk "n2" NodeType.room_chain (Position.mk 200 0)
                   [("label", "Rooms")] [inp] [out];
      GraphNode.mk "n3" NodeType.output (Position.mk 400 0) [("label", "Exit")]
                   [inp] [] ]%string
    [ Edge.mk "e1" (PortRef.mk "n1" "out") (PortRef.mk "n2" "in");
      Edge.mk "e2" (PortRef.mk "n2" "out") (PortRef.mk "n3" "in") ]%string.

Definition sample_request : GenerationRequest.t :=
  GenerationRequest.mk "gen-a" 42 (Some [])
    (Some (Generator.mk "gen-a" "Crypt" "A chain of rooms" GeneratorType.dungeon
             sample_graph
             [ Constraint.mk "c1" ConstraintType.connected []
                             "Rooms must be connected" ConstraintSeverity.error ])).

Definition other_request : GenerationRequest.t :=
  GenerationRequest.mk "gen-b" 42 (Some [("difficulty", "hard")]%string) None.

Definition idle_world : World :=
  mkWorld (Store.mk None None 0 false None) [].

(** One hundred runs from seed 0; Cancel is pressed once ten runs have
    completed, while the next one is awaited. *)
Definition hundred_runs : SimulationConfig.t :=
  SimulationConfig.mk "gen-a" 100 (Some 0) None.

Definition cancel_after_ten : SimEnv.t :=
  SimEnv.mk 0 20000 (fun _ => sample_env) (fun i => i =? 10).


(** Four runs from the seed [2^53 - 1]. *)
Definition large_seed_runs : SimulationConfig.t :=
  SimulationConfig.mk "gen-a" 4 (Some 9007199254740991) None.


(** ** Vocabulary of the further properties *)

(** Every element, with its index in the array, satisfies [P]. *)
Definition all_indexed {T} (P : Z -> T -> Prop) (array : list T) : Prop :=
  forall j v, index array j = Some v -> P j v.

(** Every element and the one after it are related by [R]. *)
Definition all_adjacent {T} (R : T -> T -> Prop) (array : list T) : Prop :=
  forall j a b, index array j = Some a -> index array (j + 1) = Some b -> R a b.

(** The position is inside the rectangle and not on its border cells:
    what [x + rng.nextInt(1, width - 2)] gives. *)
Definition inside (b : Rectangle.t) (p : Position.t) : Prop :=
  Rectangle.x b + 1 <= Position.x p <= Rectangle.x b + Rectangle.width b - 2 /\
  Rectangle.y b + 1 <= Position.y p <= Rectangle.y b + Rectangle.height b - 2.

Definition one_of (options : list string) (v : jsstring) : Prop :=
  exists s, v = Some s /\ In s options.

(** Entity [k] of room [i]. *)
Definition entity_shape (i : Z) (b : Rectangle.t) (k : Z) (e : PlacedEntity.t) : Prop :=
  PlacedEntity.id e = ("entity-" ++ Js.toString i ++ "-" ++ Js.toString k)%string /\
  one_of ["enemy"; "chest"; "trap"; "decoration"]%string (PlacedEntity.type e) /\
  inside b (PlacedEntity.position e).

(** Room [j] of a dungeon of [roomCount] rooms. *)
Definition room_shape (roomCount j : Z) (r : GeneratedRoom.t) : Prop :=
  GeneratedRoom.id r = ("room-" ++ Js.toString j)%string /\
  room_ok r /\
  (j = 0 -> -3 <= Rectangle.x (GeneratedRoom.bounds r) <= 8 /\
            -3 <= Rectangle.y (GeneratedRoom.bounds r) <= 8) /\
  (j = 0 -> GeneratedRoom.type r = Some "entrance"%string) /\
  (j <> 0 -> j = roomCount - 1 -> GeneratedRoom.type r = Some "boss"%string) /\
  (j <> 0 -> j <> roomCount - 1 ->
   one_of ["hallway"; "chamber"; "treasure"]%string (GeneratedRoom.type r)) /\
  RoomMetadata.difficulty (GeneratedRoom.metadata r) = Js.div j roomCount /\
  one_of ["stone"; "moss"; "crystal"; "lava"]%string
         (RoomMetadata.theme (GeneratedRoom.metadata r)) /\
  (j = 0 -> GeneratedRoom.entities r = []) /\
  Z.of_nat (length (GeneratedRoom.entities r)) <= 4 /\
  all_indexed (entity_shape j (GeneratedRoom.bounds r)) (GeneratedRoom.entities r).

(** Where a room is placed after the room before it: its corner is 3 cells
    before to 8 cells after the right edge and the middle row of that room. *)
Definition placed_after (a b : GeneratedRoom.t) : Prop :=
  let ba := GeneratedRoom.bounds a in
  let bb := GeneratedRoom.bounds b in
  Rectangle.x ba + Rectangle.width ba - 3 <= Rectangle.x bb
    <= Rectangle.x ba + Rectangle.width ba + 8 /\
  Rectangle.y ba + Js.floor_div (Rectangle.height ba) 2 - 3 <= Rectangle.y bb
    <= Rectangle.y ba + Js.floor_div (Rectangle.height ba) 2 + 8.

(** Invariant of the room loop before iteration [i], all fields. *)
Definition rooms_full_inv (roomCount i : Z) (st : RoomLoop) : Prop :=
  let rooms := rooms_so_far st in
  Z.of_nat (length rooms) = i /\
  all_indexed (room_shape roomCount) rooms /\
  all_adjacent placed_after rooms /\
  (i = 0 -> lastX st = 0 /\ lastY st = 0) /\
  (forall last, index rooms (i - 1) = Some last ->
     lastX st = Rectangle.x (GeneratedRoom.bounds last)
                + Rectangle.width (GeneratedRoom.bounds last) /\
     lastY st = Rectangle.y (GeneratedRoom.bounds last)
                + Js.floor_div (Rectangle.height (GeneratedRoom.bounds last)) 2).

(** Connection [k] of the sequential chain: from the middle of the right
    wall of [rooms[k]] to the middle of the left wall of [rooms[k + 1]]. *)
Definition chain_shape (rooms : list GeneratedRoom.t) (k : Z)
    (c : RoomConnection.t) : Prop :=
  exists a b,
    index rooms k = Some a /\ index rooms (k + 1) = Some b /\ connects c a b /\
    RoomConnection.fromDoor c =
      Position.mk (Rectangle.x (GeneratedRoom.bounds a)
                   + Rectangle.width (GeneratedRoom.bounds a))
                  (Rectangle.y (GeneratedRoom.bounds a)
                   + Js.floor_div (Rectangle.height (GeneratedRoom.bounds a)) 2) /\
    RoomConnection.toDoor c =
      Position.mk (Rectangle.x (GeneratedRoom.bounds b))
                  (Rectangle.y (GeneratedRoom.bounds b)
                   + Js.floor_div (Rectangle.height (GeneratedRoom.bounds b)) 2).

(** A branching connection: from [rooms[i]] forward to [rooms[j]], at least
    one room skipped, from the bottom wall to the top wall. *)
Definition branch_shape (rooms : list GeneratedRoom.t) (c : RoomConnection.t) : Prop :=
  exists i j a b,
    0 <= i /\ i + 2 <= j /\
    index rooms i = Some a /\ index rooms j = Some b /\ connects c a b /\
    RoomConnection.fromDoor c =
      Position.mk (Rectangle.x (GeneratedRoom.bounds a)
                   + Js.floor_div (Rectangle.width (GeneratedRoom.bounds a)) 2)
                  (Rectangle.y (GeneratedRoom.bounds a)
                   + Rectangle.height (GeneratedRoom.bounds a)) /\
    RoomConnection.toDoor c =
      Position.mk (Rectangle.x (GeneratedRoom.bounds b)
                   + Js.floor_div (Rectangle.width (GeneratedRoom.bounds b)) 2)
                  (Rectangle.y (GeneratedRoom.bounds b)).

(** Spawn point [k]: in a room other than the first. *)
Definition spawn_shape (rooms : list GeneratedRoom.t) (k : Z) (s : SpawnPoint.t) : Prop :=
  SpawnPoint.id s = ("spawn-" ++ Js.toString k)%string /\
  one_of ["enemy"; "item"; "npc"]%string (SpawnPoint.type s) /\
  exists j room,
    1 <= j /\ index rooms j = Some room /\
    SpawnPoint.roomId s = GeneratedRoom.id room /\
    inside (GeneratedRoom.bounds room) (SpawnPoint.position s).

(** Everything [generateDungeon] fixes about its result. *)
Definition layout_shape (layout : DungeonLayout.t) : Prop :=
  let rooms := DungeonLayout.rooms layout in
  let len := Z.of_nat (length rooms) in
  5 <= len <= 12 /\
  all_indexed (room_shape len) rooms /\
  all_adjacent placed_after rooms /\
  (exists chain branches,
      DungeonLayout.connections layout = chain ++ branches /\
      Z.of_nat (length chain) = len - 1 /\
      all_indexed (chain_shape rooms) chain /\
      Z.of_nat (length branches) <= len / 3 /\
      Forall (branch_shape rooms) branches) /\
  3 <= Z.of_nat (length (DungeonLayout.spawnPoints layout)) <= 8 /\
  all_indexed (spawn_shape rooms) (DungeonLayout.spawnPoints layout) /\
  (exists first, index rooms 0 = Some first /\
                 DungeonLayout.playerStart layout = room_center first) /\
  (exists last, index rooms (len - 1) = Some last /\
                DungeonLayout.exits layout = [room_center last]).

(** ** generationStore.ts: a single generation

    The store's fields of a single generation, next to the simulation
    fields and [error], which [Store.t] holds. *)

Module GenerationState.
Record t := mk {
  currentSeed : Z;
  lastResult : option GenerationResult.t;
  isGenerating : bool;
  shared : Store.t }.
End GenerationState.

Record Session := mkSession {
  state : GenerationState.t;
  calls : list Invocation }.

Definition Action (A : Type) : Type := Eff Session A.

(** zustand's [get] and [set]. *)
Definition get_state : Action GenerationState.t :=
  fun s => (Returned (state s), s).

Definition set_state (update : GenerationState.t -> GenerationState.t) : Action unit :=
  fun s => (Returned tt, mkSession (update (state s)) (calls s)).

(** [await invoke(cmd, args)] of a command that touches no store. *)
Definition await_invoke {A} (cmd : Invocation) (handler : outcome A) : Action A :=
  fun s => (handler, mkSession (state s) (calls s ++ [cmd])).

Definition catching {A} (m : Action A) (h : string -> Action A) : Action A :=
  fun s =>
    match m s with
    | (Returned a, s') => (Returned a, s')
    | (Thrown e, s') => h e s'
    end.

Definition with_error (e : option string) (s : Store.t) : Store.t :=
  Store.mk (Store.simulationConfig s) (Store.simulationResults s)
           (Store.simulationProgress s) (Store.isSimulating s) e.

Definition setSeed (seed : Z) : Action unit :=
  set_state (fun s => GenerationState.mk seed (GenerationState.lastResult s)
                        (GenerationState.isGenerating s) (GenerationState.shared s)).

Definition generate (env : Env.t) (generatorId : string) (seed : option Z)
    (generator : option Generator.t) : Action unit :=
  st <- get_state ;;
  let actualSeed := coalesce seed (GenerationState.currentSeed st) in
  _ <- set_state (fun s => GenerationState.mk (GenerationState.currentSeed s)
                             (GenerationState.lastResult s) true
                             (with_error None (GenerationState.shared s))) ;;
  catching
    (let request := GenerationRequest.mk generatorId actualSeed (Some []) generator in
     result <- await_invoke (Invoke_generate_once request) (generate_once env request) ;;
     set_state (fun s => GenerationState.mk actualSeed (Some result) false
                           (GenerationState.shared s)))
    (fun e =>
       set_state (fun s => GenerationState.mk (GenerationState.currentSeed s)
                             (GenerationState.lastResult s) false
                             (with_error (Some e) (GenerationState.shared s)))).

Definition clearResults : Action unit :=
  set_state (fun s =>
    let sim := GenerationState.shared s in
    GenerationState.mk (GenerationState.currentSeed s) None
      (GenerationState.isGenerating s)
      (Store.mk (Store.simulationConfig sim) None (Store.simulationProgress sim)
                (Store.isSimulating sim) None)).

(** The layout on display: [lastResult?.data]. *)
Definition shown_layout (s : Session) : option DungeonLayout.t :=
  match GenerationState.lastResult (state s) with
  | Some result => GenerationResult.data result
  | None => None
  end.

(** ** The branch weights on display

    The weights of a branch node start as [[0.5, 0.5]]; the editor offers a
    slider from 1 to 100 for every path, a remove button for every path
    when there are more than two, and the add button. *)

(** Every weight is positive, there are at least two, and they sum to 1. *)
Definition proper_weights (weights : list Q) : Prop :=
  (2 <= length weights)%nat /\
  Forall (fun w => (0 < w)%Q) weights /\
  (BranchWeightsEditor.total weights == 1)%Q.

(** ** PreviewCanvas.tsx

    Canvas coordinates are kept as exact rationals.  A quotient can also be
    an infinity or NaN, when the world has no width or no height. *)

Module Bounds.
Record t := mk { minX : Z; minY : Z; maxX : Z; maxY : Z }.
End Bounds.

Module Point.
Record t := mk { x : Q; y : Q }.
End Point.

Inductive number :=
  | Finite (q : Q)
  | PlusInfinity
  | MinusInfinity
  | NaN.

(** [a / b] for integers [a] and [b]. *)
Definition divide (a b : Z) : number :=
  if b =? 0 then
    if a =? 0 then NaN else if 0 <? a then PlusInfinity else MinusInfinity
  else Finite (inject_Z a / inject_Z b).

Definition Math_min (a b : number) : number :=
  match a, b with
  | NaN, _ | _, NaN => NaN
  | MinusInfinity, _ | _, MinusInfinity => MinusInfinity
  | PlusInfinity, c | c, PlusInfinity => c
  | Finite p, Finite q => Finite (if Qle_bool p q then p else q)
  end.

Definition ROOM_COLORS : list (string * string) :=
  [ ("start", "#22c55e"); ("boss", "#ef4444"); ("treasure", "#f59e0b");
    ("shop", "#06b6d4"); ("secret", "#8b5cf6"); ("default", "#3b82f6") ]%string.

(** [ROOM_COLORS[key]], for keys that name no property of every object;
    the key [undefined] reads the property of that name, which the table
    does not have. *)
Definition lookup (table : list (string * string)) (key : jsstring) : option string :=
  match key with
  | Some k => option_map snd (find (fun entry => String.eqb (fst entry) k) table)
  | None => None
  end.

(** The callback of [rooms.forEach] in [calculateBounds]. *)
Definition widen (acc : Bounds.t) (room : GeneratedRoom.t) : Bounds.t :=
  let b := GeneratedRoom.bounds room in
  Bounds.mk (Z.min (Bounds.minX acc) (Rectangle.x b))
            (Z.min (Bounds.minY acc) (Rectangle.y b))
            (Z.max (Bounds.maxX acc) (Rectangle.x b + Rectangle.width b))
            (Z.max (Bounds.maxY acc) (Rectangle.y b + Rectangle.height b)).

(** The accumulators start at [Infinity] and [-Infinity]; [Math.min] and
    [Math.max] with the edges of the first room replace them by these
    edges, from where the loop goes on. *)
Definition calculateBounds (rooms : list GeneratedRoom.t) : Bounds.t :=
  match rooms with
  | [] => Bounds.mk 0 0 100 100
  | first :: others =>
      let b := GeneratedRoom.bounds first in
      fold_left widen others
        (Bounds.mk (Rectangle.x b) (Rectangle.y b)
                   (Rectangle.x b + Rectangle.width b)
                   (Rectangle.y b + Rectangle.height b))
  end.

Definition calculateScale (bounds : Bounds.t) (canvasWidth canvasHeight : Z) : number :=
  let worldWidth := Bounds.maxX bounds - Bounds.minX bounds in
  let worldHeight := Bounds.maxY bounds - Bounds.minY bounds in
  let padding := 40 in
  let availableWidth := canvasWidth - padding * 2 in
  let availableHeight := canvasHeight - padding * 2 in
  let scaleX := divide availableWidth worldWidth in
  let scaleY := divide availableHeight worldHeight in
  let CELL_SIZE := 16 in
  Math_min (Math_min scaleX scaleY) (Finite (inject_Z CELL_SIZE)).

Definition calculateOffset (bounds : Bounds.t) (canvasWidth canvasHeight : Z)
    (scale : Q) : Point.t :=
  let worldWidth := Bounds.maxX bounds - Bounds.minX bounds in
  let worldHeight := Bounds.maxY bounds - Bounds.minY bounds in
  let scaledWidth := (inject_Z worldWidth * scale)%Q in
  let scaledHeight := (inject_Z worldHeight * scale)%Q in
  Point.mk ((inject_Z canvasWidth - scaledWidth) / 2
            - inject_Z (Bounds.minX bounds) * scale)%Q
           ((inject_Z canvasHeight - scaledHeight) / 2
            - inject_Z (Bounds.minY bounds) * scale)%Q.

Definition getRoomCenter (room : GeneratedRoom.t) : Point.t :=
  let b := GeneratedRoom.bounds room in
  Point.mk (inject_Z (Rectangle.x b) + inject_Z (Rectangle.width b) / 2)%Q
           (inject_Z (Rectangle.y b) + inject_Z (Rectangle.height b) / 2)%Q.

(** What the effect puts on the canvas: for each shape its colour, position
    and size. *)
Inductive Drawing :=
  | FillRect (fillStyle : string) (x y w h : Q)
  | StrokeRect (strokeStyle : string) (x y w h : Q)
  | FillText (fillStyle : string) (text : jsstring) (x y : Q)
  | Line (strokeStyle : string) (x1 y1 x2 y2 : Q)
  | Disc (fillStyle : string) (x y radius : Q).

Definition draw_connection (rooms : list GeneratedRoom.t) (scale : Q)
    (offset : Point.t) (conn : RoomConnection.t) : list Drawing :=
  let fromRoom :=
    find (fun r => String.eqb (GeneratedRoom.id r) (RoomConnection.fromRoomId conn))
         rooms in
  let toRoom :=
    find (fun r => String.eqb (GeneratedRoom.id r) (RoomConnection.toRoomId conn))
         rooms in
  match fromRoom, toRoom with
  | Some fromRoom, Some toRoom =>
      let fromCenter := getRoomCenter fromRoom in
      let toCenter := getRoomCenter toRoom in
      [ Line "#475569"
             (Point.x fromCenter * scale + Point.x offset)
             (Point.y fromCenter * scale + Point.y offset)
             (Point.x toCenter * scale + Point.x offset)
             (Point.y toCenter * scale + Point.y offset) ]%Q
  | _, _ => []
  end.

Definition draw_room (scale : Q) (offset : Point.t) (room : GeneratedRoom.t)
    : list Drawing :=
  let b := GeneratedRoom.bounds room in
  let x := (inject_Z (Rectangle.x b) * scale + Point.x offset)%Q in
  let y := (inject_Z (Rectangle.y b) * scale + Point.y offset)%Q in
  let w := (inject_Z (Rectangle.width b) * scale)%Q in
  let h := (inject_Z (Rectangle.height b) * scale)%Q in
  let color :=
    match lookup ROOM_COLORS (GeneratedRoom.type room) with
    | Some c => c
    | None => coalesce (lookup ROOM_COLORS (Some "default"%string)) ""%string
    end in
  [ FillRect (color ++ "40") x y w h;
    StrokeRect color x y w h;
    FillText "#f8fafc" (GeneratedRoom.type room) (x + w / 2) (y + h / 2) ]%Q%string.

Definition draw_marker (fillStyle : string) (scale : Q) (offset : Point.t)
    (p : Position.t) : Drawing :=
  Disc fillStyle (inject_Z (Position.x p) * scale + Point.x offset)%Q
       (inject_Z (Position.y p) * scale + Point.y offset)%Q 6.

(** The body of the drawing effect, once the canvas and its context are
    there.  [None]: the scale is not a finite number, and neither are the
    coordinates computed from it. *)
Definition preview_effect (lastResult : option GenerationResult.t) (width height : Z)
    : option (list Drawing) :=
  let clear := FillRect "#0f172a" 0 0 (inject_Z width) (inject_Z height) in
  let layout :=
    match lastResult with
    | Some result =>
        if GenerationResult.success result then GenerationResult.data result
        else None
    | None => None
    end in
  match layout with
  | None =>
      let text :=
        match lastResult with
        | Some result =>
            match GenerationResult.errors result with
            | e :: _ => if String.eqb e "" then "Click Generate to preview" else e
            | [] => "Click Generate to preview"
            end
        | None => "Click Generate to preview"
        end%string in
      Some [ clear;
             FillText "#64748b" (Some text) (inject_Z width / 2) (inject_Z height / 2) ]
  | Some layout =>
      let bounds := calculateBounds (DungeonLayout.rooms layout) in
      match calculateScale bounds width height with
      | Finite scale =>
          let offset := calculateOffset bounds width height scale in
          Some (clear
                :: flat_map (draw_connection (DungeonLayout.rooms layout) scale offset)
                            (DungeonLayout.connections layout)
                ++ flat_map (draw_room scale offset) (DungeonLayout.rooms layout)
                ++ [draw_marker "#22c55e" scale offset (DungeonLayout.playerStart layout)]
                ++ map (draw_marker "#ef4444" scale offset) (DungeonLayout.exits layout))
      | _ => None
      end
  end.

(** The shape keeps [margin] pixels from the border of the canvas: a
    rectangle as a whole, a line with both ends, a text and a disc with the
    point they are centred on. *)
Definition within_canvas (margin width height : Z) (d : Drawing) : Prop :=
  let inside_x v := (inject_Z margin <= v /\ v <= inject_Z width - inject_Z margin)%Q in
  let inside_y v := (inject_Z margin <= v /\ v <= inject_Z height - inject_Z margin)%Q in
  match d with
  | FillRect _ x y w h | StrokeRect _ x y w h =>
      (0 <= w /\ 0 <= h)%Q /\ inside_x x /\ inside_x (x + w)%Q /\
      inside_y y /\ inside_y (y + h)%Q
  | FillText _ _ x y | Disc _ x y _ => inside_x x /\ inside_y y
  | Line _ x1 y1 x2 y2 => inside_x x1 /\ inside_y y1 /\ inside_x x2 /\ inside_y y2
  end.

(** A point, in world coordinates, lies within the bounds. *)
Definition in_world (bounds : Bounds.t) (px py : Q) : Prop :=
  ((inject_Z (Bounds.minX bounds) <= px /\ px <= inject_Z (Bounds.maxX bounds)) /\
   (inject_Z (Bounds.minY bounds) <= py /\ py <= inject_Z (Bounds.maxY bounds)))%Q.

(** The room lies within the bounds and has no negative side. *)
Definition enclosed (bounds : Bounds.t) (room : GeneratedRoom.t) : Prop :=
  let r := GeneratedRoom.bounds room in
  (Bounds.minX bounds <= Rectangle.x r /\ Bounds.minY bounds <= Rectangle.y r /\
   Rectangle.x r + Rectangle.width r <= Bounds.maxX bounds /\
   Rectangle.y r + Rectangle.height r <= Bounds.maxY bounds) /\
  0 <= Rectangle.width r /\ 0 <= Rectangle.height r.


(** ** editorStore.ts *)

Module Tool.
Inductive t := select | pan | connect.
End Tool.

Module EditorState.
Record t := mk {
  selectedNodeIds : list string;
  selectedEdgeIds : list string;
  zoom : number;
  pan : Point.t;
  activeTool : Tool.t;
  propertiesPanelOpen : bool;
  constraintsPanelOpen : bool;
  previewPanelOpen : bool }.
End EditorState.

(** [[...new Set(ids)]]: the ids in the order of their first occurrence. *)
Definition unique (ids : list string) : list string :=
  fold_left (fun set id => if existsb (String.eqb id) set then set else set ++ [id])
            ids [].

Definition Math_max (a b : number) : number :=
  match a, b with
  | NaN, _ | _, NaN => NaN
  | PlusInfinity, _ | _, PlusInfinity => PlusInfinity
  | MinusInfinity, c | c, MinusInfinity => c
  | Finite p, Finite q => Finite (if Qle_bool p q then q else p)
  end.

Definition selectNodes (ids : list string) (append : bool) (state : EditorState.t)
    : EditorState.t :=
  EditorState.mk
    (if append then unique (EditorState.selectedNodeIds state ++ ids) else ids)
    (if append then EditorState.selectedEdgeIds state else [])
    (EditorState.zoom state) (EditorState.pan state) (EditorState.activeTool state)
    (EditorState.propertiesPanelOpen state) (EditorState.constraintsPanelOpen state)
    (EditorState.previewPanelOpen state).

Definition selectEdges (ids : list string) (append : bool) (state : EditorState.t)
    : EditorState.t :=
  EditorState.mk
    (if append then EditorState.selectedNodeIds state else [])
    (if append then unique (EditorState.selectedEdgeIds state ++ ids) else ids)
    (EditorState.zoom state) (EditorState.pan state) (EditorState.activeTool state)
    (EditorState.propertiesPanelOpen state) (EditorState.constraintsPanelOpen state)
    (EditorState.previewPanelOpen state).

Definition clearSelection (state : EditorState.t) : EditorState.t :=
  EditorState.mk [] []
    (EditorState.zoom state) (EditorState.pan state) (EditorState.activeTool state)
    (EditorState.propertiesPanelOpen state) (EditorState.constraintsPanelOpen state)
    (EditorState.previewPanelOpen state).

Definition setZoom (zoom : number) (state : EditorState.t) : EditorState.t :=
  EditorState.mk
    (EditorState.selectedNodeIds state) (EditorState.selectedEdgeIds state)
    (Math_max (Finite (1 # 10)) (Math_min (Finite 2) zoom))
    (EditorState.pan state) (EditorState.activeTool state)
    (EditorState.propertiesPanelOpen state) (EditorState.constraintsPanelOpen state)
    (EditorState.previewPanelOpen state).

(** ** projectStore.ts

    The store of the project being edited, with its undo history.  The ids
    from [crypto.randomUUID()] and the dates from [new Date().toISOString()]
    are arguments of the actions that draw them.  The values of the
    embedding are immutable, so the deep copy [JSON.parse(JSON.stringify(p))]
    of a project is the project. *)

Module ExportConfig.
Record t := mk { defaultTarget : string; outputDir : string; includeRuntime : bool }.
End ExportConfig.

Module Project.
Record t := mk {
  id : string;
  name : string;
  version : string;
  created : string;
  modified : string;
  generators : list Generator.t;
  sharedAssets : list string;
  exportConfig : ExportConfig.t }.
End Project.

Module HistoryEntry.
Record t := mk { project : Project.t; description : string }.
End HistoryEntry.

Module ProjectState.
Record t := mk {
  project : option Project.t;
  filePath : option string;
  isDirty : bool;
  activeGeneratorId : option string;
  history : list HistoryEntry.t;
  historyIndex : Z;
  canUndo : bool;
  canRedo : bool }.
End ProjectState.

Definition Edit (A : Type) : Type := Eff ProjectState.t A.

Definition createDefaultProject (name uuid created modified : string) : Project.t :=
  Project.mk uuid name "1.0.0" created modified [] []
             (ExportConfig.mk "typescript" "./generated" true).

Definition createDefaultGenerator (name : string) (type : GeneratorType.t)
    (uuid : string) : Generator.t :=
  Generator.mk uuid name "" type (NodeGraph.mk [] []) [].

(** [array.slice(0, end)]; a negative [end] counts from the end of the
    array. *)
Definition slice_to {T} (array : list T) (to : Z) : list T :=
  firstn (Z.to_nat (if to <? 0 then Z.of_nat (length array) + to else to)) array.

(** [array.find(found)] followed by a change of the element found, in
    place. *)
Fixpoint change_found {T} (found : T -> bool) (change : T -> T) (array : list T)
    : list T :=
  match array with
  | [] => []
  | a :: rest =>
      if found a then change a :: rest else a :: change_found found change rest
  end.

(** [g.id === activeGeneratorId], where the latter may be [null]. *)
Definition is_generator (id : option string) (g : Generator.t) : bool :=
  match id with
  | Some id => String.eqb (Generator.id g) id
  | None => false
  end.

(** [activeGeneratorId === id], where the former may be [null]. *)
Definition same_id (active : option string) (id : string) : bool :=
  match active with
  | Some a => String.eqb a id
  | None => false
  end.

(** A change of [state.project], when there is one. *)
Definition change_project (change : Project.t -> Project.t) (state : ProjectState.t)
    : ProjectState.t :=
  ProjectState.mk (option_map change (ProjectState.project state))
    (ProjectState.filePath state) (ProjectState.isDirty state)
    (ProjectState.activeGeneratorId state) (ProjectState.history state)
    (ProjectState.historyIndex state) (ProjectState.canUndo state)
    (ProjectState.canRedo state).

Definition with_generators (generators : list Generator.t) (p : Project.t) : Project.t :=
  Project.mk (Project.id p) (Project.name p) (Project.version p) (Project.created p)
             (Project.modified p) generators (Project.sharedAssets p)
             (Project.exportConfig p).

(** A change of the generator that [generators.find(g => g.id === id)]
    finds in the project, when there is a project and such a generator. *)
Definition change_generator (id : option string) (change : Generator.t -> Generator.t)
    (state : ProjectState.t) : ProjectState.t :=
  change_project
    (fun p => with_generators (change_found (is_generator id) change (Project.generators p)) p)
    state.

Definition with_graph (graph : NodeGraph.t) (g : Generator.t) : Generator.t :=
  Generator.mk (Generator.id g) (Generator.name g) (Generator.description g)
               (Generator.type g) graph (Generator.constraints g).

Definition with_constraints (constraints : list Constraint.t) (g : Generator.t)
    : Generator.t :=
  Generator.mk (Generator.id g) (Generator.name g) (Generator.description g)
               (Generator.type g) (Generator.graph g) constraints.

Definition _markDirty : Edit unit :=
  fun state =>
    (Returned tt,
     ProjectState.mk (ProjectState.project state) (ProjectState.filePath state) true
       (ProjectState.activeGeneratorId state) (ProjectState.history state)
       (ProjectState.historyIndex state) (ProjectState.canUndo state)
       (ProjectState.canRedo state)).

Definition _pushHistory (description : string) : Edit unit :=
  fun state =>
    match ProjectState.project state with
    | None => (Returned tt, state)
    | Some project =>
        let newHistory :=
          slice_to (ProjectState.history state) (ProjectState.historyIndex state + 1)
          ++ [HistoryEntry.mk project description] in
        let newHistory :=
          if 50 <? Z.of_nat (length newHistory) then tl newHistory else newHistory in
        (Returned tt,
         ProjectState.mk (ProjectState.project state) (ProjectState.filePath state)
           (ProjectState.isDirty state) (ProjectState.activeGeneratorId state)
           newHistory (Z.of_nat (length newHistory) - 1)
           (1 <? Z.of_nat (length newHistory)) false)
    end.

(** [set(change)] of a change that cannot fail. *)
Definition set_project_state (change : ProjectState.t -> ProjectState.t) : Edit unit :=
  fun state => (Returned tt, change state).

Definition newProject (name uuid created modified : string) : Edit unit :=
  let project := createDefaultProject name uuid created modified in
  set_project_state (fun _ =>
    ProjectState.mk (Some project) None false None
                    [HistoryEntry.mk project "Initial"] 0 false false).

Definition closeProject : Edit unit :=
  set_project_state (fun _ => ProjectState.mk None None false None [] (-1) false false).

Definition addGenerator (name : string) (type : GeneratorType.t) (uuid : string)
    : Edit unit :=
  let generator := createDefaultGenerator name type uuid in
  _ <- _pushHistory ("Add generator: " ++ name) ;;
  _ <- set_project_state (fun state =>
         match ProjectState.project state with
         | Some p =>
             ProjectState.mk
               (Some (with_generators (Project.generators p ++ [generator]) p))
               (ProjectState.filePath state) (ProjectState.isDirty state)
               (Some (Generator.id generator)) (ProjectState.history state)
               (ProjectState.historyIndex state) (ProjectState.canUndo state)
               (ProjectState.canRedo state)
         | None => state
         end) ;;
  _markDirty.

Definition removeGenerator (id : string) : Edit unit :=
  _ <- _pushHistory "Remove generator" ;;
  _ <- set_project_state (fun state =>
         match ProjectState.project state with
         | Some p =>
             let generators :=
               filter (fun g => negb (String.eqb (Generator.id g) id))
                      (Project.generators p) in
             ProjectState.mk
               (Some (with_generators generators p))
               (ProjectState.filePath state) (ProjectState.isDirty state)
               (if same_id (ProjectState.activeGeneratorId state) id
                then option_map Generator.id (hd_error generators)
                else ProjectState.activeGeneratorId state)
               (ProjectState.history state)
               (ProjectState.historyIndex state) (ProjectState.canUndo state)
               (ProjectState.canRedo state)
         | None => state
         end) ;;
  _markDirty.

Definition setActiveGenerator (id : option string) : Edit unit :=
  set_project_state (fun state =>
    ProjectState.mk (ProjectState.project state) (ProjectState.filePath state)
      (ProjectState.isDirty state) id (ProjectState.history state)
      (ProjectState.historyIndex state) (ProjectState.canUndo state)
      (ProjectState.canRedo state)).

Definition deleteNode (id : string) : Edit unit :=
  _ <- _pushHistory "Delete node" ;;
  _ <- set_project_state (fun state =>
         change_generator (ProjectState.activeGeneratorId state)
           (fun generator =>
              let graph := Generator.graph generator in
              with_graph
                (NodeGraph.mk
                   (filter (fun n => negb (String.eqb (GraphNode.id n) id))
                           (NodeGraph.nodes graph))
                   (filter (fun e =>
                              negb (String.eqb (PortRef.nodeId (Edge.source e)) id)
                              && negb (String.eqb (PortRef.nodeId (Edge.target e)) id))
                           (NodeGraph.edges graph)))
                generator)
           state) ;;
  _markDirty.

Definition moveNode (id : string) (position : Position.t) : Edit unit :=
  _ <- set_project_state (fun state =>
         change_generator (ProjectState.activeGeneratorId state)
           (fun generator =>
              let graph := Generator.graph generator in
              with_graph
                (NodeGraph.mk
                   (change_found (fun n => String.eqb (GraphNode.id n) id)
                      (fun node =>
                         GraphNode.mk (GraphNode.id node) (GraphNode.type node) position
                                      (GraphNode.data node) (GraphNode.inputs node)
                                      (GraphNode.outputs node))
                      (NodeGraph.nodes graph))
                   (NodeGraph.edges graph))
                generator)
           state) ;;
  _markDirty.

Definition addEdge (source target : PortRef.t) (uuid : string) : Edit unit :=
  fun state =>
    match ProjectState.project state, ProjectState.activeGeneratorId state with
    | Some _, Some activeGeneratorId =>
        if String.eqb activeGeneratorId "" then (Returned tt, state)
        else
          (_ <- _pushHistory "Add connection" ;;
           let edge := Edge.mk uuid source target in
           _ <- set_project_state
                  (change_generator (Some activeGeneratorId)
                     (fun generator =>
                        let graph := Generator.graph generator in
                        with_graph
                          (NodeGraph.mk (NodeGraph.nodes graph)
                                        (NodeGraph.edges graph ++ [edge]))
                          generator)) ;;
           _markDirty) state
    | _, _ => (Returned tt, state)
    end.

Definition deleteEdge (id : string) : Edit unit :=
  _ <- _pushHistory "Delete connection" ;;
  _ <- set_project_state (fun state =>
         change_generator (ProjectState.activeGeneratorId state)
           (fun generator =>
              let graph := Generator.graph generator in
              with_graph
                (NodeGraph.mk (NodeGraph.nodes graph)
                   (filter (fun e => negb (String.eqb (Edge.id e) id))
                           (NodeGraph.edges graph)))
                generator)
           state) ;;
  _markDirty.

Definition deleteConstraint (id : string) : Edit unit :=
  _ <- _pushHistory "Delete constraint" ;;
  _ <- set_project_state (fun state =>
         change_generator (ProjectState.activeGeneratorId state)
           (fun generator =>
              with_constraints
                (filter (fun c => negb (String.eqb (Constraint.id c) id))
                        (Generator.constraints generator))
                generator)
           state) ;;
  _markDirty.

Definition undo : Edit unit :=
  fun state =>
    let historyIndex := ProjectState.historyIndex state in
    let history := ProjectState.history state in
    if 0 <? historyIndex then
      let newIndex := historyIndex - 1 in
      (entry <- the (index history newIndex) ;;
       _ <- set_project_state (fun state =>
              ProjectState.mk (Some (HistoryEntry.project entry))
                (ProjectState.filePath state) (ProjectState.isDirty state)
                (ProjectState.activeGeneratorId state) (ProjectState.history state)
                newIndex (0 <? newIndex) true) ;;
       _markDirty) state
    else (Returned tt, state).

Definition redo : Edit unit :=
  fun state =>
    let historyIndex := ProjectState.historyIndex state in
    let history := ProjectState.history state in
    if historyIndex <? Z.of_nat (length history) - 1 then
      let newIndex := historyIndex + 1 in
      (entry <- the (index history newIndex) ;;
       _ <- set_project_state (fun state =>
              ProjectState.mk (Some (HistoryEntry.project entry))
                (ProjectState.filePath state) (ProjectState.isDirty state)
                (ProjectState.activeGeneratorId state) (ProjectState.history state)
                newIndex true (newIndex <? Z.of_nat (length history) - 1)) ;;
       _markDirty) state
    else (Returned tt, state).

(** The actions of the store that the embedding covers. *)
Inductive Command :=
  | NewProject (name uuid created modified : string)
  | CloseProject
  | AddGenerator (name : string) (type : GeneratorType.t) (uuid : string)
  | RemoveGenerator (id : string)
  | SetActiveGenerator (id : option string)
  | DeleteNode (id : string)
  | MoveNode (id : string) (position : Position.t)
  | AddEdge (source target : PortRef.t) (uuid : string)
  | DeleteEdge (id : string)
  | DeleteConstraint (id : string)
  | Undo
  | Redo.

Definition perform (c : Command) : Edit unit :=
  match c with
  | NewProject name uuid created modified => newProject name uuid created modified
  | CloseProject => closeProject
  | AddGenerator name type uuid => addGenerator name type uuid
  | RemoveGenerator id => removeGenerator id
  | SetActiveGenerator id => setActiveGenerator id
  | DeleteNode id => deleteNode id
  | MoveNode id position => moveNode id position
  | AddEdge source target uuid => addEdge source target uuid
  | DeleteEdge id => deleteEdge id
  | DeleteConstraint id => deleteConstraint id
  | Undo => undo
  | Redo => redo
  end.

(** The state when the store is created. *)
Definition initial_project_state : ProjectState.t :=
  ProjectState.mk None None false None [] (-1) false false.

(** The history fits the project: without a project it is empty; with one,
    [historyIndex] points at one of at most 50 entries, and [canUndo] and
    [canRedo] tell whether there is an entry before it and after it. *)
Definition history_consistent (state : ProjectState.t) : Prop :=
  let entries := Z.of_nat (length (ProjectState.history state)) in
  match ProjectState.project state with
  | None =>
      ProjectState.history state = [] /\ ProjectState.historyIndex state = -1 /\
      ProjectState.canUndo state = false /\ ProjectState.canRedo state = false
  | Some _ =>
      0 <= ProjectState.historyIndex state < entries /\ entries <= 50 /\
      ProjectState.canUndo state = (0 <? ProjectState.historyIndex state) /\
      ProjectState.canRedo state = (ProjectState.historyIndex state <? entries - 1)
  end.

(** The action records a history entry in this state: it is one of the
    actions that call [_pushHistory], and it gets that far. *)
Definition records (c : Command) (state : ProjectState.t) : Prop :=
  match c with
  | AddGenerator _ _ _ | RemoveGenerator _ | DeleteNode _ | DeleteEdge _
  | DeleteConstraint _ => True
  | AddEdge _ _ _ =>
      exists id, ProjectState.activeGeneratorId state = Some id /\ id <> ""%string
  | _ => False
  end.

(** Every edge of the graph starts and ends at a node of the graph. *)
Definition edges_attached (graph : NodeGraph.t) : Prop :=
  forall e, In e (NodeGraph.edges graph) ->
    (exists n, In n (NodeGraph.nodes graph) /\
               GraphNode.id n = PortRef.nodeId (Edge.source e)) /\
    (exists n, In n (NodeGraph.nodes graph) /\
               GraphNode.id n = PortRef.nodeId (Edge.target e)).

(** The actions, one after the other. *)
Fixpoint perform_all (commands : list Command) : Edit unit :=
  match commands with
  | [] => ret tt
  | c :: rest => _ <- perform c ;; perform_all rest
  end.


(** ** Evaluation on sample inputs *)

Example step_42 : SeededRandom.step 42 = 1250496027.
Proof. reflexivity. Qed.

(** In exact integer arithmetic 230538014 would be sent to 0x7fffffff; the
    double product is rounded to a multiple of 32, the sum is rounded again,
    and the state becomes 0. *)
Example step_rounds_product :
  (230538014 * 1103515245 + 12345) mod 2 ^ 31 = 0x7fffffff /\
  230538014 * 1103515245 = 254402213001023430 /\
  Js.mul 230538014 1103515245 = Some 254402213001023424 /\
  Js.add (Some 254402213001023424) 12345 = Some 254402213001035776 /\
  SeededRandom.step 230538014 = 0.
Proof. repeat split. Qed.

(** A product of magnitude 2^1024 or more is an infinity, which the mask
    turns into 0. *)
Example step_overflow : SeededRandom.step (2 ^ 1000) = 0.
Proof. reflexivity. Qed.

Example nextInt_42 :
  fst (SeededRandom.nextInt 5 12 (SeededRandom.mk 42)) = 9.
Proof. reflexivity. Qed.

Example dungeon_42_bounds :
  option_map (fun layout => map GeneratedRoom.bounds (DungeonLayout.rooms layout))
             (layout_of (generate_once sample_env sample_request))
  = Some [ Rectangle.mk 5 6 10 12; Rectangle.mk 12 11 10 7;
           Rectangle.mk 28 22 13 6; Rectangle.mk 41 28 10 11;
           Rectangle.mk 49 40 9 12; Rectangle.mk 64 50 12 10;
           Rectangle.mk 75 57 8 11; Rectangle.mk 91 64 9 9;
           Rectangle.mk 102 67 11 9 ].
Proof. vm_compute. reflexivity. Qed.

Example dungeon_42_connections :
  option_map (fun layout =>
                map (fun c => (RoomConnection.fromRoomId c, RoomConnection.toRoomId c))
                    (skipn 8 (DungeonLayout.connections layout)))
             (layout_of (generate_once sample_env sample_request))
  = Some [ ("room-4", "room-6"); ("room-6", "room-8"); ("room-4", "room-6") ]%string.
Proof. vm_compute. reflexivity. Qed.

Example updateWeight_half_half :
  BranchWeightsEditor.updateWeight [1 # 2; 1 # 2] 0 30
  = [ Some ((30 # 1) / 100 / ((30 # 1) / 100 + (1 # 2)));
      Some ((1 # 2) / ((30 # 1) / 100 + (1 # 2))) ]%Q.
Proof. reflexivity. Qed.

(** ** Arithmetic of the generator state *)

Lemma round53_small (x : Z) : Z.abs x < 2 ^ 53 -> Js.round53 x = x.
Proof.
  intros H. unfold Js.round53.
  destruct (Z.ltb_spec (Z.abs x) (2 ^ 53)); [reflexivity | lia].
Qed.

Lemma round53_big (x : Z) :
  2 ^ 53 <= Z.abs x ->
  exists k, Js.round53 x = 2 * k /\ 2 ^ 53 <= Z.abs (Js.round53 x).
Proof.
  intros H. unfold Js.round53.
  destruct (Z.ltb_spec (Z.abs x) (2 ^ 53)); [lia |].
  set (m := Z.abs x) in *.
  assert (Hlog : 53 <= Z.log2 m).
  { change 53 with (Z.log2 (2 ^ 53)). apply Z.log2_le_mono. assumption. }
  set (e := Z.log2 m - 52).
  assert (He : 1 <= e) by (unfold e; lia).
  set (q := Z.shiftr m e).
  assert (Hq : 2 ^ 52 <= q).
  { unfold q. rewrite Z.shiftr_div_pow2 by lia.
    apply Z.div_le_lower_bound; [apply Z.pow_pos_nonneg; lia |].
    rewrite <- Z.pow_add_r by lia.
    replace (e + 52) with (Z.log2 m) by (unfold e; lia).
    apply Z.log2_spec. lia. }
  match goal with |- context [if ?c then q + 1 else q] => set (q' := if c then q + 1 else q) end.
  assert (Hq' : 2 ^ 52 <= q') by (unfold q'; destruct (_ || _); lia).
  rewrite Z.shiftl_mul_pow2 by lia.
  assert (Hpow : 2 ^ e = 2 * 2 ^ (e - 1)).
  { replace e with (1 + (e - 1)) at 1 by lia. rewrite Z.pow_add_r by lia. reflexivity. }
  rewrite Hpow.
  assert (Hp : 1 <= 2 ^ (e - 1)) by (apply Z.lt_pred_le; apply Z.pow_pos_nonneg; lia).
  exists (Z.sgn x * (q' * 2 ^ (e - 1))). split; [ring |].
  assert (Hs : Z.abs (Z.sgn x) = 1) by (unfold m in *; lia).
  rewrite Z.abs_mul, Hs, Z.mul_1_l.
  rewrite Z.abs_eq by nia. nia.
Qed.

Lemma ToInt32_mod (x : Z) : Js.ToInt32 (Some x) mod 2 ^ 31 = x mod 2 ^ 31.
Proof.
  unfold Js.ToInt32.
  pose proof (Z.div_mod (x + 2 ^ 31) (2 ^ 32) ltac:(lia)) as D.
  replace ((x + 2 ^ 31) mod 2 ^ 32 - 2 ^ 31)
    with (x + (- 2 * ((x + 2 ^ 31) / 2 ^ 32)) * 2 ^ 31) by lia.
  apply Z_mod_plus_full.
Qed.

Lemma band_mask (x : Js.number) :
  Js.band x 0x7fffffff = match x with Some v => v mod 2 ^ 31 | None => 0 end.
Proof.
  unfold Js.band.
  change (Js.ToInt32 (Some 0x7fffffff)) with (Z.ones 31).
  destruct x as [v |]; [| reflexivity].
  rewrite Z.land_ones by lia. apply ToInt32_mod.
Qed.

Lemma to_double_Some (x r : Z) : Js.to_double x = Some r -> r = Js.round53 x.
Proof.
  unfold Js.to_double. destruct (_ <? _); congruence.
Qed.

(** The sum that [step] masks is never 0x7fffffff modulo 2^31: either it is
    exact, and then [s] would be 230538014 modulo 2^31, too large for an
    exact product, or it has been rounded to an even number. *)
Lemma masked_sum_not_all_ones (s : Z) :
  Js.round53 (Js.round53 (s * 1103515245) + 12345) mod 2 ^ 31 <> 2 ^ 31 - 1.
Proof.
  intros E.
  set (P := Js.round53 (s * 1103515245)) in *.
  destruct (Z_lt_le_dec (Z.abs (P + 12345)) (2 ^ 53)) as [Hsum | Hsum].
  - rewrite (round53_small _ Hsum) in E.
    pose proof (Z.div_mod (P + 12345) (2 ^ 31) ltac:(lia)) as D.
    rewrite E in D.
    set (k := (P + 12345) / 2 ^ 31) in *.
    destruct (Z_lt_le_dec (Z.abs (s * 1103515245)) (2 ^ 53)) as [Hp | Hp].
    + unfold P in *. rewrite (round53_small _ Hp) in *. lia.
    + destruct (round53_big _ Hp) as (j & Hj & Hbig). fold P in Hj, Hbig. lia.
  - destruct (round53_big _ Hsum) as (j & Hj & _).
    rewrite Hj in E.
    pose proof (Z.div_mod (2 * j) (2 ^ 31) ltac:(lia)) as D.
    rewrite E in D. lia.
Qed.

(** The state never becomes 0x7fffffff. *)
Lemma step_range (s : Z) : 0 <= SeededRandom.step s < 0x7fffffff.
Proof.
  unfold SeededRandom.step. rewrite band_mask.
  destruct (Js.add (Js.mul s 1103515245) 12345) as [v |] eqn:E; [| lia].
  unfold Js.add, Js.mul in E.
  destruct (Js.to_double (s * 1103515245)) as [p |] eqn:Ep; [| discriminate].
  apply to_double_Some in Ep. apply to_double_Some in E. subst p v.
  pose proof (masked_sum_not_all_ones s).
  pose proof (Z.mod_pos_bound
                (Js.round53 (Js.round53 (s * 1103515245) + 12345)) (2 ^ 31)
                ltac:(lia)).
  lia.
Qed.

Local Open Scope Q_scope.

Lemma next_spec (rng : SeededRandom.t) :
  SeededRandom.next rng =
  (inject_Z (SeededRandom.step (SeededRandom.seed rng)) / inject_Z 0x7fffffff,
   SeededRandom.mk (SeededRandom.step (SeededRandom.seed rng))).
Proof. reflexivity. Qed.

Lemma unit_fraction_bounds (s : Z) :
  (0 <= s < 0x7fffffff)%Z ->
  0 <= inject_Z s / inject_Z 0x7fffffff /\ inject_Z s / inject_Z 0x7fffffff < 1.
Proof.
  intros [H0 H1]. split.
  - apply Qle_shift_div_l; [reflexivity |].
    rewrite Qmult_0_l. change 0 with (inject_Z 0). rewrite <- Zle_Qle. exact H0.
  - apply Qlt_shift_div_r; [reflexivity |].
    rewrite Qmult_1_l. rewrite <- Zlt_Qlt. exact H1.
Qed.

Lemma floor_scaled (r : Q) (k : Z) :
  0 <= r -> r < 1 -> (1 <= k)%Z ->
  (0 <= Js.floor (r * inject_Z k) < k)%Z.
Proof.
  intros H0 H1 Hk. unfold Js.floor.
  assert (Hk' : 0 < inject_Z k).
  { change 0 with (inject_Z 0). rewrite <- Zlt_Qlt. lia. }
  split.
  - change 0%Z with (Qfloor (inject_Z 0)). apply Qfloor_resp_le.
    apply Qmult_le_0_compat; [exact H0 | apply Qlt_le_weak; exact Hk'].
  - apply Z.lt_nge. intros Hge.
    assert (inject_Z k <= r * inject_Z k).
    { eapply Qle_trans; [| apply Qfloor_le]. rewrite <- Zle_Qle. exact Hge. }
    assert (r * inject_Z k < 1 * inject_Z k) by (apply Qmult_lt_compat_r; assumption).
    rewrite Qmult_1_l in *.
    eapply Qlt_irrefl. eapply Qle_lt_trans; eassumption.
Qed.

Local Open Scope Z_scope.

Lemma next_bounds (rng : SeededRandom.t) :
  (0 <= fst (SeededRandom.next rng))%Q /\ (fst (SeededRandom.next rng) < 1)%Q.
Proof. rewrite next_spec. apply unit_fraction_bounds, step_range. Qed.

Lemma nextInt_range (min max : Z) (rng : SeededRandom.t) :
  min <= max -> min <= fst (SeededRandom.nextInt min max rng) <= max.
Proof.
  intros H. unfold SeededRandom.nextInt.
  destruct (next_bounds rng) as [H0 H1].
  destruct (SeededRandom.next rng) as [r rng']. cbn [fst] in *.
  pose proof (floor_scaled r (max - min + 1) H0 H1 ltac:(lia)). lia.
Qed.

Lemma pick_in {T} (array : list T) (rng : SeededRandom.t) :
  array <> [] ->
  exists v, fst (SeededRandom.pick array rng) = Some v /\ In v array.
Proof.
  intros H. unfold SeededRandom.pick.
  destruct (next_bounds rng) as [H0 H1].
  destruct (SeededRandom.next rng) as [r rng']. cbn [fst] in *.
  assert (Hlen : 1 <= Z.of_nat (length array)).
  { destruct array; [congruence | simpl length; lia]. }
  pose proof (floor_scaled r _ H0 H1 Hlen) as B.
  destruct (nth_error array (Z.to_nat (Js.floor (r * inject_Z (Z.of_nat (length array))))))
    as [v |] eqn:E.
  - exists v. split; [reflexivity | eapply nth_error_In; eassumption].
  - apply nth_error_None in E. lia.
Qed.

(** ** Computations that return *)

Lemma returns_ret {St A} (a : A) (post : A -> Prop) :
  post a -> returns (St := St) (ret a) post.
Proof. intros H st. exists a, st. split; [reflexivity | exact H]. Qed.

Lemma returns_bind {St A B} (m : Eff St A) (k : A -> Eff St B)
    (mid : A -> Prop) (post : B -> Prop) :
  returns m mid ->
  (forall a, mid a -> returns (k a) post) ->
  returns (x <- m ;; k x) post.
Proof.
  intros Hm Hk st. unfold bind.
  destruct (Hm st) as (a & st' & E & Ha). rewrite E.
  apply (Hk a Ha).
Qed.

Lemma returns_weaken {St A} (m : Eff St A) (post post' : A -> Prop) :
  returns m post -> (forall a, post a -> post' a) -> returns m post'.
Proof.
  intros Hm Hw st. destruct (Hm st) as (a & st' & E & Ha).
  exists a, st'. auto.
Qed.

Lemma returns_draw {A} (method : SeededRandom.t -> A * SeededRandom.t)
    (post : A -> Prop) :
  (forall rng, post (fst (method rng))) -> returns (draw method) post.
Proof.
  intros H rng. unfold draw. specialize (H rng).
  destruct (method rng) as [a rng']. exists a, rng'. auto.
Qed.

Lemma returns_nextInt (min max : Z) :
  min <= max ->
  returns (draw (SeededRandom.nextInt min max)) (fun v => min <= v <= max).
Proof. intros H. apply returns_draw. intros rng. apply nextInt_range, H. Qed.

Lemma returns_nextInt_any (min max : Z) :
  returns (draw (SeededRandom.nextInt min max)) (fun _ => True).
Proof. apply returns_draw. trivial. Qed.

Lemma returns_pick_any {T} (array : list T) :
  returns (draw (SeededRandom.pick array)) (fun _ => True).
Proof. apply returns_draw. trivial. Qed.

Lemma returns_pick {T} (array : list T) :
  array <> [] ->
  returns (draw (SeededRandom.pick array))
          (fun v => exists a, v = Some a /\ In a array).
Proof. intros H. apply returns_draw. intros rng. apply pick_in, H. Qed.

Lemma returns_the {St A} (v : option A) (a : A) (post : A -> Prop) :
  v = Some a -> post a -> returns (St := St) (the v) post.
Proof. intros -> H. apply returns_ret, H. Qed.

Lemma returns_for_from {St L} (inv : Z -> L -> Prop) (body : Z -> L -> Eff St L)
    (n : nat) :
  forall (i : Z) (s : L),
    (forall j s', i <= j < i + Z.of_nat n -> inv j s' ->
                  returns (body j s') (inv (j + 1))) ->
    inv i s ->
    returns (for_from n i body s) (inv (i + Z.of_nat n)).
Proof.
  induction n as [| n IH]; intros i s Hbody Hinv.
  - cbn [for_from]. apply returns_ret. replace (i + Z.of_nat 0) with i by lia. exact Hinv.
  - simpl for_from.
    eapply returns_bind.
    + apply Hbody; [lia | exact Hinv].
    + intros s' Hs'. replace (i + Z.of_nat (S n)) with (i + 1 + Z.of_nat n) by lia.
      apply IH; [| exact Hs'].
      intros j s'' Hj. apply Hbody. lia.
Qed.

Lemma returns_for_loop {St L} (inv : Z -> L -> Prop) (body : Z -> L -> Eff St L)
    (count : Z) (init : L) :
  0 <= count ->
  (forall j s, 0 <= j < count -> inv j s -> returns (body j s) (inv (j + 1))) ->
  inv 0 init ->
  returns (for_loop count body init) (inv count).
Proof.
  intros Hc Hbody Hinit. unfold for_loop.
  replace count with (0 + Z.of_nat (Z.to_nat count)) at 2 by lia.
  apply returns_for_from; [| exact Hinit].
  intros j s Hj. apply Hbody. lia.
Qed.

(** ** The rooms of a generated dungeon *)

Tactic Notation "step_nextInt" ident(v) ident(H) :=
  eapply returns_bind; [apply returns_nextInt; lia | intros v H; cbv beta in H].
Tactic Notation "step_any" ident(v) :=
  eapply returns_bind;
  [first [apply returns_nextInt_any | apply returns_pick_any] | intros v _].

Lemma entity_body_returns (i x y width height e : Z) (entities : list PlacedEntity.t) :
  returns (entity_body i x y width height e entities) (fun _ => True).
Proof.
  unfold entity_body.
  step_any type. step_any ex. step_any ey.
  apply returns_ret. exact I.
Qed.

Lemma room_body_returns (roomCount i : Z) (st : RoomLoop) :
  rooms_inv i st -> returns (room_body roomCount i st) (rooms_inv (i + 1)).
Proof.
  intros [Hlen Hok]. unfold room_body.
  step_nextInt width Hw. step_nextInt height Hh.
  step_any offsetX. step_any offsetY.
  eapply returns_bind with (mid := fun _ => True).
  { destruct (i =? 0); [apply returns_ret; exact I |].
    destruct (i =? roomCount - 1); [apply returns_ret; exact I |].
    apply returns_pick_any. }
  intros roomType _.
  step_any theme.
  eapply returns_bind with (mid := fun _ => True).
  { destruct (negb _); [| apply returns_ret; exact I].
    step_nextInt entityCount Hc.
    eapply returns_weaken.
    - apply returns_for_loop with (inv := fun _ _ => True); [lia | | exact I].
      intros j s _ _. apply entity_body_returns.
    - trivial. }
  intros entities _.
  apply returns_ret. split; cbn [rooms_so_far].
  - rewrite length_app. cbn [length]. lia.
  - apply Forall_app. split; [exact Hok |].
    constructor; [| constructor]. split; cbn; lia.
Qed.

Lemma room_loop_returns (roomCount : Z) :
  0 <= roomCount ->
  returns (for_loop roomCount (room_body roomCount) (mkRoomLoop 0 0 []))
          (rooms_inv roomCount).
Proof.
  intros H. apply returns_for_loop; [exact H | |].
  - intros j s _ Hs. apply room_body_returns, Hs.
  - split; [reflexivity | constructor].
Qed.

(** ** Connections *)

Lemma linked_app rooms connections more j :
  linked rooms connections j -> linked rooms (connections ++ more) j.
Proof.
  intros (a & b & c & Ha & Hb & Hc & Hab).
  exists a, b, c. repeat split; try assumption; try apply Hab.
  apply in_or_app. left. exact Hc.
Qed.

Lemma index_in_range {T} (array : list T) (i : Z) :
  0 <= i < Z.of_nat (length array) -> exists v, index array i = Some v.
Proof.
  intros H. unfold index.
  destruct (Z.ltb_spec i 0); [lia |].
  destruct (nth_error array (Z.to_nat i)) as [v |] eqn:E; [eauto |].
  apply nth_error_None in E. lia.
Qed.

Lemma connect_body_returns rooms i connections :
  0 <= i < Z.of_nat (length rooms) - 1 ->
  chain_upto rooms i connections ->
  returns (connect_body rooms i connections) (chain_upto rooms (i + 1)).
Proof.
  intros Hi Hchain. unfold connect_body.
  destruct (index_in_range rooms i ltac:(lia)) as [a Ha].
  destruct (index_in_range rooms (i + 1) ltac:(lia)) as [b Hb].
  rewrite Ha, Hb. cbn [the].
  eapply returns_bind; [apply returns_ret with (post := fun v => v = a); reflexivity |].
  intros ? ->.
  eapply returns_bind; [apply returns_ret with (post := fun v => v = b); reflexivity |].
  intros ? ->.
  apply returns_ret. intros j Hj.
  destruct (Z.eq_dec j i) as [-> | Hne].
  - exists a, b. eexists.
    split; [exact Ha |]. split; [exact Hb |]. split.
    + apply in_or_app. right. left. reflexivity.
    + split; reflexivity.
  - apply linked_app. apply Hchain. lia.
Qed.

Lemma branch_body_returns rooms i connections n :
  3 <= Z.of_nat (length rooms) ->
  chain_upto rooms n connections ->
  returns (branch_body rooms i connections) (chain_upto rooms n).
Proof.
  intros Hlen Hchain. unfold branch_body.
  step_nextInt fromIdx Hf. step_nextInt toIdx Ht.
  destruct (index_in_range rooms fromIdx ltac:(lia)) as [a Ha].
  destruct (index_in_range rooms toIdx ltac:(lia)) as [b Hb].
  rewrite Ha, Hb. cbn [the].
  eapply returns_bind; [apply returns_ret with (post := fun _ => True); exact I |].
  intros ? _.
  eapply returns_bind; [apply returns_ret with (post := fun _ => True); exact I |].
  intros ? _.
  apply returns_ret. intros j Hj. apply linked_app. apply Hchain, Hj.
Qed.

Lemma spawn_body_returns rooms i spawnPoints :
  2 <= Z.of_nat (length rooms) ->
  returns (spawn_body rooms i spawnPoints) (fun _ => True).
Proof.
  intros Hlen. unfold spawn_body.
  eapply returns_bind.
  { apply returns_pick. destruct rooms as [| r0 [| r1 rest]]; cbn in *; try lia. discriminate. }
  intros picked (room & -> & _).
  step_any type. cbn [the].
  eapply returns_bind; [apply returns_ret with (post := fun _ => True); exact I |].
  intros ? _.
  step_any sx. step_any sy.
  apply returns_ret. exact I.
Qed.

Lemma generateDungeon_body_returns : returns generateDungeon_body layout_ok.
Proof.
  unfold generateDungeon_body.
  step_nextInt roomCount Hcount.
  eapply returns_bind; [apply room_loop_returns; lia |].
  intros st [Hlen Hok].
  set (rooms := rooms_so_far st) in *.
  eapply returns_bind.
  { apply returns_for_loop with (inv := chain_upto rooms); [lia | |].
    - intros j s Hj Hs. apply connect_body_returns; [lia | exact Hs].
    - intros j Hj. lia. }
  intros connections Hchain.
  step_any branchCount.
  eapply returns_bind.
  { apply returns_for_from
      with (inv := fun _ => chain_upto rooms (Z.of_nat (length rooms) - 1));
      [| exact Hchain].
    intros j s _ Hs. apply branch_body_returns; [lia | exact Hs]. }
  intros connections' Hchain'.
  step_any spawnCount.
  eapply returns_bind.
  { apply returns_for_from with (inv := fun _ _ => True); [| exact I].
    intros j s _ _. apply spawn_body_returns. lia. }
  intros spawnPoints _.
  destruct (index_in_range rooms 0 ltac:(lia)) as [startRoom Hs].
  destruct (index_in_range rooms (Z.of_nat (length rooms) - 1) ltac:(lia)) as [exitRoom He].
  rewrite Hs, He. cbn [the].
  eapply returns_bind; [apply returns_ret with (post := fun v => v = startRoom); reflexivity |].
  intros ? ->.
  eapply returns_bind; [apply returns_ret with (post := fun _ => True); exact I |].
  intros ? _.
  apply returns_ret. unfold layout_ok. cbn.
  fold rooms. repeat split; try lia; try assumption.
  exists startRoom. split; [exact Hs | reflexivity].
Qed.

Lemma generateDungeon_returns (seed : Z) :
  exists layout, generateDungeon seed = Returned layout /\ layout_ok layout.
Proof.
  unfold generateDungeon.
  destruct (generateDungeon_body_returns (SeededRandom.mk seed)) as (layout & rng & E & H).
  exists layout. rewrite E. split; [reflexivity | exact H].
Qed.

Lemma chain_reachable rooms connections first :
  chain_upto rooms (Z.of_nat (length rooms) - 1) connections ->
  index rooms 0 = Some first ->
  forall (n : nat) r,
    index rooms (Z.of_nat n) = Some r ->
    reachable connections (GeneratedRoom.id first) (GeneratedRoom.id r).
Proof.
  intros Hchain Hfirst. induction n as [| n IH]; intros r Hr.
  - change (Z.of_nat 0) with 0 in Hr. rewrite Hfirst in Hr. injection Hr as <-.
    constructor.
  - assert (Hrange : Z.of_nat (S n) < Z.of_nat (length rooms)).
    { unfold index in Hr. destruct (Z.of_nat (S n) <? 0); [discriminate |].
      assert (nth_error rooms (Z.to_nat (Z.of_nat (S n))) <> None) by congruence.
      apply nth_error_Some in H. lia. }
    destruct (Hchain (Z.of_nat n) ltac:(lia)) as (a & b & c & Ha & Hb & Hc & Hfrom & Hto).
    replace (Z.of_nat n + 1) with (Z.of_nat (S n)) in Hb by lia.
    rewrite Hr in Hb. injection Hb as <-.
    rewrite <- Hto. apply reachable_step; [| exact Hc].
    rewrite Hfrom. apply IH, Ha.
Qed.

Lemma In_index {T} (array : list T) (v : T) :
  In v array -> exists n : nat, index array (Z.of_nat n) = Some v.
Proof.
  intros H. apply In_nth_error in H. destruct H as [n Hn].
  exists n. unfold index. destruct (Z.ltb_spec (Z.of_nat n) 0); [lia |].
  rewrite Nat2Z.id. exact Hn.
Qed.

Lemma room_center_inside (r : GeneratedRoom.t) :
  room_ok r -> contains (GeneratedRoom.bounds r) (room_center r).
Proof.
  intros [Hw Hh]. unfold contains, room_center, Js.floor_div. cbn.
  pose proof (Z.div_pos (Rectangle.width (GeneratedRoom.bounds r)) 2 ltac:(lia) ltac:(lia)).
  pose proof (Z.div_pos (Rectangle.height (GeneratedRoom.bounds r)) 2 ltac:(lia) ltac:(lia)).
  pose proof (Z.div_le_upper_bound (Rectangle.width (GeneratedRoom.bounds r)) 2
                (Rectangle.width (GeneratedRoom.bounds r)) ltac:(lia) ltac:(lia)).
  pose proof (Z.div_le_upper_bound (Rectangle.height (GeneratedRoom.bounds r)) 2
                (Rectangle.height (GeneratedRoom.bounds r)) ltac:(lia) ltac:(lia)).
  lia.
Qed.

(** ** Sorting *)

Lemma insert_perm (a : Z) (l : list Z) : Permutation (insert a l) (a :: l).
Proof.
  induction l as [| b l IH]; cbn [insert]; [reflexivity |].
  destruct (a <=? b); [reflexivity |].
  rewrite IH. apply perm_swap.
Qed.

Lemma insert_sorted (a : Z) (l : list Z) :
  LocallySorted Z.le l -> LocallySorted Z.le (insert a l).
Proof.
  induction 1 as [| b | b c l Hs IH Hbc]; cbn [insert].
  - constructor.
  - destruct (Z.leb_spec a b); repeat constructor; lia.
  - destruct (Z.leb_spec a b).
    + repeat constructor; assumption.
    + cbn [insert] in IH. destruct (Z.leb_spec a c).
      * repeat constructor; try assumption; lia.
      * constructor; assumption.
Qed.

Lemma sort_numeric_perm (values : list Z) : Permutation (sort_numeric values) values.
Proof.
  induction values as [| a l IH]; cbn; [reflexivity |].
  rewrite insert_perm. constructor. exact IH.
Qed.

Lemma sort_numeric_sorted (values : list Z) : LocallySorted Z.le (sort_numeric values).
Proof.
  induction values as [| a l IH]; cbn; [constructor |].
  apply insert_sorted, IH.
Qed.

Lemma sort_numeric_length (values : list Z) :
  length (sort_numeric values) = length values.
Proof. apply Permutation_length, sort_numeric_perm. Qed.

Lemma floor_fraction (n a : Z) (b : positive) :
  Js.floor (inject_Z n * (a # b)) = n * a / Z.pos b.
Proof. reflexivity. Qed.

Lemma at_fraction_spec (sorted : list Z) (a : Z) (b : positive) :
  at_fraction sorted (a # b) =
  nth_error sorted (Z.to_nat (Z.of_nat (length sorted) * a / Z.pos b)).
Proof. reflexivity. Qed.

Lemma fraction_index_in_range (n a b : Z) :
  0 < n -> 0 <= a < b -> 0 <= n * a / b < n.
Proof.
  intros Hn Ha. split.
  - apply Z.div_pos; nia.
  - apply Z.div_lt_upper_bound; nia.
Qed.

Lemma percentile_at (values : list Z) (a : Z) :
  values <> [] -> 0 <= a < 100 ->
  exists v,
    at_fraction (sort_numeric values) (a # 100) = Some v /\
    nth_error (sort_numeric values)
              (Z.to_nat (Z.of_nat (length values) * a / 100)) = Some v.
Proof.
  intros Hne Ha. rewrite at_fraction_spec, sort_numeric_length.
  assert (Hn : 0 < Z.of_nat (length values)).
  { destruct values; [congruence | cbn [length]; lia]. }
  pose proof (fraction_index_in_range _ a 100 Hn Ha) as B.
  destruct (nth_error (sort_numeric values)
                      (Z.to_nat (Z.of_nat (length values) * a / 100))) as [v |] eqn:E.
  - exists v. split; reflexivity.
  - apply nth_error_None in E. rewrite sort_numeric_length in E. lia.
Qed.

(** ** generate_once and the simulation loop *)

Lemma generate_once_returns (env : Env.t) (request : GenerationRequest.t) :
  exists result layout,
    generate_once env request = Returned result /\
    generateDungeon (GenerationRequest.seed request) = Returned layout /\
    layout_ok layout /\
    GenerationResult.data result = Some layout /\
    GenerationResult.seed result = GenerationRequest.seed request /\
    GenerationResult.success result = true.
Proof.
  unfold generate_once.
  destruct (generateDungeon_returns (GenerationRequest.seed request)) as (layout & E & Hok).
  rewrite E. eexists. exists layout.
  split; [reflexivity |]. split; [reflexivity |]. split; [exact Hok |].
  repeat split.
Qed.

Lemma run_indices_S (i : Z) (n : nat) :
  run_indices i (S n) = i :: run_indices (i + 1) n.
Proof.
  unfold run_indices. cbn [seq map]. f_equal; [lia |].
  rewrite <- seq_shift, map_map. apply map_ext. intros k. lia.
Qed.

Lemma generate_requests_app (l l' : list Invocation) :
  generate_requests (l ++ l') = generate_requests l ++ generate_requests l'.
Proof. apply flat_map_app. Qed.

Lemma cancelSimulation_returns (w : World) :
  exists w', cancelSimulation w = (Returned tt, w') /\
             generate_requests (invoked w') = generate_requests (invoked w).
Proof.
  eexists. split; [reflexivity |]. cbn.
  rewrite generate_requests_app. cbn. apply app_nil_r.
Qed.

Section SimulationLoop.

Variable env : SimEnv.t.
Variable config : SimulationConfig.t.

Lemma run_body_returns (i : Z) (results : list GenerationResult.t) (w : World) :
  exists r w',
    run_body env config i results w = (Returned (results ++ [r]), w') /\
    generate_once (SimEnv.run env i) (request_for config i) = Returned r /\
    generate_requests (invoked w') =
      generate_requests (invoked w) ++ [request_for config i].
Proof.
  unfold run_body, await_generate_once. fold (request_for config i).
  destruct (generate_once_returns (SimEnv.run env i) (request_for config i))
    as (r & layout & E & _).
  exists r. unfold bind at 1 2. unfold invoke. rewrite E.
  destruct (SimEnv.cancel_pressed env i).
  - unfold bind at 1.
    destruct (cancelSimulation_returns
                (mkWorld (store w) (invoked w ++ [Invoke_generate_once (request_for config i)])))
      as (w' & Ec & Hlog).
    rewrite Ec. exists w'. split; [reflexivity |]. split; [reflexivity |].
    rewrite Hlog. cbn [invoked]. rewrite generate_requests_app. reflexivity.
  - eexists. split; [reflexivity |]. split; [reflexivity |].
    cbn. rewrite generate_requests_app. reflexivity.
Qed.

Lemma run_loop_returns (n : nat) :
  forall (i : Z) (results : list GenerationResult.t) (w : World),
  exists more w',
    for_from n i (run_body env config) results w = (Returned (results ++ more), w') /\
    Forall2 (fun k r => generate_once (SimEnv.run env k) (request_for config k) = Returned r)
            (run_indices i n) more /\
    generate_requests (invoked w') =
      generate_requests (invoked w) ++ map (request_for config) (run_indices i n).
Proof.
  induction n as [| n IH]; intros i results w.
  - exists [], w. cbn. rewrite !app_nil_r. repeat split. constructor.
  - cbn [for_from]. unfold bind.
    destruct (run_body_returns i results w) as (r & w1 & E & Hr & Hlog).
    rewrite E.
    destruct (IH (i + 1) (results ++ [r]) w1) as (more & w' & E' & Hmore & Hlog').
    exists (r :: more), w'. rewrite run_indices_S. split; [| split].
    + rewrite E'. rewrite <- app_assoc. reflexivity.
    + constructor; assumption.
    + rewrite Hlog', Hlog. rewrite <- app_assoc. reflexivity.
Qed.

Lemma run_simulation_returns (w : World) :
  exists runs w',
    run_simulation env config w = (Returned (aggregate env config runs), w') /\
    Forall2 (fun k r => generate_once (SimEnv.run env k) (request_for config k)
                        = Returned r)
            (run_indices 0 (Z.to_nat (SimulationConfig.runCount config))) runs /\
    generate_requests (invoked w') =
      generate_requests (invoked w) ++
      map (request_for config)
          (run_indices 0 (Z.to_nat (SimulationConfig.runCount config))).
Proof.
  unfold run_simulation, for_loop, bind.
  destruct (run_loop_returns (Z.to_nat (SimulationConfig.runCount config)) 0 [] w)
    as (runs & w' & E & Hruns & Hlog).
  rewrite E. exists runs, w'. auto.
Qed.

Lemma scheduled_seeds (n : nat) :
  map GenerationRequest.seed (map (request_for config) (run_indices 0 n)) =
  map (fun k => Js.round53 (coalesce (SimulationConfig.seedStart config) 0 + Z.of_nat k))
      (seq 0 n).
Proof.
  unfold run_indices. rewrite !map_map. apply map_ext. intros k. reflexivity.
Qed.

Lemma scheduled_seeds_exact (n : nat) :
  Z.abs (coalesce (SimulationConfig.seedStart config) 0) + Z.of_nat n <= 2 ^ 53 ->
  map GenerationRequest.seed (map (request_for config) (run_indices 0 n)) =
  map (fun k => coalesce (SimulationConfig.seedStart config) 0 + Z.of_nat k)
      (seq 0 n).
Proof.
  intros Hsmall. rewrite scheduled_seeds. apply map_ext_in. intros k Hk.
  apply in_seq in Hk. apply round53_small. lia.
Qed.

(** ** Branch weights *)

Section WeightArithmetic.

Import BranchWeightsEditor.
Local Open Scope Q_scope.

Lemma fold_plus_acc (l : list Q) : forall a, fold_left Qplus l a == a + total l.
Proof.
  unfold total. induction l as [| w l IH]; intros a; cbn [fold_left].
  - ring.
  - rewrite IH, (IH (0 + w)). ring.
Qed.

Lemma total_cons (w : Q) (l : list Q) : total (w :: l) == w + total l.
Proof. unfold total at 1. cbn [fold_left]. rewrite fold_plus_acc. ring. Qed.

Lemma total_app (l l' : list Q) : total (l ++ l') == total l + total l'.
Proof.
  induction l as [| w l IH]; cbn [app].
  - unfold total at 2. cbn. ring.
  - rewrite !total_cons, IH. ring.
Qed.

Lemma total_scaled (c : Q) (l : list Q) :
  total (map (fun w => w * c) l) == total l * c.
Proof.
  induction l as [| w l IH]; cbn [map].
  - reflexivity.
  - rewrite !total_cons, IH. ring.
Qed.


Lemma quotient_nonzero (w sum : Q) : ~ sum == 0 -> quotient w sum = Some (w / sum).
Proof.
  intros H. unfold quotient. destruct (Qeq_bool sum 0) eqn:E; [| reflexivity].
  apply Qeq_bool_eq in E. contradiction.
Qed.

Lemma total_divided (sum : Q) (l : list Q) :
  ~ sum == 0 -> total l == sum -> total (map (fun w => w / sum) l) == 1.
Proof.
  intros Hs Ht. unfold Qdiv. rewrite total_scaled, Ht. field. exact Hs.
Qed.

Lemma total_present_Some (l : list Q) : total_present (map Some l) = total l.
Proof.
  unfold total_present, total. generalize 0. 
  induction l as [| w l IH]; intros a; cbn; [reflexivity | apply IH].
Qed.

Lemma assign_in_range (weights : list Q) (v : Q) :
  forall index, (index < length weights)%nat ->
    assign (map Some weights) index v = map Some (replaced weights index v).
Proof.
  induction weights as [| w rest IH]; intros index H; cbn in H; [lia |].
  destruct index as [| index']; cbn; [reflexivity |].
  rewrite IH by lia. reflexivity.
Qed.

Lemma replaced_other (weights : list Q) (v : Q) :
  forall index i, i <> index ->
    nth_error (replaced weights index v) i = nth_error weights i.
Proof.
  induction weights as [| w rest IH]; intros [| index'] [| i'] H; cbn;
    try reflexivity; try congruence.
  apply IH. congruence.
Qed.

Lemma map_quotient (sum : Q) (l : list Q) :
  ~ sum == 0 ->
  map (fun w => quotient w sum) l = map Some (map (fun w => w / sum) l).
Proof.
  intros H. rewrite map_map. apply map_ext. intros w. apply quotient_nonzero, H.
Qed.

Lemma nth_error_divided (sum : Q) (l : list Q) (i : nat) (w : Q) :
  nth_error l i = Some w ->
  nth_error (map (fun w => w / sum) l) i = Some (w / sum).
Proof. intros H. rewrite nth_error_map, H. reflexivity. Qed.

Lemma updateWeight_normalized (weights : list Q) (index : nat) (value : Z) :
  (index < length weights)%nat ->
  let sum := total_present (assign (map Some weights) index (inject_Z value / 100)) in
  ~ sum == 0 ->
  exists out,
    updateWeight weights index value = map Some out /\
    total out == 1 /\
    forall i w, i <> index -> nth_error weights i = Some w ->
                nth_error out i = Some (w / sum).
Proof.
  intros Hi sum Hsum. unfold updateWeight. fold sum.
  subst sum. rewrite assign_in_range in * by exact Hi.
  rewrite total_present_Some in *.
  set (newWeights := replaced weights index (inject_Z value / 100)) in *.
  exists (map (fun w => w / total newWeights) newWeights).
  split; [| split].
  - rewrite map_map. exact (map_quotient _ _ Hsum).
  - apply total_divided; [exact Hsum | reflexivity].
  - intros i w Hne Hw. apply nth_error_divided.
    unfold newWeights. rewrite replaced_other by exact Hne. exact Hw.
Qed.

Lemma addPath_normalized (weights : list Q) :
  total weights == 1 ->
  total (addPath weights) == 1 /\
  forall i w, nth_error weights i = Some w ->
    nth_error (addPath weights) i =
    Some (w * (1 - 1 / inject_Z (Z.of_nat (length weights) + 1))).
Proof.
  intros H. unfold addPath. split.
  - rewrite total_app, total_scaled, H. unfold total. cbn [fold_left]. ring.
  - intros i w Hw. rewrite nth_error_app1.
    + rewrite nth_error_map, Hw. reflexivity.
    + rewrite length_map. apply nth_error_Some. congruence.
Qed.

Lemma removePath_normalized (weights : list Q) (index : nat) :
  (2 < length weights)%nat ->
  let sum := total (filter_out 0 index weights) in
  ~ sum == 0 ->
  exists out,
    removePath weights index = Some (map Some out) /\
    total out == 1 /\
    out = map (fun w => w / sum) (filter_out 0 index weights).
Proof.
  intros Hlen sum Hsum. unfold removePath.
  destruct (Nat.leb_spec (length weights) 2); [lia |].
  fold sum. exists (map (fun w => w / sum) (filter_out 0 index weights)).
  split; [| split].
  - rewrite map_quotient by exact Hsum. reflexivity.
  - apply total_divided; [exact Hsum | reflexivity].
  - reflexivity.
Qed.


Lemma filter_out_past (index : nat) (weights : list Q) :
  forall i, (index < i)%nat -> BranchWeightsEditor.filter_out i index weights = weights.
Proof.
  induction weights as [| w rest IH]; intros i H; cbn; [reflexivity |].
  destruct (Nat.eqb_spec i index); [lia |]. f_equal. apply IH. lia.
Qed.

Lemma filter_out_spec (weights : list Q) :
  forall i index, (i <= index)%nat ->
    BranchWeightsEditor.filter_out i index weights =
    firstn (index - i) weights ++ skipn (S (index - i)) weights.
Proof.
  induction weights as [| w rest IH]; intros i index H.
  - rewrite firstn_nil, skipn_nil. reflexivity.
  - cbn [BranchWeightsEditor.filter_out].
    destruct (Nat.eqb_spec i index) as [-> | Hne].
    + rewrite Nat.sub_diag. cbn [firstn skipn app].
      apply filter_out_past. lia.
    + rewrite IH by lia.
      replace (index - i)%nat with (S (index - S i)) by lia.
      reflexivity.
Qed.

Lemma total_nonneg (l : list Q) : Forall (fun w => 0 <= w) l -> 0 <= total l.
Proof.
  induction 1 as [| w l Hw _ IH].
  - apply Qle_refl.
  - rewrite total_cons. rewrite <- (Qplus_0_l 0). apply Qplus_le_compat; assumption.
Qed.

Lemma total_replaced_lower (v : Q) (l : list Q) :
  Forall (fun w => 0 <= w) l ->
  forall index, (index < length l)%nat -> v <= total (replaced l index v).
Proof.
  induction 1 as [| w l Hw Hl IH]; intros index Hi; cbn in Hi; [lia |].
  destruct index as [| index']; cbn [replaced]; rewrite total_cons.
  - rewrite <- (Qplus_0_r v) at 1. apply Qplus_le_compat; [apply Qle_refl |].
    apply total_nonneg, Hl.
  - rewrite <- (Qplus_0_l v) at 1. apply Qplus_le_compat; [exact Hw |].
    apply IH. lia.
Qed.

(** With non-negative weights and a slider value of at least 1, the sum that
    [updateWeight] divides by is positive. *)
Lemma updateWeight_sum_positive (weights : list Q) (index : nat) (value : Z) :
  Forall (fun w => 0 <= w) weights -> (1 <= value)%Z ->
  (index < length weights)%nat ->
  0 < total_present (assign (map Some weights) index (inject_Z value / 100)).
Proof.
  intros Hw Hv Hi. rewrite assign_in_range by exact Hi.
  rewrite total_present_Some.
  eapply Qlt_le_trans; [| apply total_replaced_lower; assumption].
  apply Qlt_shift_div_l; [reflexivity |].
  rewrite Qmult_0_l. change 0 with (inject_Z 0). rewrite <- Zlt_Qlt. lia.
Qed.

End WeightArithmetic.

End SimulationLoop.

(** Pressing Cancel does not change what the loop returns. *)
Lemma run_loop_ignores_cancel (env env' : SimEnv.t) (config : SimulationConfig.t)
    (n : nat) :
  (forall i, SimEnv.run env i = SimEnv.run env' i) ->
  forall (i : Z) (results : list GenerationResult.t) (w w' : World),
    fst (for_from n i (run_body env config) results w) =
    fst (for_from n i (run_body env' config) results w').
Proof.
  intros Hrun. induction n as [| n IH]; intros i results w w'; [reflexivity |].
  cbn [for_from]. unfold bind.
  destruct (run_body_returns env config i results w) as (r & w1 & E & Hr & _).
  destruct (run_body_returns env' config i results w') as (r' & w1' & E' & Hr' & _).
  rewrite E, E'. rewrite Hrun, Hr' in Hr. injection Hr as ->.
  apply IH.
Qed.

(** * The claims *)

(** ** Single runs *)

(** C1: for every generator graph and every seed, two calls of
    [generate_once] with the same request both return, and with the same
    layout: rooms, connections, spawn points, entities, [playerStart] and
    exits are equal, whatever the clock and [Math.random] give each call. *)
Theorem C1_generate_once_deterministic
    (G : Generator.t) (generatorId : string) (parameters : option Parameters)
    (s : Z) (env env' : Env.t) :
  let request := GenerationRequest.mk generatorId s parameters (Some G) in
  exists layout,
    layout_of (generate_once env request) = Some layout /\
    layout_of (generate_once env' request) = Some layout.
Proof.
  intros request.
  destruct (generate_once_returns env request) as (r & layout & E & G1 & _ & D & _).
  destruct (generate_once_returns env' request) as (r' & layout' & E' & G1' & _ & D' & _).
  exists layout. rewrite E, E'. cbn [layout_of].
  rewrite G1 in G1'. injection G1' as <-. auto.
Qed.

(** C2: two calls of [generate_once] with the same seed return the same
    layout, whatever generator id, generator graph and parameters each
    request carries. *)
Theorem C2_layout_depends_on_seed_only
    (request request' : GenerationRequest.t) (env env' : Env.t) :
  GenerationRequest.seed request = GenerationRequest.seed request' ->
  exists layout,
    layout_of (generate_once env request) = Some layout /\
    layout_of (generate_once env' request') = Some layout.
Proof.
  intros Hseed.
  destruct (generate_once_returns env request) as (r & layout & E & G1 & _ & D & _).
  destruct (generate_once_returns env' request') as (r' & layout' & E' & G1' & _ & D' & _).
  exists layout. rewrite E, E'. cbn [layout_of].
  rewrite <- Hseed, G1 in G1'. injection G1' as <-. auto.
Qed.

Lemma C2_layout_depends_on_seed_only_witness :
  GenerationRequest.generatorId sample_request
    <> GenerationRequest.generatorId other_request /\
  exists layout,
    layout_of (generate_once sample_env sample_request) = Some layout /\
    layout_of (generate_once later_env other_request) = Some layout.
Proof.
  split; [discriminate |].
  apply (C2_layout_depends_on_seed_only sample_request other_request). reflexivity.
Defined.



(** ** Statistics *)

(** C4, as the code has it: for every non-empty list of [n] values, each
    percentile [p] of 5, 25, 75 and 95 percent is the element of the
    ascending-sorted values at index [floor(p * n)]. *)
Theorem C4_percentiles_index_by_length (values : list Z) :
  values <> [] ->
  let stats := calcStats values in
  let sorted := sort_numeric values in
  let n := Z.of_nat (length values) in
  LocallySorted Z.le sorted /\ Permutation sorted values /\
  (exists v, DistributionStats.p5 stats = Some v /\
             nth_error sorted (Z.to_nat (n * 5 / 100)) = Some v) /\
  (exists v, DistributionStats.p25 stats = Some v /\
             nth_error sorted (Z.to_nat (n * 25 / 100)) = Some v) /\
  (exists v, DistributionStats.p75 stats = Some v /\
             nth_error sorted (Z.to_nat (n * 75 / 100)) = Some v) /\
  (exists v, DistributionStats.p95 stats = Some v /\
             nth_error sorted (Z.to_nat (n * 95 / 100)) = Some v).
Proof.
  intros Hne stats sorted n.
  split; [apply sort_numeric_sorted |]. split; [apply sort_numeric_perm |].
  repeat split; apply percentile_at; try assumption; lia.
Qed.

Lemma C4_percentiles_index_by_length_witness :
  [1; 2; 3; 4] <> [] /\
  exists v, DistributionStats.p25 (calcStats [1; 2; 3; 4]) = Some v /\
            nth_error (sort_numeric [1; 2; 3; 4]) (Z.to_nat (4 * 25 / 100)) = Some v.
Proof.
  split; [discriminate |].
  destruct (C4_percentiles_index_by_length [1; 2; 3; 4] ltac:(discriminate))
    as (_ & _ & _ & H25 & _).
  exact H25.
Defined.

(** C4 as stated fails on four values: the 25th percentile is the sorted
    value at index 1, where [floor(0.25 * (4 - 1))] is index 0. *)
Lemma C4_percentile_index_counterexample :
  DistributionStats.p25 (calcStats [1; 2; 3; 4]) = Some 2 /\
  documented_percentile [1; 2; 3; 4] (25 # 100) = Some 1 /\
  DistributionStats.p25 (calcStats [1; 2; 3; 4])
    <> documented_percentile [1; 2; 3; 4] (25 # 100).
Proof. repeat split. discriminate. Qed.

(** C5: on the dataset 1, 2, 3, 4, 5 the statistics have mean 3, median 3,
    minimum 1 and maximum 5, and the 25th and 75th percentiles are the sorted
    values at the documented indices 1 and 3, that is 2 and 4. *)
Theorem C5_statistics_of_one_to_five :
  let values := [1; 2; 3; 4; 5] in
  let stats := calcStats values in
  DistributionStats.mean stats = Some 3%Q /\
  DistributionStats.median stats = Some 3 /\
  DistributionStats.min stats = Some 1 /\
  DistributionStats.max stats = Some 5 /\
  DistributionStats.p25 stats = documented_percentile values (25 # 100) /\
  DistributionStats.p25 stats = Some 2 /\
  DistributionStats.p75 stats = documented_percentile values (75 # 100) /\
  DistributionStats.p75 stats = Some 4.
Proof. repeat split. Qed.

(** ** Simulation *)

(** C6, as the code has it: [run_simulation] with [runCount = N] returns
    after exactly [N] invocations of [generate_once]; the seed of run [i] is
    the double sum [seedStart + i] ([seedStart] is 0 when absent), so the
    seeds are [seedStart], [seedStart + 1], ..., [seedStart + N - 1] in this
    order whenever [|seedStart| + N <= 2^53]; and its [successRate] is the
    number of these runs with [success = true] divided by [N]. *)
Theorem C6_simulation_runs_and_success_rate
    (env : SimEnv.t) (config : SimulationConfig.t) (w : World) :
  let N := Z.to_nat (SimulationConfig.runCount config) in
  let seedStart := coalesce (SimulationConfig.seedStart config) 0 in
  let requests := map (request_for config) (run_indices 0 N) in
  exists results runs w',
    run_simulation env config w = (Returned results, w') /\
    generate_requests (invoked w') = generate_requests (invoked w) ++ requests /\
    length requests = N /\
    map GenerationRequest.seed requests =
      map (fun k => Js.round53 (seedStart + Z.of_nat k)) (seq 0 N) /\
    (Z.abs seedStart + Z.of_nat N <= 2 ^ 53 ->
     map GenerationRequest.seed requests =
       map (fun k => seedStart + Z.of_nat k) (seq 0 N)) /\
    Forall2 (fun k r => generate_once (SimEnv.run env k) (request_for config k)
                        = Returned r)
            (run_indices 0 N) runs /\
    SimulationResults.successRate results =
      Js.div (Z.of_nat (length (filter GenerationResult.success runs)))
             (Z.of_nat N).
Proof.
  intros N seedStart requests.
  destruct (run_simulation_returns env config w) as (runs & w' & E & Hruns & Hlog).
  exists (aggregate env config runs), runs, w'.
  split; [exact E |]. split; [exact Hlog |].
  split; [unfold requests, run_indices; rewrite !length_map, length_seq; reflexivity |].
  split; [apply scheduled_seeds |].
  split; [apply scheduled_seeds_exact |]. split; [exact Hruns |].
  cbn [aggregate SimulationResults.successRate].
  apply Forall2_length in Hruns.
  unfold run_indices in Hruns. rewrite length_map, length_seq in Hruns.
  fold N in Hruns. rewrite <- Hruns. reflexivity.
Qed.

Lemma C6_simulation_runs_and_success_rate_witness :
  exists results w',
    run_simulation cancel_after_ten hundred_runs idle_world = (Returned results, w') /\
    map GenerationRequest.seed (generate_requests (invoked w')) =
      map (fun k => 0 + Z.of_nat k) (seq 0 100).
Proof.
  destruct (C6_simulation_runs_and_success_rate cancel_after_ten hundred_runs idle_world)
    as (results & runs & w' & E & Hlog & _ & _ & Hexact & _).
  exists results, w'. split; [exact E |].
  rewrite Hlog. apply Hexact. vm_compute. discriminate.
Defined.

(** The claim as stated fails where the sum leaves the integers that a
    double holds: four runs from [2^53 - 1] use the seed [2^53] twice and
    never [2^53 + 1]. *)
Lemma C6_large_seed_counterexample :
  exists results w',
    run_simulation cancel_after_ten large_seed_runs idle_world = (Returned results, w') /\
    map GenerationRequest.seed (generate_requests (invoked w')) =
      [9007199254740991; 9007199254740992; 9007199254740992; 9007199254740994] /\
    map GenerationRequest.seed (generate_requests (invoked w')) <>
      map (fun k => 9007199254740991 + Z.of_nat k) (seq 0 4).
Proof.
  destruct (run_simulation_returns cancel_after_ten large_seed_runs idle_world)
    as (runs & w' & E & _ & Hlog).
  exists (aggregate cancel_after_ten large_seed_runs runs), w'. split; [exact E |].
  rewrite Hlog. split; [vm_compute; reflexivity | vm_compute; discriminate].
Qed.

(** C7, as the code has it: pressing Cancel while a simulation runs does
    not change what it returns.  [run_simulation] returns the
    [SimulationResults] aggregated over all [runCount] runs, the same value
    as when Cancel is never pressed, and the store's [runSimulation] records
    it as [simulationResults]. *)
Theorem C7_cancel_does_not_change_results
    (env : SimEnv.t) (config : SimulationConfig.t) (w : World) :
  exists results runs w',
    run_simulation env config w = (Returned results, w') /\
    fst (run_simulation (uncancelled env) config w) = Returned results /\
    results = aggregate env config runs /\
    length runs = Z.to_nat (SimulationConfig.runCount config) /\
    SimulationResults.runs results = SimulationConfig.runCount config /\
    Store.simulationResults (store (snd (runSimulation env config w)))
      = Some results.
Proof.
  destruct (run_simulation_returns env config w) as (runs & w' & E & Hruns & _).
  exists (aggregate env config runs), runs, w'.
  assert (Hsame : forall env' w0,
             (forall i, SimEnv.run env i = SimEnv.run env' i) ->
             SimEnv.startTime env' = SimEnv.startTime env ->
             SimEnv.endTime env' = SimEnv.endTime env ->
             fst (run_simulation env' config w0)
             = Returned (aggregate env config runs)).
  { intros env' w0 Hrun Hs He.
    pose proof (run_loop_ignores_cancel env env' config
                  (Z.to_nat (SimulationConfig.runCount config)) Hrun 0 [] w w0) as L.
    unfold run_simulation, for_loop, bind in E |- *.
    destruct (for_from _ 0 (run_body env config) [] w) as [[rs | e] w1];
      [| discriminate].
    destruct (for_from _ 0 (run_body env' config) [] w0) as [o w2].
    cbn [fst] in L. subst o. cbv beta iota delta [ret fst] in E |- *.
    assert (E1 : aggregate env config rs = aggregate env config runs) by congruence.
    rewrite <- E1. unfold aggregate. rewrite Hs, He. reflexivity. }
  split; [exact E |].
  split; [apply Hsame; reflexivity |].
  split; [reflexivity |].
  split.
  { apply Forall2_length in Hruns. unfold run_indices in Hruns.
    rewrite length_map, length_seq in Hruns. symmetry. exact Hruns. }
  split; [reflexivity |].
  unfold runSimulation, bind, set, try_catch, invoke.
  match goal with
  | |- context [run_simulation env config ?w0] =>
      pose proof (Hsame env w0 ltac:(reflexivity) eq_refl eq_refl) as H0;
      destruct (run_simulation env config w0) as [o w1]
  end.
  cbn [fst] in H0. subst o. reflexivity.
Qed.

(** C7 as stated fails: with one hundred runs scheduled and Cancel pressed
    after ten of them, [cancel_simulation] is invoked and the caller still
    gets a [SimulationResults], over all hundred runs. *)
Lemma C7_cancelled_simulation_counterexample :
  exists results w',
    run_simulation cancel_after_ten hundred_runs idle_world
      = (Returned results, w') /\
    In Invoke_cancel_simulation (invoked w') /\
    length (generate_requests (invoked w')) = 100%nat /\
    SimulationResults.runs results = 100 /\
    SimulationResults.successRate results = Some 1%Q /\
    ~ cancelled_result
        (fst (run_simulation cancel_after_ten hundred_runs idle_world)).
Proof.
  eexists. eexists.
  split; [vm_compute; reflexivity |].
  split; [cbn [invoked]; do 11 right; left; reflexivity |].
  split; [vm_compute; reflexivity |].
  split; [reflexivity |]. split; [reflexivity |].
  intros H. eapply H. vm_compute. reflexivity.
Qed.

(** ** Branch weights *)

Section WeightClaims.

Local Open Scope Q_scope.








End WeightClaims.

(** ** The random number generator and the shape of a dungeon *)

(** C9: in every state of a [SeededRandom], [next()] returns a value in
    [0, 1); [nextInt(min, max)] with [min <= max] returns an integer in
    [min, max]; [pick] on a non-empty array returns one of its elements. *)
Theorem C9_rng_ranges (rng : SeededRandom.t) :
  (0 <= fst (SeededRandom.next rng) /\ fst (SeededRandom.next rng) < 1)%Q /\
  (forall min max, min <= max ->
                   min <= fst (SeededRandom.nextInt min max rng) <= max) /\
  (forall (T : Type) (array : list T),
      array <> [] ->
      exists v, fst (SeededRandom.pick array rng) = Some v /\ In v array).
Proof.
  split; [apply next_bounds |]. split.
  - intros min max H. apply nextInt_range, H.
  - intros T array H. apply pick_in, H.
Qed.

Lemma C9_rng_ranges_witness :
  5 <= fst (SeededRandom.nextInt 5 12 (SeededRandom.mk 42)) <= 12 /\
  exists v, fst (SeededRandom.pick roomTypes (SeededRandom.mk 42)) = Some v /\
            In v roomTypes.
Proof.
  destruct (C9_rng_ranges (SeededRandom.mk 42)) as (_ & Hint & Hpick).
  split.
  - apply Hint. lia.
  - apply Hpick. discriminate.
Defined.

(** C10: [generateDungeon] returns for every seed; the layout has between
    5 and 12 rooms, a connection from [rooms[i]] to [rooms[i + 1]] for every
    [i < rooms.length - 1], every room reachable from the first room, and
    [playerStart] inside the first room. *)
Theorem C10_rooms_chained_and_reachable (seed : Z) :
  exists layout startRoom,
    generateDungeon seed = Returned layout /\
    5 <= Z.of_nat (length (DungeonLayout.rooms layout)) <= 12 /\
    (forall i a b,
        0 <= i < Z.of_nat (length (DungeonLayout.rooms layout)) - 1 ->
        index (DungeonLayout.rooms layout) i = Some a ->
        index (DungeonLayout.rooms layout) (i + 1) = Some b ->
        exists c, In c (DungeonLayout.connections layout) /\ connects c a b) /\
    index (DungeonLayout.rooms layout) 0 = Some startRoom /\
    contains (GeneratedRoom.bounds startRoom) (DungeonLayout.playerStart layout) /\
    (forall r, In r (DungeonLayout.rooms layout) ->
               reachable (DungeonLayout.connections layout)
                         (GeneratedRoom.id startRoom) (GeneratedRoom.id r)).
Proof.
  destruct (generateDungeon_returns seed)
    as (layout & E & Hcount & Hok & Hchain & startRoom & Hstart & Hplayer).
  exists layout, startRoom. split; [exact E |]. split; [exact Hcount |].
  split; [| split; [exact Hstart | split]].
  - intros i a b Hi Ha Hb.
    destruct (Hchain i Hi) as (a' & b' & c & Ha' & Hb' & Hc & Hab).
    rewrite Ha in Ha'. rewrite Hb in Hb'.
    injection Ha' as <-. injection Hb' as <-.
    exists c. split; assumption.
  - rewrite Hplayer. apply room_center_inside.
    rewrite Forall_forall in Hok. apply Hok.
    apply (nth_error_In _ 0%nat). exact Hstart.
  - intros r Hr. destruct (In_index _ _ Hr) as [n Hn].
    eapply chain_reachable; eassumption.
Qed.

(** * Further properties

    ** The generator, field by field *)

Lemma index_range {T} (array : list T) (j : Z) (v : T) :
  index array j = Some v -> 0 <= j < Z.of_nat (length array).
Proof.
  unfold index. destruct (Z.ltb_spec j 0); [discriminate |].
  intros Hv. assert (Hn : nth_error array (Z.to_nat j) <> None) by congruence.
  apply nth_error_Some in Hn. lia.
Qed.

Lemma index_snoc_last {T} (array : list T) (a : T) :
  index (array ++ [a]) (Z.of_nat (length array)) = Some a.
Proof.
  unfold index. destruct (Z.ltb_spec (Z.of_nat (length array)) 0); [lia |].
  rewrite Nat2Z.id, nth_error_app2 by lia. rewrite Nat.sub_diag. reflexivity.
Qed.

Lemma index_snoc_before {T} (array : list T) (a : T) (j : Z) :
  j < Z.of_nat (length array) -> index (array ++ [a]) j = index array j.
Proof.
  intros Hj. unfold index. destruct (Z.ltb_spec j 0); [reflexivity |].
  apply nth_error_app1. lia.
Qed.

Lemma index_snoc_inv {T} (array : list T) (a v : T) (j : Z) :
  index (array ++ [a]) j = Some v ->
  (j < Z.of_nat (length array) /\ index array j = Some v) \/
  (j = Z.of_nat (length array) /\ v = a).
Proof.
  intros H. pose proof (index_range _ _ _ H) as R.
  rewrite length_app in R. cbn [length] in R.
  destruct (Z_lt_le_dec j (Z.of_nat (length array))) as [Hlt | Hge].
  - left. rewrite index_snoc_before in H by exact Hlt. auto.
  - right. assert (j = Z.of_nat (length array)) by lia. subst j.
    rewrite index_snoc_last in H. injection H as <-. auto.
Qed.

Lemma all_indexed_nil {T} (P : Z -> T -> Prop) : all_indexed P [].
Proof.
  intros j v H. apply index_range in H. cbn in H. lia.
Qed.

Lemma all_indexed_snoc {T} (P : Z -> T -> Prop) (array : list T) (a : T) :
  all_indexed P array -> P (Z.of_nat (length array)) a ->
  all_indexed P (array ++ [a]).
Proof.
  intros Hall Ha j v H.
  destruct (index_snoc_inv _ _ _ _ H) as [[_ Hj] | [-> ->]]; auto.
Qed.

Lemma all_adjacent_snoc {T} (R : T -> T -> Prop) (array : list T) (a : T) :
  all_adjacent R array ->
  (forall last, index array (Z.of_nat (length array) - 1) = Some last -> R last a) ->
  all_adjacent R (array ++ [a]).
Proof.
  intros Hall Hlast j x y Hx Hy.
  destruct (index_snoc_inv _ _ _ _ Hy) as [[Hlt Hy'] | [Hj ->]].
  - rewrite index_snoc_before in Hx by lia. eapply Hall; eassumption.
  - rewrite index_snoc_before in Hx by lia. apply Hlast.
    replace (Z.of_nat (length array) - 1) with j by lia. exact Hx.
Qed.

(** ** The rooms of a generated dungeon, field by field *)

Lemma returns_pick_one_of (options : list string) :
  options <> [] ->
  returns (draw (SeededRandom.pick options)) (one_of options).
Proof. intros H. apply returns_pick, H. Qed.

Lemma entity_body_spec (i x y width height e : Z) (entities : list PlacedEntity.t) :
  3 <= width -> 3 <= height ->
  Z.of_nat (length entities) = e ->
  all_indexed (entity_shape i (Rectangle.mk x y width height)) entities ->
  returns (entity_body i x y width height e entities)
          (fun entities' =>
             Z.of_nat (length entities') = e + 1 /\
             all_indexed (entity_shape i (Rectangle.mk x y width height)) entities').
Proof.
  intros Hw Hh Hlen Hall. unfold entity_body.
  eapply returns_bind; [apply returns_pick_one_of; discriminate |].
  intros type Htype.
  step_nextInt ex Hex. step_nextInt ey Hey.
  apply returns_ret. split.
  - rewrite length_app. cbn [length]. lia.
  - apply all_indexed_snoc; [exact Hall |].
    rewrite Hlen. split; [reflexivity |]. split; [exact Htype |].
    split; cbn; lia.
Qed.

Lemma entity_loop_spec (i x y width height entityCount : Z) :
  3 <= width -> 3 <= height -> 0 <= entityCount ->
  returns (for_loop entityCount (entity_body i x y width height) [])
          (fun entities =>
             Z.of_nat (length entities) = entityCount /\
             all_indexed (entity_shape i (Rectangle.mk x y width height)) entities).
Proof.
  intros Hw Hh Hc.
  apply returns_for_loop
    with (inv := fun e entities =>
                   Z.of_nat (length entities) = e /\
                   all_indexed (entity_shape i (Rectangle.mk x y width height)) entities).
  - exact Hc.
  - intros e entities _ [Hlen Hall]. apply entity_body_spec; assumption.
  - split; [reflexivity | apply all_indexed_nil].
Qed.

Lemma not_entrance (t : jsstring) :
  one_of ["hallway"; "chamber"; "treasure"]%string t ->
  jsstring_eqb t (Some "entrance"%string) = false.
Proof.
  intros (s & -> & [<- | [<- | [<- | []]]]); reflexivity.
Qed.

Lemma room_body_spec (roomCount i : Z) (st : RoomLoop) :
  0 <= i ->
  rooms_full_inv roomCount i st ->
  returns (room_body roomCount i st) (rooms_full_inv roomCount (i + 1)).
Proof.
  intros Hi (Hlen & Hrooms & Hadj & Hfirst & Hlast). unfold room_body.
  step_nextInt width Hw. step_nextInt height Hh.
  step_nextInt offsetX Hox. step_nextInt offsetY Hoy.
  set (x := lastX st + offsetX). set (y := lastY st + offsetY).
  eapply returns_bind
    with (mid := fun roomType =>
                   (i = 0 -> roomType = Some "entrance"%string) /\
                   (i <> 0 -> i = roomCount - 1 -> roomType = Some "boss"%string) /\
                   (i <> 0 -> i <> roomCount - 1 ->
                    one_of ["hallway"; "chamber"; "treasure"]%string roomType)).
  { destruct (Z.eqb_spec i 0) as [-> | H0].
    - apply returns_ret. repeat split; intros; congruence.
    - destruct (Z.eqb_spec i (roomCount - 1)) as [H1 | H1].
      + apply returns_ret. repeat split; intros; congruence.
      + eapply returns_weaken; [apply returns_pick_one_of; discriminate |].
        intros t Ht. repeat split; intros; try congruence. exact Ht. }
  intros roomType (Tfirst & Tlast & Tmid).
  eapply returns_bind; [apply returns_pick_one_of; discriminate |].
  intros theme Htheme.
  eapply returns_bind
    with (mid := fun entities =>
                   (i = 0 -> entities = []) /\
                   Z.of_nat (length entities) <= 4 /\
                   all_indexed (entity_shape i (Rectangle.mk x y width height)) entities).
  { destruct (Z.eq_dec i 0) as [-> | H0].
    - rewrite (Tfirst eq_refl). cbn [jsstring_eqb String.eqb negb].
      apply returns_ret. split; [reflexivity |]. split; [cbn; lia | apply all_indexed_nil].
    - assert (Hne : jsstring_eqb roomType (Some "entrance"%string) = false).
      { destruct (Z.eq_dec i (roomCount - 1)) as [H1 | H1].
        - rewrite (Tlast H0 H1). reflexivity.
        - apply not_entrance, Tmid; assumption. }
      rewrite Hne. cbn [negb].
      step_nextInt entityCount Hc.
      eapply returns_weaken; [apply entity_loop_spec; lia |].
      intros entities [Hn Hall]. split; [congruence |]. split; [lia | exact Hall]. }
  intros entities (Enone & Ecount & Eall).
  apply returns_ret. unfold rooms_full_inv. cbn [rooms_so_far lastX lastY].
  split; [rewrite length_app; cbn [length]; lia |].
  split; [| split; [| split]].
  - apply all_indexed_snoc; [exact Hrooms |]. rewrite Hlen.
    unfold room_shape, room_ok.
    cbn [GeneratedRoom.id GeneratedRoom.type GeneratedRoom.bounds
         GeneratedRoom.entities GeneratedRoom.metadata RoomMetadata.difficulty
         RoomMetadata.theme Rectangle.width Rectangle.height
         Rectangle.x Rectangle.y].
    split; [reflexivity |]. split; [split; lia |].
    split; [intros ->; destruct (Hfirst eq_refl) as [Hx0 Hy0];
            cbn [Rectangle.x Rectangle.y]; unfold x, y; rewrite Hx0, Hy0; lia |].
    split; [exact Tfirst |]. split; [exact Tlast |]. split; [exact Tmid |].
    split; [reflexivity |]. split; [exact Htheme |].
    split; [exact Enone |]. split; [exact Ecount | exact Eall].
  - apply all_adjacent_snoc; [exact Hadj |].
    intros last Hl. rewrite Hlen in Hl. destruct (Hlast last Hl) as [Hx Hy].
    unfold placed_after.
    cbn [GeneratedRoom.bounds Rectangle.x Rectangle.y Rectangle.width Rectangle.height].
    unfold x, y. rewrite Hx, Hy. lia.
  - lia.
  - intros last Hl. replace (i + 1 - 1) with (Z.of_nat (length (rooms_so_far st))) in Hl by lia.
    rewrite index_snoc_last in Hl. injection Hl as <-. split; reflexivity.
Qed.

Lemma room_loop_spec (roomCount : Z) :
  0 <= roomCount ->
  returns (for_loop roomCount (room_body roomCount) (mkRoomLoop 0 0 []))
          (rooms_full_inv roomCount roomCount).
Proof.
  intros H. apply returns_for_loop; [exact H | |].
  - intros j s Hj Hs. apply room_body_spec; [lia | exact Hs].
  - unfold rooms_full_inv. cbn [rooms_so_far lastX lastY length].
    split; [reflexivity |]. split; [apply all_indexed_nil |].
    split; [| split; [auto |]].
    + intros j a b Ha. apply index_range in Ha. cbn in Ha. lia.
    + intros last Hl. apply index_range in Hl. cbn in Hl. lia.
Qed.

Lemma connect_body_spec rooms i connections :
  0 <= i < Z.of_nat (length rooms) - 1 ->
  Z.of_nat (length connections) = i ->
  all_indexed (chain_shape rooms) connections ->
  returns (connect_body rooms i connections)
          (fun connections' =>
             Z.of_nat (length connections') = i + 1 /\
             all_indexed (chain_shape rooms) connections').
Proof.
  intros Hi Hlen Hall. unfold connect_body.
  destruct (index_in_range rooms i ltac:(lia)) as [a Ha].
  destruct (index_in_range rooms (i + 1) ltac:(lia)) as [b Hb].
  rewrite Ha, Hb. cbn [the].
  eapply returns_bind; [apply returns_ret with (post := fun v => v = a); reflexivity |].
  intros ? ->.
  eapply returns_bind; [apply returns_ret with (post := fun v => v = b); reflexivity |].
  intros ? ->.
  apply returns_ret. split; [rewrite length_app; cbn [length]; lia |].
  apply all_indexed_snoc; [exact Hall |]. rewrite Hlen.
  exists a, b. split; [exact Ha |]. split; [exact Hb |].
  split; [split; reflexivity |]. split; reflexivity.
Qed.

Lemma branch_body_spec rooms i connections :
  3 <= Z.of_nat (length rooms) ->
  returns (branch_body rooms i connections)
          (fun connections' =>
             exists c, connections' = connections ++ [c] /\ branch_shape rooms c).
Proof.
  intros Hlen. unfold branch_body.
  step_nextInt fromIdx Hf. step_nextInt toIdx Ht.
  destruct (index_in_range rooms fromIdx ltac:(lia)) as [a Ha].
  destruct (index_in_range rooms toIdx ltac:(lia)) as [b Hb].
  rewrite Ha, Hb. cbn [the].
  eapply returns_bind; [apply returns_ret with (post := fun v => v = a); reflexivity |].
  intros ? ->.
  eapply returns_bind; [apply returns_ret with (post := fun v => v = b); reflexivity |].
  intros ? ->.
  apply returns_ret. eexists. split; [reflexivity |].
  exists fromIdx, toIdx, a, b.
  split; [lia |]. split; [lia |]. split; [exact Ha |]. split; [exact Hb |].
  split; [split; reflexivity |]. split; reflexivity.
Qed.

Lemma In_skipn_index {T} (array : list T) (v : T) :
  In v (skipn 1 array) -> exists j, 1 <= j /\ index array j = Some v.
Proof.
  destruct array as [| a rest]; cbn [skipn]; [intros [] |].
  intros H. destruct (In_index _ _ H) as [n Hn].
  exists (Z.of_nat (S n)). split; [lia |].
  unfold index in *. destruct (Z.ltb_spec (Z.of_nat (S n)) 0); [lia |].
  destruct (Z.ltb_spec (Z.of_nat n) 0); [lia |].
  rewrite Nat2Z.id in *. exact Hn.
Qed.

Lemma spawn_body_spec rooms roomCount i spawnPoints :
  2 <= Z.of_nat (length rooms) ->
  all_indexed (room_shape roomCount) rooms ->
  Z.of_nat (length spawnPoints) = i ->
  all_indexed (spawn_shape rooms) spawnPoints ->
  returns (spawn_body rooms i spawnPoints)
          (fun spawnPoints' =>
             Z.of_nat (length spawnPoints') = i + 1 /\
             all_indexed (spawn_shape rooms) spawnPoints').
Proof.
  intros Hlen Hrooms Hn Hall. unfold spawn_body.
  eapply returns_bind.
  { apply returns_pick. destruct rooms as [| r0 [| r1 rest]]; cbn in *; try lia. discriminate. }
  intros picked (room & -> & Hin).
  eapply returns_bind; [apply returns_pick_one_of; discriminate |].
  intros type Htype. cbn [the].
  eapply returns_bind; [apply returns_ret with (post := fun v => v = room); reflexivity |].
  intros ? ->.
  destruct (In_skipn_index _ _ Hin) as (j & Hj & Hroom).
  destruct (Hrooms j room Hroom) as (_ & [Hw Hh] & _).
  step_nextInt sx Hsx. step_nextInt sy Hsy.
  apply returns_ret. split; [rewrite length_app; cbn [length]; lia |].
  apply all_indexed_snoc; [exact Hall |]. rewrite Hn.
  split; [reflexivity |]. split; [exact Htype |].
  exists j, room. split; [exact Hj |]. split; [exact Hroom |].
  split; [reflexivity |].
  unfold inside. cbn [SpawnPoint.position Position.x Position.y]. lia.
Qed.

Lemma generateDungeon_body_spec : returns generateDungeon_body layout_shape.
Proof.
  unfold generateDungeon_body.
  step_nextInt roomCount Hcount.
  eapply returns_bind; [apply room_loop_spec; lia |].
  intros st (Hlen & Hrooms & Hadj & _ & _).
  set (rooms := rooms_so_far st) in *.
  eapply returns_bind.
  { apply returns_for_loop
      with (inv := fun k connections =>
                     Z.of_nat (length connections) = k /\
                     all_indexed (chain_shape rooms) connections); [lia | |].
    - intros j s Hj [Hn Hall]. apply connect_body_spec; [lia | exact Hn | exact Hall].
    - split; [reflexivity | apply all_indexed_nil]. }
  intros chain [Hchain_len Hchain].
  eapply returns_bind;
    [apply returns_nextInt; unfold Js.floor_div; apply Z.div_pos; lia |].
  intros branchCount Hbranch. unfold Js.floor_div in Hbranch.
  eapply returns_bind.
  { apply returns_for_loop
      with (inv := fun k connections =>
                     exists branches,
                       connections = chain ++ branches /\
                       Z.of_nat (length branches) = k /\
                       Forall (branch_shape rooms) branches); [lia | |].
    - intros j s Hj (branches & -> & Hn & Hall).
      eapply returns_weaken; [apply branch_body_spec; lia |].
      intros s' (c & -> & Hc). exists (branches ++ [c]).
      split; [rewrite app_assoc; reflexivity |].
      split; [rewrite length_app; cbn [length]; lia |].
      apply Forall_app. split; [exact Hall | constructor; [exact Hc | constructor]].
    - exists []. split; [rewrite app_nil_r; reflexivity |].
      split; [reflexivity | constructor]. }
  intros connections (branches & -> & Hbn & Hbranches).
  step_nextInt spawnCount Hspawn.
  eapply returns_bind.
  { apply returns_for_loop
      with (inv := fun k spawnPoints =>
                     Z.of_nat (length spawnPoints) = k /\
                     all_indexed (spawn_shape rooms) spawnPoints); [lia | |].
    - intros j s Hj [Hn Hall].
      apply spawn_body_spec with (roomCount := roomCount); try assumption. lia.
    - split; [reflexivity | apply all_indexed_nil]. }
  intros spawnPoints [Hsn Hspawns].
  destruct (index_in_range rooms 0 ltac:(lia)) as [startRoom Hs].
  destruct (index_in_range rooms (Z.of_nat (length rooms) - 1) ltac:(lia)) as [exitRoom He].
  rewrite Hs, He. cbn [the].
  eapply returns_bind; [apply returns_ret with (post := fun v => v = startRoom); reflexivity |].
  intros ? ->.
  eapply returns_bind; [apply returns_ret with (post := fun v => v = exitRoom); reflexivity |].
  intros ? ->.
  apply returns_ret. unfold layout_shape.
  cbn [DungeonLayout.rooms DungeonLayout.connections DungeonLayout.spawnPoints
       DungeonLayout.playerStart DungeonLayout.exits].
  fold rooms. rewrite Hlen.
  split; [lia |]. split; [exact Hrooms |]. split; [exact Hadj |].
  split.
  { exists chain, branches. split; [reflexivity |]. split; [lia |].
    split; [exact Hchain |]. split; [lia | exact Hbranches]. }
  split; [lia |]. split; [exact Hspawns |].
  split; [exists startRoom; split; [exact Hs | reflexivity] |].
  exists exitRoom. rewrite <- Hlen. split; [exact He | reflexivity].
Qed.

Lemma generateDungeon_spec (seed : Z) :
  exists layout, generateDungeon seed = Returned layout /\ layout_shape layout.
Proof.
  unfold generateDungeon.
  destruct (generateDungeon_body_spec (SeededRandom.mk seed)) as (layout & rng & E & H).
  exists layout. rewrite E. split; [reflexivity | exact H].
Qed.

(** ** Printed numbers *)

Lemma to_int_not_nil (n : Z) :
  Z.to_int n <> Decimal.Pos Decimal.Nil /\ Z.to_int n <> Decimal.Neg Decimal.Nil.
Proof.
  destruct n as [| p | p]; cbn; split; try discriminate.
  - intros H. injection H as H. revert H. apply DecimalPos.Unsigned.to_uint_nonnil.
  - intros H. injection H as H. revert H. apply DecimalPos.Unsigned.to_uint_nonnil.
Qed.

Lemma toString_inj (n m : Z) : Js.toString n = Js.toString m -> n = m.
Proof.
  unfold Js.toString. intros H.
  apply DecimalZ.to_int_inj.
  destruct (to_int_not_nil n) as [Hn1 Hn2]. destruct (to_int_not_nil m) as [Hm1 Hm2].
  pose proof (NilZero.isi _ Hn1 Hn2) as En. pose proof (NilZero.isi _ Hm1 Hm2) as Em.
  rewrite H in En. congruence.
Qed.

Lemma room_id_inj (n m : Z) :
  ("room-" ++ Js.toString n)%string = ("room-" ++ Js.toString m)%string -> n = m.
Proof. cbn. intros H. apply toString_inj. congruence. Qed.

Lemma indexed_ids_NoDup (rooms : list GeneratedRoom.t) :
  all_indexed (fun j r => GeneratedRoom.id r = ("room-" ++ Js.toString j)%string) rooms ->
  NoDup (map GeneratedRoom.id rooms).
Proof.
  intros Hall. apply NoDup_nth_error. intros i j Hi E.
  rewrite length_map in Hi. rewrite !nth_error_map in E.
  destruct (nth_error rooms i) as [a |] eqn:Ea;
    [| apply nth_error_None in Ea; lia].
  destruct (nth_error rooms j) as [b |] eqn:Eb; [| discriminate].
  cbn in E. injection E as E.
  assert (Ia : index rooms (Z.of_nat i) = Some a).
  { unfold index. destruct (Z.ltb_spec (Z.of_nat i) 0); [lia |]. rewrite Nat2Z.id. exact Ea. }
  assert (Ib : index rooms (Z.of_nat j) = Some b).
  { unfold index. destruct (Z.ltb_spec (Z.of_nat j) 0); [lia |]. rewrite Nat2Z.id. exact Eb. }
  rewrite (Hall _ _ Ia), (Hall _ _ Ib) in E.
  apply room_id_inj in E. lia.
Qed.

(** ** The generated dungeon *)

(** Room [j] of a generated dungeon has the id [room-j]; the ids of the
    rooms are pairwise distinct. *)
Theorem generated_room_ids (seed : Z) :
  exists layout,
    generateDungeon seed = Returned layout /\
    (forall j r, index (DungeonLayout.rooms layout) j = Some r ->
                 GeneratedRoom.id r = ("room-" ++ Js.toString j)%string) /\
    NoDup (map GeneratedRoom.id (DungeonLayout.rooms layout)).
Proof.
  destruct (generateDungeon_spec seed) as (layout & E & _ & Hrooms & _).
  exists layout. split; [exact E |].
  assert (Hid : all_indexed
                  (fun j r => GeneratedRoom.id r = ("room-" ++ Js.toString j)%string)
                  (DungeonLayout.rooms layout)).
  { intros j r Hr. apply (Hrooms j r Hr). }
  split; [exact Hid | apply indexed_ids_NoDup, Hid].
Qed.

(** The first room of a generated dungeon is the entrance, the last one the
    boss room, and every room between them a hallway, a chamber or a
    treasure room. *)
Theorem generated_room_types (seed : Z) :
  exists layout,
    generateDungeon seed = Returned layout /\
    let rooms := DungeonLayout.rooms layout in
    let last := Z.of_nat (length rooms) - 1 in
    forall j r, index rooms j = Some r ->
      (j = 0 -> GeneratedRoom.type r = Some "entrance"%string) /\
      (j = last -> GeneratedRoom.type r = Some "boss"%string) /\
      (0 < j < last ->
       one_of ["hallway"; "chamber"; "treasure"]%string (GeneratedRoom.type r)).
Proof.
  destruct (generateDungeon_spec seed) as (layout & E & Hlen & Hrooms & _).
  exists layout. split; [exact E |]. intros rooms last j r Hr.
  destruct (Hrooms j r Hr) as (_ & _ & _ & Hfirst & Hlast & Hmid & _).
  split; [exact Hfirst |]. split.
  - intros ->. apply Hlast; [unfold last, rooms; lia | reflexivity].
  - intros Hj. apply Hmid; unfold last, rooms in *; lia.
Qed.

(** Every room of a generated dungeon is 6 to 14 cells wide and 6 to 12
    high.  The first room has its corner within -3..8 in both directions;
    every later room has its corner 3 cells before to 8 cells after the right
    edge, and the middle row, of the room before it. *)
Theorem generated_room_geometry (seed : Z) :
  exists layout,
    generateDungeon seed = Returned layout /\
    let rooms := DungeonLayout.rooms layout in
    (forall r, In r rooms ->
       6 <= Rectangle.width (GeneratedRoom.bounds r) <= 14 /\
       6 <= Rectangle.height (GeneratedRoom.bounds r) <= 12) /\
    (forall r, index rooms 0 = Some r ->
       -3 <= Rectangle.x (GeneratedRoom.bounds r) <= 8 /\
       -3 <= Rectangle.y (GeneratedRoom.bounds r) <= 8) /\
    (forall j a b, index rooms j = Some a -> index rooms (j + 1) = Some b ->
       placed_after a b).
Proof.
  destruct (generateDungeon_spec seed) as (layout & E & _ & Hrooms & Hadj & _).
  exists layout. split; [exact E |]. intros rooms. split; [| split].
  - intros r Hr. destruct (In_index _ _ Hr) as [n Hn].
    apply (Hrooms _ _ Hn).
  - intros r Hr. destruct (Hrooms 0 r Hr) as (_ & _ & H0 & _). apply H0. reflexivity.
  - exact Hadj.
Qed.

(** The entrance of a generated dungeon holds no entity and every other
    room at most four.  Entity [k] of room [j] has the id [entity-j-k], is an
    enemy, a chest, a trap or a decoration, and stands inside the room, off
    its border cells. *)
Theorem generated_entities (seed : Z) :
  exists layout,
    generateDungeon seed = Returned layout /\
    forall j r, index (DungeonLayout.rooms layout) j = Some r ->
      (j = 0 -> GeneratedRoom.entities r = []) /\
      Z.of_nat (length (GeneratedRoom.entities r)) <= 4 /\
      forall k e, index (GeneratedRoom.entities r) k = Some e ->
        PlacedEntity.id e
          = ("entity-" ++ Js.toString j ++ "-" ++ Js.toString k)%string /\
        one_of ["enemy"; "chest"; "trap"; "decoration"]%string (PlacedEntity.type e) /\
        inside (GeneratedRoom.bounds r) (PlacedEntity.position e).
Proof.
  destruct (generateDungeon_spec seed) as (layout & E & _ & Hrooms & _).
  exists layout. split; [exact E |]. intros j r Hr.
  destruct (Hrooms j r Hr) as (_ & _ & _ & _ & _ & _ & _ & _ & Hnone & Hcount & Hall).
  split; [exact Hnone |]. split; [exact Hcount |].
  intros k e He. apply (Hall k e He).
Qed.

(** A generated dungeon has 3 to 8 spawn points.  Spawn point [k] has the id
    [spawn-k], is of type enemy, item or npc, names a room of the layout
    other than the first, and lies inside that room, off its border cells. *)
Theorem generated_spawn_points (seed : Z) :
  exists layout,
    generateDungeon seed = Returned layout /\
    3 <= Z.of_nat (length (DungeonLayout.spawnPoints layout)) <= 8 /\
    forall k s, index (DungeonLayout.spawnPoints layout) k = Some s ->
      SpawnPoint.id s = ("spawn-" ++ Js.toString k)%string /\
      one_of ["enemy"; "item"; "npc"]%string (SpawnPoint.type s) /\
      exists j room,
        1 <= j /\ index (DungeonLayout.rooms layout) j = Some room /\
        SpawnPoint.roomId s = GeneratedRoom.id room /\
        SpawnPoint.roomId s <> "room-0"%string /\
        inside (GeneratedRoom.bounds room) (SpawnPoint.position s).
Proof.
  destruct (generateDungeon_spec seed)
    as (layout & E & _ & Hrooms & _ & _ & Hcount & Hspawns & _).
  exists layout. split; [exact E |]. split; [exact Hcount |].
  intros k s Hs. destruct (Hspawns k s Hs) as (Hid & Htype & j & room & Hj & Hroom & Hrid & Hin).
  split; [exact Hid |]. split; [exact Htype |].
  exists j, room. split; [exact Hj |]. split; [exact Hroom |]. split; [exact Hrid |].
  split; [| exact Hin].
  rewrite Hrid. destruct (Hrooms j room Hroom) as (Hroomid & _). rewrite Hroomid.
  intros H. apply (room_id_inj j 0) in H. lia.
Qed.

(** The connections of a generated dungeon are the chain of
    [rooms.length - 1] connections from each room to the next, followed by at
    most [floor(rooms.length / 3)] branching connections; every connection
    leads from a room to a room further along the list, a branching one to a
    room at least two places further. *)
Theorem generated_connections (seed : Z) :
  exists layout chain branches,
    generateDungeon seed = Returned layout /\
    let rooms := DungeonLayout.rooms layout in
    let len := Z.of_nat (length rooms) in
    DungeonLayout.connections layout = chain ++ branches /\
    Z.of_nat (length chain) = len - 1 /\
    Z.of_nat (length branches) <= len / 3 /\
    (forall k c, index chain k = Some c -> chain_shape rooms k c) /\
    (forall c, In c branches -> branch_shape rooms c) /\
    (forall c, In c (DungeonLayout.connections layout) ->
       exists i j a b,
         0 <= i /\ i < j /\ j < len /\
         index rooms i = Some a /\ index rooms j = Some b /\ connects c a b).
Proof.
  destruct (generateDungeon_spec seed)
    as (layout & E & _ & _ & _ & (chain & branches & Hc & Hcl & Hchain & Hbl & Hbr) & _).
  exists layout, chain, branches. split; [exact E |]. intros rooms len.
  rewrite Forall_forall in Hbr.
  split; [exact Hc |]. split; [exact Hcl |]. split; [exact Hbl |].
  split; [exact Hchain |]. split; [exact Hbr |].
  intros c Hin. rewrite Hc in Hin. apply in_app_or in Hin. destruct Hin as [Hin | Hin].
  - destruct (In_index _ _ Hin) as [n Hn].
    destruct (Hchain _ _ Hn) as (a & b & Ha & Hb & Hab & _).
    exists (Z.of_nat n), (Z.of_nat n + 1), a, b.
    pose proof (index_range _ _ _ Hb). unfold len, rooms.
    repeat split; try lia; try assumption; apply Hab.
  - destruct (Hbr c Hin) as (i & j & a & b & Hi & Hj & Ha & Hb & Hab & _).
    exists i, j, a, b.
    pose proof (index_range _ _ _ Hb). unfold len, rooms.
    repeat split; try lia; try assumption; apply Hab.
Qed.

(** A generated dungeon has exactly one exit, the centre of its last room,
    which lies within that room. *)
Theorem generated_exit (seed : Z) :
  exists layout last,
    generateDungeon seed = Returned layout /\
    index (DungeonLayout.rooms layout)
          (Z.of_nat (length (DungeonLayout.rooms layout)) - 1) = Some last /\
    DungeonLayout.exits layout = [room_center last] /\
    contains (GeneratedRoom.bounds last) (room_center last).
Proof.
  destruct (generateDungeon_spec seed)
    as (layout & E & _ & Hrooms & _ & _ & _ & _ & _ & last & Hl & Hex).
  exists layout, last. split; [exact E |]. split; [exact Hl |]. split; [exact Hex |].
  apply room_center_inside. apply (Hrooms _ _ Hl).
Qed.

Lemma fraction_bounds (j n : Z) :
  0 <= j < n ->
  (0 <= inject_Z j / inject_Z n /\ inject_Z j / inject_Z n < 1)%Q.
Proof.
  intros H.
  assert (Hn : (0 < inject_Z n)%Q).
  { change 0%Q with (inject_Z 0). rewrite <- Zlt_Qlt. lia. }
  split.
  - apply Qle_shift_div_l; [exact Hn |].
    rewrite Qmult_0_l. change 0%Q with (inject_Z 0). rewrite <- Zle_Qle. lia.
  - apply Qlt_shift_div_r; [exact Hn |].
    rewrite Qmult_1_l. rewrite <- Zlt_Qlt. lia.
Qed.

Lemma fraction_increasing (j k n : Z) :
  0 < n -> j < k -> (inject_Z j / inject_Z n < inject_Z k / inject_Z n)%Q.
Proof.
  intros Hn Hjk.
  assert (Hn' : (0 < inject_Z n)%Q).
  { change 0%Q with (inject_Z 0). rewrite <- Zlt_Qlt. lia. }
  apply Qlt_shift_div_l; [exact Hn' |].
  unfold Qdiv. rewrite <- Qmult_assoc, (Qmult_comm (/ inject_Z n)), Qmult_inv_r, Qmult_1_r.
  - rewrite <- Zlt_Qlt. exact Hjk.
  - intros E. rewrite E in Hn'. discriminate.
Qed.

(** The difficulty of room [j] of a generated dungeon is [j / rooms.length]:
    0 for the entrance, below 1 for every room, and larger for every later
    room. *)
Theorem generated_difficulty (seed : Z) :
  exists layout,
    generateDungeon seed = Returned layout /\
    let rooms := DungeonLayout.rooms layout in
    let len := Z.of_nat (length rooms) in
    (forall j r, index rooms j = Some r ->
       exists d, RoomMetadata.difficulty (GeneratedRoom.metadata r) = Some d /\
                 (d == inject_Z j / inject_Z len)%Q /\ (0 <= d)%Q /\ (d < 1)%Q) /\
    (forall j k a b da db,
       index rooms j = Some a -> index rooms k = Some b -> j < k ->
       RoomMetadata.difficulty (GeneratedRoom.metadata a) = Some da ->
       RoomMetadata.difficulty (GeneratedRoom.metadata b) = Some db ->
       (da < db)%Q).
Proof.
  destruct (generateDungeon_spec seed) as (layout & E & Hlen & Hrooms & _).
  exists layout. split; [exact E |]. intros rooms len.
  assert (Hd : forall j r, index rooms j = Some r ->
             RoomMetadata.difficulty (GeneratedRoom.metadata r)
             = Some (Qred (inject_Z j / inject_Z len))).
  { intros j r Hr.
    destruct (Hrooms j r Hr) as (_ & _ & _ & _ & _ & _ & Hdiff & _).
    rewrite Hdiff. unfold Js.div. fold rooms. fold len.
    destruct (Z.eqb_spec len 0); [unfold len, rooms in *; lia | reflexivity]. }
  split.
  - intros j r Hr. eexists. split; [apply (Hd j r Hr) |].
    pose proof (index_range _ _ _ Hr) as R.
    destruct (fraction_bounds j len R) as [H0 H1].
    pose proof (Qred_correct (inject_Z j / inject_Z len)) as Heq.
    split; [exact Heq |]. rewrite Heq. split; assumption.
  - intros j k a b da db Ha Hb Hjk Ea Eb.
    rewrite (Hd j a Ha) in Ea. rewrite (Hd k b Hb) in Eb.
    injection Ea as <-. injection Eb as <-.
    pose proof (Qred_correct (inject_Z j / inject_Z len)) as Hj.
    pose proof (Qred_correct (inject_Z k / inject_Z len)) as Hk.
    rewrite Hj, Hk. apply fraction_increasing; [| exact Hjk].
    unfold len, rooms. lia.
Qed.

(** ** generate_once *)

(** Every [generate_once] returns a result with [success = true], no errors,
    no retries, the seed of the request, and the three constraint results
    [min-rooms], [connected] and [has-exit], all of them passed;
    [nodeExecutions] is three times the number of rooms. *)
Theorem generate_once_reports_success (env : Env.t) (request : GenerationRequest.t) :
  exists result layout,
    generate_once env request = Returned result /\
    GenerationResult.data result = Some layout /\
    GenerationResult.success result = true /\
    GenerationResult.errors result = [] /\
    GenerationResult.seed result = GenerationRequest.seed request /\
    map ConstraintResult.constraintId (GenerationResult.constraintResults result)
      = ["min-rooms"; "connected"; "has-exit"]%string /\
    Forall (fun cr => ConstraintResult.passed cr = true)
           (GenerationResult.constraintResults result) /\
    GenerationMetadata.nodeExecutions (GenerationResult.metadata result)
      = 3 * Z.of_nat (length (DungeonLayout.rooms layout)) /\
    GenerationMetadata.retryCount (GenerationResult.metadata result) = 0.
Proof.
  destruct (generateDungeon_spec (GenerationRequest.seed request))
    as (layout & E & Hlen & _ & _ & _ & _ & _ & _ & last & _ & Hex).
  unfold generate_once. rewrite E.
  eexists. exists layout. split; [reflexivity |].
  cbn [GenerationResult.data GenerationResult.success GenerationResult.errors
       GenerationResult.seed GenerationResult.constraintResults
       GenerationResult.metadata GenerationMetadata.nodeExecutions
       GenerationMetadata.retryCount map ConstraintResult.constraintId].
  repeat split; try reflexivity; try lia.
  repeat constructor; cbn [ConstraintResult.passed].
  - apply Z.leb_le. lia.
  - rewrite Hex. reflexivity.
Qed.

(** ** Order statistics *)

Lemma sort_numeric_strongly_sorted (values : list Z) :
  StronglySorted Z.le (sort_numeric values).
Proof.
  apply Sorted_StronglySorted.
  - intros a b c. apply Z.le_trans.
  - apply Sorted_LocallySorted_iff, sort_numeric_sorted.
Qed.

Lemma strongly_sorted_nth (l : list Z) :
  StronglySorted Z.le l ->
  forall i j a b, (i <= j)%nat ->
    nth_error l i = Some a -> nth_error l j = Some b -> a <= b.
Proof.
  induction 1 as [| x l Hs IH Hall]; intros i j a b Hij Ha Hb.
  - destruct i; discriminate.
  - destruct i as [| i'], j as [| j']; cbn in Ha, Hb.
    + injection Ha as <-. injection Hb as <-. lia.
    + injection Ha as <-. rewrite Forall_forall in Hall.
      apply Hall. eapply nth_error_In, Hb.
    + lia.
    + eapply IH; [| eassumption | eassumption]. lia.
Qed.

Lemma sorted_perm_unique (l : list Z) :
  StronglySorted Z.le l ->
  forall l', StronglySorted Z.le l' -> Permutation l l' -> l = l'.
Proof.
  induction 1 as [| x l Hs IH Hall]; intros l' Hs' Hp.
  - apply Permutation_nil in Hp. congruence.
  - destruct l' as [| y l'']; [apply Permutation_sym, Permutation_nil in Hp; discriminate |].
    inversion Hs' as [| ? ? Hs'' Hall']; subst.
    rewrite Forall_forall in Hall, Hall'.
    assert (Hxy : x = y).
    { assert (Hx : In x (y :: l'')) by (eapply Permutation_in; [exact Hp | left; reflexivity]).
      assert (Hy : In y (x :: l)).
      { eapply Permutation_in; [apply Permutation_sym, Hp | left; reflexivity]. }
      destruct Hx as [-> | Hx]; [reflexivity |].
      destruct Hy as [-> | Hy]; [reflexivity |].
      specialize (Hall _ Hy). specialize (Hall' _ Hx). lia. }
    subst y. f_equal. apply IH; [exact Hs'' |].
    eapply Permutation_cons_inv, Hp.
Qed.

Lemma sort_numeric_perm_invariant (values values' : list Z) :
  Permutation values values' -> sort_numeric values = sort_numeric values'.
Proof.
  intros Hp. apply sorted_perm_unique; try apply sort_numeric_strongly_sorted.
  rewrite sort_numeric_perm, Hp. symmetry. apply sort_numeric_perm.
Qed.

Lemma sum_from (values : list Z) (a : Z) :
  fold_left Z.add values a = a + fold_left Z.add values 0.
Proof.
  revert a. induction values as [| v l IH]; intros a; cbn [fold_left]; [lia |].
  rewrite IH, (IH (0 + v)). lia.
Qed.

Lemma sum_perm_invariant (values values' : list Z) :
  Permutation values values' ->
  fold_left Z.add values 0 = fold_left Z.add values' 0.
Proof.
  induction 1 as [| x l l' _ IH | x y l | l l' l'' _ IH1 _ IH2]; cbn [fold_left].
  - reflexivity.
  - rewrite (sum_from l), (sum_from l'), IH. reflexivity.
  - rewrite (sum_from l (0 + y + x)), (sum_from l (0 + x + y)). lia.
  - congruence.
Qed.

Lemma sum_bounds (lo hi : Z) (values : list Z) :
  Forall (fun v => lo <= v <= hi) values ->
  lo * Z.of_nat (length values) <= fold_left Z.add values 0
    <= hi * Z.of_nat (length values).
Proof.
  induction 1 as [| v l Hv _ IH]; cbn [fold_left length]; [lia |].
  rewrite sum_from. lia.
Qed.

(** ** calcStats *)

Lemma sorted_read (values : list Z) (i : nat) :
  (i < length values)%nat ->
  exists v, nth_error (sort_numeric values) i = Some v /\ In v values.
Proof.
  intros H.
  destruct (nth_error (sort_numeric values) i) as [v |] eqn:E.
  - exists v. split; [reflexivity |].
    eapply Permutation_in; [apply sort_numeric_perm | eapply nth_error_In, E].
  - apply nth_error_None in E. rewrite sort_numeric_length in E. lia.
Qed.

(** For a non-empty list of values the order statistics are defined and in
    order: min <= p5 <= p25 <= median <= p75 <= p95 <= max; [min] and [max]
    are values of the list, and no value lies outside them. *)
Theorem calcStats_order_statistics (values : list Z) :
  values <> [] ->
  let stats := calcStats values in
  exists mn q5 q25 md q75 q95 mx,
    DistributionStats.min stats = Some mn /\
    DistributionStats.p5 stats = Some q5 /\
    DistributionStats.p25 stats = Some q25 /\
    DistributionStats.median stats = Some md /\
    DistributionStats.p75 stats = Some q75 /\
    DistributionStats.p95 stats = Some q95 /\
    DistributionStats.max stats = Some mx /\
    mn <= q5 /\ q5 <= q25 /\ q25 <= md /\ md <= q75 /\ q75 <= q95 /\ q95 <= mx /\
    In mn values /\ In mx values /\
    forall v, In v values -> mn <= v <= mx.
Proof.
  intros Hne stats.
  assert (Hn : (0 < length values)%nat).
  { destruct values; [congruence | cbn; lia]. }
  remember (Z.of_nat (length values)) as n eqn:En.
  assert (Hn' : 1 <= n) by lia.
  pose proof (sort_numeric_strongly_sorted values) as Hs.
  pose proof (sort_numeric_length values) as Hl.
  unfold stats, calcStats.
  cbn [DistributionStats.min DistributionStats.max DistributionStats.median
       DistributionStats.p5 DistributionStats.p25 DistributionStats.p75
       DistributionStats.p95].
  rewrite !at_fraction_spec. unfold Js.floor_div, index. rewrite Hl, <- En.
  destruct (Z.ltb_spec (n - 1) 0); [Z.to_euclidean_division_equations; lia |].
  destruct (sorted_read values 0) as (mn & E0 & I0); [Z.to_euclidean_division_equations; lia |].
  destruct (sorted_read values (Z.to_nat (n * 5 / 100))) as (q5 & E5 & _); [Z.to_euclidean_division_equations; lia |].
  destruct (sorted_read values (Z.to_nat (n * 25 / 100))) as (q25 & E25 & _); [Z.to_euclidean_division_equations; lia |].
  destruct (sorted_read values (Z.to_nat (n / 2))) as (md & Em & _); [Z.to_euclidean_division_equations; lia |].
  destruct (sorted_read values (Z.to_nat (n * 75 / 100))) as (q75 & E75 & _); [Z.to_euclidean_division_equations; lia |].
  destruct (sorted_read values (Z.to_nat (n * 95 / 100))) as (q95 & E95 & _); [Z.to_euclidean_division_equations; lia |].
  destruct (sorted_read values (Z.to_nat (n - 1))) as (mx & Ex & Ix); [Z.to_euclidean_division_equations; lia |].
  exists mn, q5, q25, md, q75, q95, mx.
  rewrite E0, E5, E25, Em, E75, E95, Ex.
  repeat (split; [reflexivity |]).
  pose proof (strongly_sorted_nth _ Hs) as M.
  split; [eapply M; [| exact E0 | exact E5]; Z.to_euclidean_division_equations; lia |].
  split; [eapply M; [| exact E5 | exact E25]; Z.to_euclidean_division_equations; lia |].
  split; [eapply M; [| exact E25 | exact Em]; Z.to_euclidean_division_equations; lia |].
  split; [eapply M; [| exact Em | exact E75]; Z.to_euclidean_division_equations; lia |].
  split; [eapply M; [| exact E75 | exact E95]; Z.to_euclidean_division_equations; lia |].
  split; [eapply M; [| exact E95 | exact Ex]; Z.to_euclidean_division_equations; lia |].
  split; [exact I0 |]. split; [exact Ix |].
  intros v Hv.
  assert (Hv' : In v (sort_numeric values)).
  { eapply Permutation_in; [apply Permutation_sym, sort_numeric_perm | exact Hv]. }
  apply In_nth_error in Hv'. destruct Hv' as [i Hi].
  assert (Hi' : (i < length (sort_numeric values))%nat).
  { apply nth_error_Some. congruence. }
  rewrite Hl in Hi'.
  split; [eapply M; [| exact E0 | exact Hi]; lia | eapply M; [| exact Hi | exact Ex]; lia].
Qed.

Lemma calcStats_order_statistics_witness :
  [7; 5; 12; 9] <> [] /\
  exists mn q5 q25 md q75 q95 mx,
    DistributionStats.min (calcStats [7; 5; 12; 9]) = Some mn /\
    DistributionStats.p5 (calcStats [7; 5; 12; 9]) = Some q5 /\
    DistributionStats.p25 (calcStats [7; 5; 12; 9]) = Some q25 /\
    DistributionStats.median (calcStats [7; 5; 12; 9]) = Some md /\
    DistributionStats.p75 (calcStats [7; 5; 12; 9]) = Some q75 /\
    DistributionStats.p95 (calcStats [7; 5; 12; 9]) = Some q95 /\
    DistributionStats.max (calcStats [7; 5; 12; 9]) = Some mx /\
    mn <= q5 /\ q5 <= q25 /\ q25 <= md /\ md <= q75 /\ q75 <= q95 /\ q95 <= mx /\
    In mn [7; 5; 12; 9] /\ In mx [7; 5; 12; 9] /\
    forall v, In v [7; 5; 12; 9] -> mn <= v <= mx.
Proof.
  split; [discriminate |].
  apply (calcStats_order_statistics [7; 5; 12; 9]). discriminate.
Defined.

Lemma calcStats_min_max (values : list Z) :
  values <> [] ->
  exists mn mx,
    DistributionStats.min (calcStats values) = Some mn /\
    DistributionStats.max (calcStats values) = Some mx /\
    In mn values /\ In mx values /\
    forall v, In v values -> mn <= v <= mx.
Proof.
  intros Hne.
  assert (Hn : (0 < length values)%nat).
  { destruct values; [congruence | cbn; lia]. }
  pose proof (sort_numeric_strongly_sorted values) as Hs.
  pose proof (sort_numeric_length values) as Hl.
  unfold calcStats. cbn [DistributionStats.min DistributionStats.max].
  unfold index. rewrite Hl.
  destruct (Z.ltb_spec (Z.of_nat (length values) - 1) 0); [lia |].
  destruct (sorted_read values 0) as (mn & E0 & I0); [lia |].
  destruct (sorted_read values (Z.to_nat (Z.of_nat (length values) - 1)))
    as (mx & Ex & Ix); [lia |].
  exists mn, mx. rewrite E0, Ex.
  split; [reflexivity |]. split; [reflexivity |]. split; [exact I0 |]. split; [exact Ix |].
  intros v Hv.
  assert (Hv' : In v (sort_numeric values)).
  { eapply Permutation_in; [apply Permutation_sym, sort_numeric_perm | exact Hv]. }
  apply In_nth_error in Hv'. destruct Hv' as [i Hi].
  assert (Hi' : (i < length (sort_numeric values))%nat).
  { apply nth_error_Some. congruence. }
  rewrite Hl in Hi'.
  pose proof (strongly_sorted_nth _ Hs) as M.
  split; [eapply M; [| exact E0 | exact Hi]; lia | eapply M; [| exact Hi | exact Ex]; lia].
Qed.

Lemma squares_nonneg (m : Q) (values : list Z) :
  forall acc, (0 <= acc)%Q ->
    (0 <= fold_left (fun acc v => acc + (inject_Z v - m) ^ 2) values acc)%Q.
Proof.
  induction values as [| v l IH]; intros acc Hacc; cbn [fold_left]; [exact Hacc |].
  apply IH. rewrite <- (Qplus_0_l 0). apply Qplus_le_compat; [exact Hacc |].
  apply Qsqr_nonneg.
Qed.

(** For a non-empty list of values the mean is the sum of the values divided
    by their number and lies between [min] and [max]; the variance is not
    negative. *)
Theorem calcStats_mean_and_variance (values : list Z) :
  values <> [] ->
  let stats := calcStats values in
  exists mn mx m var,
    DistributionStats.min stats = Some mn /\
    DistributionStats.max stats = Some mx /\
    DistributionStats.mean stats = Some m /\
    DistributionStats.variance stats = Some var /\
    (m == inject_Z (fold_left Z.add values 0%Z) / inject_Z (Z.of_nat (length values)))%Q /\
    (inject_Z mn <= m)%Q /\ (m <= inject_Z mx)%Q /\ (0 <= var)%Q.
Proof.
  intros Hne stats.
  destruct (calcStats_min_max values Hne) as (mn & mx & Emin & Emax & _ & _ & Hb).
  exists mn, mx. fold stats in Emin, Emax.
  assert (Hn : 0 < Z.of_nat (length values)).
  { destruct values; [congruence | cbn [length]; lia]. }
  assert (Hn' : (0 < inject_Z (Z.of_nat (length values)))%Q).
  { change 0%Q with (inject_Z 0). rewrite <- Zlt_Qlt. exact Hn. }
  assert (Hmean : DistributionStats.mean stats
                  = Some (Qred (inject_Z (fold_left Z.add values 0)
                                / inject_Z (Z.of_nat (length values))))).
  { unfold stats, calcStats. cbn [DistributionStats.mean]. unfold Js.div.
    destruct (Z.eqb_spec (Z.of_nat (length values)) 0); [lia | reflexivity]. }
  eexists. eexists.
  split; [exact Emin |]. split; [exact Emax |]. split; [exact Hmean |].
  split.
  { unfold stats, calcStats. cbn [DistributionStats.variance]. unfold Js.div.
    destruct (Z.eqb_spec (Z.of_nat (length values)) 0); [lia | reflexivity]. }
  pose proof (Qred_correct (inject_Z (fold_left Z.add values 0)
                            / inject_Z (Z.of_nat (length values)))) as Hred.
  assert (Hall : Forall (fun v => mn <= v <= mx) values) by (apply Forall_forall, Hb).
  pose proof (sum_bounds mn mx values Hall) as [Hlo Hhi].
  split; [exact Hred |]. split; [| split].
  - rewrite Hred. apply Qle_shift_div_l; [exact Hn' |].
    rewrite <- inject_Z_mult, <- Zle_Qle. exact Hlo.
  - rewrite Hred. apply Qle_shift_div_r; [exact Hn' |].
    rewrite <- inject_Z_mult, <- Zle_Qle. exact Hhi.
  - match goal with |- (0 <= Qred ?q)%Q => pose proof (Qred_correct q) as Hv end.
    rewrite Hv. apply Qle_shift_div_l; [exact Hn' |]. rewrite Qmult_0_l.
    apply squares_nonneg. apply Qle_refl.
Qed.

Lemma calcStats_mean_and_variance_witness :
  [7; 5; 12; 9] <> [] /\
  exists mn mx m var,
    DistributionStats.min (calcStats [7; 5; 12; 9]) = Some mn /\
    DistributionStats.max (calcStats [7; 5; 12; 9]) = Some mx /\
    DistributionStats.mean (calcStats [7; 5; 12; 9]) = Some m /\
    DistributionStats.variance (calcStats [7; 5; 12; 9]) = Some var /\
    (m == inject_Z (fold_left Z.add [7; 5; 12; 9]%Z 0%Z)
          / inject_Z (Z.of_nat (length [7; 5; 12; 9]%Z)))%Q /\
    (inject_Z mn <= m)%Q /\ (m <= inject_Z mx)%Q /\ (0 <= var)%Q.
Proof.
  split; [discriminate |].
  apply (calcStats_mean_and_variance [7; 5; 12; 9]). discriminate.
Defined.

(** The order statistics and the mean do not depend on the order of the
    values: two lists that are permutations of each other have the same min,
    max, median, percentiles and mean. *)
Theorem calcStats_order_independent (values values' : list Z) :
  Permutation values values' ->
  let stats := calcStats values in
  let stats' := calcStats values' in
  DistributionStats.min stats = DistributionStats.min stats' /\
  DistributionStats.max stats = DistributionStats.max stats' /\
  DistributionStats.median stats = DistributionStats.median stats' /\
  DistributionStats.p5 stats = DistributionStats.p5 stats' /\
  DistributionStats.p25 stats = DistributionStats.p25 stats' /\
  DistributionStats.p75 stats = DistributionStats.p75 stats' /\
  DistributionStats.p95 stats = DistributionStats.p95 stats' /\
  DistributionStats.mean stats = DistributionStats.mean stats'.
Proof.
  intros Hp stats stats'. unfold stats, stats', calcStats.
  cbn [DistributionStats.min DistributionStats.max DistributionStats.median
       DistributionStats.p5 DistributionStats.p25 DistributionStats.p75
       DistributionStats.p95 DistributionStats.mean].
  rewrite (sort_numeric_perm_invariant _ _ Hp).
  rewrite (sum_perm_invariant _ _ Hp).
  rewrite (Permutation_length Hp).
  repeat split.
Qed.

Lemma calcStats_order_independent_witness :
  Permutation [7; 5; 12; 9] [9; 12; 5; 7] /\
  DistributionStats.median (calcStats [7; 5; 12; 9])
    = DistributionStats.median (calcStats [9; 12; 5; 7]) /\
  DistributionStats.mean (calcStats [7; 5; 12; 9])
    = DistributionStats.mean (calcStats [9; 12; 5; 7]).
Proof.
  assert (P : Permutation [7; 5; 12; 9] [9; 12; 5; 7]).
  { apply (Permutation_rev [7; 5; 12; 9]). }
  split; [exact P |].
  destruct (calcStats_order_independent _ _ P) as (_ & _ & Hm & _ & _ & _ & _ & Hmean).
  split; [exact Hm | exact Hmean].
Defined.

(** ** run_simulation *)

(** The statistics of an empty list: every field is undefined or NaN. *)
Lemma calcStats_empty :
  calcStats [] = DistributionStats.mk None None None None None None None None None [].
Proof. reflexivity. Qed.

(** With a run count of zero or less, [run_simulation] performs no run: it
    returns at once, leaves the shared state as it was, reports the
    configured count as [runs], and has NaN as success rate and no value in
    any statistic. *)
Theorem run_simulation_without_runs
    (env : SimEnv.t) (config : SimulationConfig.t) (w : World) :
  SimulationConfig.runCount config <= 0 ->
  exists results,
    run_simulation env config w = (Returned results, w) /\
    SimulationResults.runs results = SimulationConfig.runCount config /\
    SimulationResults.successRate results = None /\
    let none := DistributionStats.mk None None None None None None None None None [] in
    SimulationResults.statistics results = SimulationStatistics.mk none none none none.
Proof.
  intros H. unfold run_simulation, for_loop, bind.
  replace (Z.to_nat (SimulationConfig.runCount config)) with 0%nat by lia.
  cbn [for_from ret]. eexists. split; [reflexivity |].
  repeat split.
Qed.

Lemma run_simulation_without_runs_witness :
  exists results,
    run_simulation cancel_after_ten
                   (SimulationConfig.mk "gen-a" (-3) None None) idle_world
      = (Returned results, idle_world) /\
    SimulationResults.runs results = -3 /\
    SimulationResults.successRate results = None.
Proof.
  destruct (run_simulation_without_runs cancel_after_ten
              (SimulationConfig.mk "gen-a" (-3) None None) idle_world)
    as (results & E & Hruns & Hrate & _).
  - cbn. lia.
  - exists results. auto.
Defined.

Lemma generate_once_layout (env : Env.t) (request : GenerationRequest.t)
    (r : GenerationResult.t) :
  generate_once env request = Returned r ->
  GenerationResult.success r = true /\
  exists layout, GenerationResult.data r = Some layout /\ layout_shape layout.
Proof.
  unfold generate_once.
  destruct (generateDungeon_spec (GenerationRequest.seed request)) as (layout & E & Hs).
  rewrite E. intros H. injection H as <-.
  split; [reflexivity |]. exists layout. split; [reflexivity | exact Hs].
Qed.

Lemma runs_all_generated (env : SimEnv.t) (config : SimulationConfig.t)
    (indices : list Z) (runs : list GenerationResult.t) :
  Forall2 (fun k r => generate_once (SimEnv.run env k) (request_for config k)
                      = Returned r) indices runs ->
  Forall (fun r => GenerationResult.success r = true /\
                   exists layout, GenerationResult.data r = Some layout /\
                                  layout_shape layout) runs.
Proof.
  induction 1 as [| k r ks rs Hr _ IH]; constructor; [| exact IH].
  eapply generate_once_layout, Hr.
Qed.

Lemma filter_all {T} (f : T -> bool) (l : list T) :
  Forall (fun x => f x = true) l -> filter f l = l.
Proof.
  induction 1 as [| x l Hx _ IH]; cbn; [reflexivity |]. rewrite Hx, IH. reflexivity.
Qed.

Lemma div_self (n : Z) : 0 < n -> Js.div n n = Some 1%Q.
Proof.
  intros H. unfold Js.div. destruct (Z.eqb_spec n 0); [lia |]. f_equal.
  change 1%Q with (Qred 1). apply Qred_complete.
  apply Qmult_inv_r. intros E.
  assert (Hn : (0 < inject_Z n)%Q).
  { change 0%Q with (inject_Z 0). rewrite <- Zlt_Qlt. lia. }
  rewrite E in Hn. discriminate.
Qed.

Lemma div_zero (n : Z) : 0 < n -> Js.div 0 n = Some 0%Q.
Proof.
  intros H. unfold Js.div. destruct (Z.eqb_spec n 0); [lia |]. f_equal.
Qed.

Lemma sum_zeros {T} (l : list T) :
  fold_left Z.add (map (fun _ => 0) l) 0 = 0.
Proof.
  induction l as [| x l IH]; cbn [map fold_left]; [reflexivity | exact IH].
Qed.

Lemma connection_count (layout : DungeonLayout.t) :
  layout_shape layout ->
  4 <= Z.of_nat (length (DungeonLayout.connections layout)) <= 15.
Proof.
  intros (Hlen & _ & _ & (chain & branches & -> & Hc & _ & Hb & _) & _).
  rewrite length_app, Nat2Z.inj_add.
  Z.to_euclidean_division_equations. lia.
Qed.

Lemma calcStats_range (lo hi : Z) (values : list Z) :
  values <> [] ->
  Forall (fun v => lo <= v <= hi) values ->
  exists mn mx,
    DistributionStats.min (calcStats values) = Some mn /\
    DistributionStats.max (calcStats values) = Some mx /\
    lo <= mn /\ mn <= mx /\ mx <= hi.
Proof.
  intros Hne Hall.
  destruct (calcStats_min_max values Hne) as (mn & mx & Emin & Emax & Imn & Imx & Hb).
  exists mn, mx. rewrite Forall_forall in Hall.
  pose proof (Hall _ Imn). pose proof (Hall _ Imx). pose proof (Hb _ Imn).
  repeat split; auto; lia.
Qed.

Lemma count_enemies_bounds (room : GeneratedRoom.t) :
  0 <= count_enemies room <= Z.of_nat (length (GeneratedRoom.entities room)).
Proof.
  unfold count_enemies. split; [lia |]. apply inj_le, filter_length_le.
Qed.

Lemma enemy_sum_bounds (rooms : list GeneratedRoom.t) :
  forall acc,
  Forall (fun room => Z.of_nat (length (GeneratedRoom.entities room)) <= 4) rooms ->
  acc <= fold_left (fun sum room => sum + count_enemies room) rooms acc
      <= acc + 4 * Z.of_nat (length rooms).
Proof.
  induction rooms as [| room rooms IH]; intros acc Hall; cbn [fold_left length].
  - lia.
  - inversion Hall as [| ? ? Hroom Hrest]; subst.
    pose proof (count_enemies_bounds room).
    pose proof (IH (acc + count_enemies room) Hrest). lia.
Qed.

Lemma enemy_total (layout : DungeonLayout.t) :
  layout_shape layout ->
  0 <= fold_left (fun sum room => sum + count_enemies room)
                 (DungeonLayout.rooms layout) 0 <= 44.
Proof.
  intros (Hlen & Hrooms & _).
  destruct (DungeonLayout.rooms layout) as [| first rest] eqn:E; [cbn in Hlen; lia |].
  cbn [fold_left].
  assert (H0 : count_enemies first = 0).
  { destruct (Hrooms 0 first eq_refl) as (_ & _ & _ & _ & _ & _ & _ & _ & Hnone & _).
    unfold count_enemies. rewrite (Hnone eq_refl). reflexivity. }
  rewrite H0.
  assert (Hrest : Forall (fun room => Z.of_nat (length (GeneratedRoom.entities room)) <= 4)
                         rest).
  { apply Forall_forall. intros room Hin.
    destruct (In_index (first :: rest) room (or_intror Hin)) as [n Hn].
    destruct (Hrooms _ _ Hn) as (_ & _ & _ & _ & _ & _ & _ & _ & _ & Hle & _).
    exact Hle. }
  pose proof (enemy_sum_bounds rest (0 + 0) Hrest). cbn [length] in Hlen. lia.
Qed.

Lemma squares_of_zeros {T} (l : list T) :
  forall acc : Q,
    (fold_left (fun acc v => acc + (inject_Z v - 0) ^ 2) (map (fun _ => 0%Z) l) acc
     == acc)%Q.
Proof.
  induction l as [| x l IH]; intros acc; cbn [map fold_left]; [reflexivity |].
  rewrite IH. change ((inject_Z 0 - 0) ^ 2)%Q with 0%Q. apply Qplus_0_r.
Qed.

Lemma calcStats_zeros {T} (l : list T) :
  l <> [] ->
  calcStats (map (fun _ => 0) l) =
  DistributionStats.mk (Some 0) (Some 0) (Some 0%Q) (Some 0) (Some 0%Q)
                       (Some 0) (Some 0) (Some 0) (Some 0) [].
Proof.
  intros Hne. set (zeros := map (fun _ => 0) l).
  assert (Hn : 0 < Z.of_nat (length zeros)).
  { unfold zeros. rewrite length_map. destruct l; [congruence | cbn [length]; lia]. }
  assert (Hread : forall i, (i < length zeros)%nat ->
                    nth_error (sort_numeric zeros) i = Some 0).
  { intros i Hi. destruct (sorted_read zeros i Hi) as (v & E & Hv).
    unfold zeros in Hv. apply in_map_iff in Hv. destruct Hv as (? & <- & _). exact E. }
  assert (Hat : forall a, 0 <= a < 100 ->
                  at_fraction (sort_numeric zeros) (a # 100) = Some 0).
  { intros a Ha. rewrite at_fraction_spec, sort_numeric_length. apply Hread.
    pose proof (fraction_index_in_range _ a 100 Hn Ha). lia. }
  unfold calcStats. rewrite !Hat by lia. rewrite sort_numeric_length.
  rewrite (Hread 0%nat) by lia.
  replace (index (sort_numeric zeros) (Z.of_nat (length zeros) - 1)) with (Some 0).
  2:{ unfold index. destruct (Z.ltb_spec (Z.of_nat (length zeros) - 1) 0); [lia |].
      symmetry. apply Hread. lia. }
  rewrite Hread.
  2:{ unfold Js.floor_div. pose proof (Z.div_lt (Z.of_nat (length zeros)) 2 Hn).
      pose proof (Z.div_pos (Z.of_nat (length zeros)) 2). lia. }
  replace (fold_left Z.add zeros 0) with 0 by (symmetry; apply sum_zeros).
  rewrite (div_zero _ Hn).
  f_equal. f_equal.
  apply (Qred_complete _ 0). unfold zeros. rewrite squares_of_zeros.
  unfold Qdiv. apply Qmult_0_l.
Qed.

(** With a run count of at least one, [run_simulation] returns results whose
    success rate is exactly 1; the minimum and maximum of the room counts
    lie between 5 and 12, of the path lengths between 4 and 15 and of the
    enemy counts between 0 and 44; and every item statistic is zero:
    minimum, maximum, mean, median, variance and the four percentiles, with
    an empty histogram. *)
Theorem run_simulation_statistics
    (env : SimEnv.t) (config : SimulationConfig.t) (w : World) :
  1 <= SimulationConfig.runCount config ->
  exists results w',
    run_simulation env config w = (Returned results, w') /\
    SimulationResults.successRate results = Some 1%Q /\
    let stats := SimulationResults.statistics results in
    (exists mn mx,
        DistributionStats.min (SimulationStatistics.roomCount stats) = Some mn /\
        DistributionStats.max (SimulationStatistics.roomCount stats) = Some mx /\
        5 <= mn /\ mn <= mx /\ mx <= 12) /\
    (exists mn mx,
        DistributionStats.min (SimulationStatistics.pathLength stats) = Some mn /\
        DistributionStats.max (SimulationStatistics.pathLength stats) = Some mx /\
        4 <= mn /\ mn <= mx /\ mx <= 15) /\
    (exists mn mx,
        DistributionStats.min (SimulationStatistics.enemyCount stats) = Some mn /\
        DistributionStats.max (SimulationStatistics.enemyCount stats) = Some mx /\
        0 <= mn /\ mn <= mx /\ mx <= 44) /\
    SimulationStatistics.itemCount stats =
      DistributionStats.mk (Some 0) (Some 0) (Some 0%Q) (Some 0) (Some 0%Q)
                           (Some 0) (Some 0) (Some 0) (Some 0) [].
Proof.
  intros Hcount.
  destruct (run_simulation_returns env config w) as (runs & w' & E & Hruns & _).
  exists (aggregate env config runs), w'. split; [exact E |].
  assert (Hlen : length runs = Z.to_nat (SimulationConfig.runCount config)).
  { apply Forall2_length in Hruns. rewrite <- Hruns. unfold run_indices.
    rewrite length_map, length_seq. reflexivity. }
  assert (Hne : runs <> []).
  { intros ->. cbn in Hlen. lia. }
  pose proof (runs_all_generated env config _ _ Hruns) as Hall.
  assert (Hmap : forall (T : Type) (f : GenerationResult.t -> T), map f runs <> []).
  { intros T f Hm. apply Hne. destruct runs; [reflexivity | discriminate]. }
  unfold aggregate.
  cbn [SimulationResults.successRate SimulationResults.statistics
       SimulationStatistics.roomCount SimulationStatistics.pathLength
       SimulationStatistics.enemyCount SimulationStatistics.itemCount].
  split; [| split; [| split; [| split]]].
  - rewrite filter_all.
    + apply div_self. destruct runs; [congruence | cbn [length]; lia].
    + eapply Forall_impl; [| exact Hall]. cbn beta. intros r [Hs _]. exact Hs.
  - apply calcStats_range; [apply Hmap |].
    apply Forall_map. eapply Forall_impl; [| exact Hall]. cbn beta.
    intros r (_ & layout & -> & Hs). cbn. destruct Hs as (Hl & _). exact Hl.
  - apply calcStats_range; [apply Hmap |].
    apply Forall_map. eapply Forall_impl; [| exact Hall]. cbn beta.
    intros r (_ & layout & -> & Hs). cbn [option_map coalesce].
    apply connection_count, Hs.
  - apply calcStats_range; [apply Hmap |].
    apply Forall_map. eapply Forall_impl; [| exact Hall]. cbn beta.
    intros r (_ & layout & -> & Hs). cbn [option_map coalesce].
    apply enemy_total, Hs.
  - apply calcStats_zeros, Hmap.
Qed.

Lemma run_simulation_statistics_witness :
  exists results w',
    run_simulation cancel_after_ten hundred_runs idle_world
      = (Returned results, w') /\
    SimulationResults.successRate results = Some 1%Q.
Proof.
  destruct (run_simulation_statistics cancel_after_ten hundred_runs idle_world)
    as (results & w' & E & Hrate & _).
  - cbn. lia.
  - exists results, w'. split; [exact E | exact Hrate].
Defined.

(** ** The generation store *)

Lemma generate_runs (env : Env.t) (generatorId : string) (seed : option Z)
    (generator : option Generator.t) (s : Session) :
  let actualSeed := coalesce seed (GenerationState.currentSeed (state s)) in
  let request := GenerationRequest.mk generatorId actualSeed (Some []) generator in
  exists result layout,
    generate_once env request = Returned result /\
    generateDungeon actualSeed = Returned layout /\
    GenerationResult.data result = Some layout /\
    GenerationResult.seed result = actualSeed /\
    GenerationResult.success result = true /\
    generate env generatorId seed generator s =
      (Returned tt,
       mkSession (GenerationState.mk actualSeed (Some result) false
                    (with_error None (GenerationState.shared (state s))))
                 (calls s ++ [Invoke_generate_once request])).
Proof.
  intros actualSeed request.
  destruct (generateDungeon_spec actualSeed) as (layout & E & _).
  assert (Hr : exists result, generate_once env request = Returned result /\
                 GenerationResult.data result = Some layout /\
                 GenerationResult.seed result = actualSeed /\
                 GenerationResult.success result = true).
  { unfold generate_once. cbn [GenerationRequest.seed request]. rewrite E.
    eexists. split; [reflexivity |]. repeat split. }
  destruct Hr as (result & Er & Hd & Hs & Hok).
  exists result, layout. repeat (split; [assumption |]).
  unfold generate, bind, get_state, set_state, catching, await_invoke.
  fold actualSeed. fold request. cbn [state calls]. rewrite Er. reflexivity.
Qed.

(** [generate] never takes its error branch: it returns with
    [isGenerating = false] and [error = null], [currentSeed] is the seed
    that was used (the argument, or the current seed when none is given),
    [lastResult] is a successful result for that seed carrying the layout of
    [generateDungeon], one [generate_once] was invoked, and the simulation
    fields are as before. *)
Theorem generate_stores_result (env : Env.t) (generatorId : string)
    (seed : option Z) (generator : option Generator.t) (s : Session) :
  let actualSeed := coalesce seed (GenerationState.currentSeed (state s)) in
  let before := GenerationState.shared (state s) in
  exists result layout s',
    generate env generatorId seed generator s = (Returned tt, s') /\
    GenerationState.isGenerating (state s') = false /\
    Store.error (GenerationState.shared (state s')) = None /\
    GenerationState.currentSeed (state s') = actualSeed /\
    GenerationState.lastResult (state s') = Some result /\
    GenerationResult.seed result = actualSeed /\
    GenerationResult.success result = true /\
    GenerationResult.data result = Some layout /\
    generateDungeon actualSeed = Returned layout /\
    calls s' = calls s ++ [Invoke_generate_once
                             (GenerationRequest.mk generatorId actualSeed (Some [])
                                                   generator)] /\
    Store.simulationConfig (GenerationState.shared (state s'))
      = Store.simulationConfig before /\
    Store.simulationResults (GenerationState.shared (state s'))
      = Store.simulationResults before /\
    Store.simulationProgress (GenerationState.shared (state s'))
      = Store.simulationProgress before /\
    Store.isSimulating (GenerationState.shared (state s'))
      = Store.isSimulating before.
Proof.
  intros actualSeed before.
  destruct (generate_runs env generatorId seed generator s)
    as (result & layout & _ & Hl & Hd & Hs & Hok & E).
  exists result, layout. eexists. split; [exact E |].
  cbn. repeat split; assumption.
Qed.

(** Generating with a seed, clearing the results and generating again
    without a seed shows the same layout again, whatever generator is chosen
    the second time and whatever the clock reads. *)
Theorem regenerate_after_clear (env env' : Env.t) (generatorId generatorId' : string)
    (seed : Z) (generator generator' : option Generator.t) (s : Session) :
  let s1 := snd (generate env generatorId (Some seed) generator s) in
  let s2 := snd (clearResults s1) in
  let s3 := snd (generate env' generatorId' None generator' s2) in
  exists layout,
    shown_layout s1 = Some layout /\
    shown_layout s2 = None /\
    shown_layout s3 = Some layout.
Proof.
  intros s1 s2 s3.
  destruct (generate_runs env generatorId (Some seed) generator s)
    as (result & layout & _ & Hl & Hd & _ & _ & E).
  cbn [coalesce] in Hl, E.
  assert (E1 : s1 = snd (generate env generatorId (Some seed) generator s)) by reflexivity.
  rewrite E in E1. cbn [snd] in E1.
  exists layout. split; [| split].
  - rewrite E1. unfold shown_layout. cbn. exact Hd.
  - unfold s2. rewrite E1. reflexivity.
  - destruct (generate_runs env' generatorId' None generator' s2)
      as (result' & layout' & _ & Hl' & Hd' & _ & _ & E').
    assert (Hseed : GenerationState.currentSeed (state s2) = seed).
    { unfold s2. rewrite E1. reflexivity. }
    cbn [coalesce] in Hl', E'. rewrite Hseed in Hl', E'.
    unfold s3. rewrite E'. unfold shown_layout. cbn.
    rewrite Hd'. congruence.
Qed.

Lemma run_body_store (env : SimEnv.t) (config : SimulationConfig.t) (i : Z)
    (results : list GenerationResult.t) (w : World) :
  let s := store w in
  let s' := store (snd (run_body env config i results w)) in
  Store.simulationConfig s' = Store.simulationConfig s /\
  Store.simulationResults s' = Store.simulationResults s /\
  Store.simulationProgress s' = Store.simulationProgress s /\
  Store.error s' = Store.error s /\
  (Store.isSimulating s' = Store.isSimulating s \/ Store.isSimulating s' = false).
Proof.
  unfold run_body, await_generate_once, bind, invoke.
  destruct (generate_once _ _) as [r | e]; cbn [snd store]; [| auto 6].
  destruct (SimEnv.cancel_pressed env i); cbn; auto 6.
Qed.

Lemma run_loop_store (env : SimEnv.t) (config : SimulationConfig.t) (n : nat) :
  forall (i : Z) (results : list GenerationResult.t) (w : World),
  let s := store w in
  let s' := store (snd (for_from n i (run_body env config) results w)) in
  Store.simulationConfig s' = Store.simulationConfig s /\
  Store.simulationResults s' = Store.simulationResults s /\
  Store.simulationProgress s' = Store.simulationProgress s /\
  Store.error s' = Store.error s /\
  (Store.isSimulating s' = Store.isSimulating s \/ Store.isSimulating s' = false).
Proof.
  induction n as [| n IH]; intros i results w; cbn [for_from].
  - cbn. auto 6.
  - unfold bind.
    pose proof (run_body_store env config i results w) as Hb. cbv zeta in Hb.
    destruct (run_body env config i results w) as [[rs | e] w1]; cbn [snd] in Hb |- *.
    + specialize (IH (i + 1) rs w1). cbv zeta in IH.
      destruct IH as (-> & -> & -> & -> & Hs). destruct Hb as (-> & -> & -> & -> & Hs').
      repeat split. destruct Hs as [-> | ->]; auto.
    + exact Hb.
Qed.

(** The store's [runSimulation] always ends in its success branch, also when
    Cancel was pressed while it ran: it returns with the configuration
    recorded, results present, [simulationProgress = 100],
    [isSimulating = false] and [error = null]. *)
Theorem runSimulation_final_store
    (env : SimEnv.t) (config : SimulationConfig.t) (w : World) :
  exists results w',
    runSimulation env config w = (Returned tt, w') /\
    store w' = Store.mk (Some config) (Some results) 100 false None /\
    SimulationResults.config results = config.
Proof.
  unfold runSimulation, bind at 1. unfold set at 1.
  set (w0 := mkWorld _ (invoked w)).
  unfold try_catch, bind, invoke.
  set (w1 := mkWorld (store w0) _).
  destruct (run_simulation_returns env config w1) as (runs & w' & E & _).
  pose proof (run_loop_store env config (Z.to_nat (SimulationConfig.runCount config))
                0 [] w1) as Hs.
  cbv zeta in Hs.
  assert (Ew : snd (for_from (Z.to_nat (SimulationConfig.runCount config)) 0
                      (run_body env config) [] w1) = w').
  { unfold run_simulation, for_loop, bind in E.
    destruct (for_from _ 0 (run_body env config) [] w1) as [[rs | e] w2];
      cbn [snd]; [| discriminate].
    cbv beta iota delta [ret] in E. congruence. }
  rewrite Ew in Hs. rewrite E. unfold set.
  exists (aggregate env config runs). eexists. split; [reflexivity |].
  cbn [store]. destruct Hs as (-> & _ & _ & -> & _). split; reflexivity.
Qed.

(** ** Branch weights, continued *)

Section WeightEdits.

Local Open Scope Q_scope.

Import BranchWeightsEditor.

Lemma total_positive (l : list Q) :
  l <> [] -> Forall (fun w => 0 < w) l -> 0 < total l.
Proof.
  intros Hne Hall. destruct l as [| w l]; [congruence |].
  inversion Hall as [| ? ? Hw Hl]; subst.
  rewrite total_cons.
  assert (0 <= total l).
  { apply total_nonneg. eapply Forall_impl; [| exact Hl].
    intros a Ha. apply Qlt_le_weak, Ha. }
  lra.
Qed.

Lemma divided_positive (sum : Q) (l : list Q) :
  0 < sum -> Forall (fun w => 0 < w) l -> Forall (fun w => 0 < w) (map (fun w => w / sum) l).
Proof.
  intros Hs Hall. apply Forall_map. eapply Forall_impl; [| exact Hall].
  intros w Hw. cbn beta. apply Qlt_shift_div_l; [exact Hs |].
  rewrite Qmult_0_l. exact Hw.
Qed.

Lemma replaced_length (v : Q) (l : list Q) :
  forall index, length (replaced l index v) = length l.
Proof.
  induction l as [| w l IH]; intros [| index]; cbn; auto.
Qed.

Lemma replaced_positive (v : Q) (l : list Q) :
  0 < v -> Forall (fun w => 0 < w) l ->
  forall index, Forall (fun w => 0 < w) (replaced l index v).
Proof.
  intros Hv Hall. induction Hall as [| w l Hw Hl IH]; intros [| index]; cbn;
    constructor; auto.
Qed.



Lemma filter_out_length (weights : list Q) (index : nat) :
  (index < length weights)%nat ->
  length (filter_out 0 index weights) = (length weights - 1)%nat.
Proof.
  intros H. rewrite filter_out_spec by lia. rewrite Nat.sub_0_r.
  rewrite length_app, length_firstn, length_skipn. lia.
Qed.

Lemma filter_out_positive (weights : list Q) (index : nat) :
  Forall (fun w => 0 < w) weights ->
  forall i, Forall (fun w => 0 < w) (filter_out i index weights).
Proof.
  induction 1 as [| w l Hw Hl IH]; intros i; cbn [filter_out]; [constructor |].
  destruct (Nat.eqb i index); [apply IH | constructor; [exact Hw | apply IH]].
Qed.

Lemma new_weight_bounds (n : nat) :
  (1 <= n)%nat ->
  0 < 1 / inject_Z (Z.of_nat n + 1) /\ 1 / inject_Z (Z.of_nat n + 1) < 1.
Proof.
  intros Hn.
  assert (H : 1 < inject_Z (Z.of_nat n + 1)).
  { change 1 with (inject_Z 1). rewrite <- Zlt_Qlt. lia. }
  split.
  - apply Qlt_shift_div_l; lra.
  - apply Qlt_shift_div_r; lra.
Qed.

(** Each edit that the editor offers on proper weights hands proper weights
    to [onChange]: all positive, at least two, summing to 1.  [addPath] adds
    one path, [updateWeight] keeps their number and [removePath] takes one
    away.  So every vector reached from [[0.5, 0.5]] through the editor is
    proper, and no element is ever NaN. *)
Theorem edits_keep_weights_proper (weights : list Q) (index : nat) (value : Z) :
  proper_weights weights ->
  (length (addPath weights) = S (length weights) /\ proper_weights (addPath weights)) /\
  ((index < length weights)%nat -> (1 <= value <= 100)%Z ->
   exists out, updateWeight weights index value = map Some out /\
               length out = length weights /\ proper_weights out) /\
  ((index < length weights)%nat -> (2 < length weights)%nat ->
   exists out, removePath weights index = Some (map Some out) /\
               S (length out) = length weights /\ proper_weights out).
Proof.
  intros (Hlen & Hpos & Hone). split; [| split].
  - destruct (addPath_normalized weights Hone) as [Hsum _].
    destruct (new_weight_bounds (length weights)) as [Hn0 Hn1]; [lia |].
    split; [unfold addPath; rewrite length_app, length_map; cbn; lia |].
    split; [| split; [| exact Hsum]].
    + unfold addPath. rewrite length_app, length_map. cbn. lia.
    + unfold addPath. apply Forall_app. split.
      * apply Forall_map. eapply Forall_impl; [| exact Hpos].
        intros w Hw. cbn beta. apply Qmult_lt_0_compat; [exact Hw |].
        revert Hn1. generalize (1 / inject_Z (Z.of_nat (length weights) + 1)).
        intros q Hq. lra.
      * constructor; [exact Hn0 | constructor].
  - intros Hi Hv.
    assert (Hv' : 0 < inject_Z value / 100).
    { apply Qlt_shift_div_l; [reflexivity |].
      assert (0 < inject_Z value); [| lra].
      change 0 with (inject_Z 0). rewrite <- Zlt_Qlt. lia. }
    assert (Hsum : 0 < total_present (assign (map Some weights) index
                                             (inject_Z value / 100))).
    { apply updateWeight_sum_positive; [| lia | exact Hi].
      eapply Forall_impl; [| exact Hpos]. intros a Ha. apply Qlt_le_weak, Ha. }
    destruct (updateWeight_normalized weights index value Hi) as (out & E & Hout & _).
    { intros E. rewrite E in Hsum. discriminate. }
    exists out. split; [exact E |].
    unfold updateWeight in E. rewrite assign_in_range in E by exact Hi.
    rewrite assign_in_range in Hsum by exact Hi.
    rewrite total_present_Some in E, Hsum.
    rewrite map_map in E.
    assert (Eout : out = map (fun w => w / total (replaced weights index (inject_Z value / 100)))
                             (replaced weights index (inject_Z value / 100))).
    { apply (f_equal (map (fun b => match b with Some q => q | None => 0 end))) in E.
      rewrite !map_map in E. rewrite map_id in E. rewrite <- E.
      apply map_ext. intros w. rewrite quotient_nonzero; [reflexivity |].
      intros E0. rewrite E0 in Hsum. discriminate. }
    assert (Hl : length out = length weights).
    { rewrite Eout, length_map, replaced_length. reflexivity. }
    split; [exact Hl |]. split; [lia |]. split; [| exact Hout].
    rewrite Eout. apply divided_positive; [exact Hsum |].
    apply replaced_positive; assumption.
  - intros Hi Hmore.
    assert (Hkept : Forall (fun w => 0 < w) (filter_out 0 index weights))
      by (apply filter_out_positive; exact Hpos).
    assert (Hkl : length (filter_out 0 index weights) = (length weights - 1)%nat)
      by (apply filter_out_length, Hi).
    assert (Hsum : 0 < total (filter_out 0 index weights)).
    { apply total_positive; [| exact Hkept].
      intros E. rewrite E in Hkl. cbn in Hkl. lia. }
    destruct (removePath_normalized weights index Hmore) as (out & E & Hout & Eout).
    { intros E. rewrite E in Hsum. discriminate. }
    exists out. split; [exact E |].
    assert (Hl : S (length out) = length weights).
    { rewrite Eout, length_map, Hkl. lia. }
    split; [exact Hl |]. split; [lia |]. split; [| exact Hout].
    rewrite Eout. apply divided_positive; assumption.
Qed.

Lemma edits_keep_weights_proper_witness :
  proper_weights [1 # 2; 1 # 4; 1 # 4] /\
  (length (addPath [1 # 2; 1 # 4; 1 # 4]) = 4%nat /\
   proper_weights (addPath [1 # 2; 1 # 4; 1 # 4])) /\
  (exists out, updateWeight [1 # 2; 1 # 4; 1 # 4] 1 80 = map Some out /\
               length out = 3%nat /\ proper_weights out) /\
  (exists out, removePath [1 # 2; 1 # 4; 1 # 4] 1 = Some (map Some out) /\
               S (length out) = 3%nat /\ proper_weights out).
Proof.
  assert (H : proper_weights [1 # 2; 1 # 4; 1 # 4]).
  { split; [cbn; lia |]. split; [| reflexivity].
    repeat constructor. }
  split; [exact H |].
  destruct (edits_keep_weights_proper [1 # 2; 1 # 4; 1 # 4] 1 80 H) as (Ha & Hu & Hr).
  split; [exact Ha |]. split.
  - apply Hu; [cbn; lia | lia].
  - apply Hr; cbn; lia.
Defined.


Lemma scaled_back (c sum : Q) (l : list Q) :
  c == sum -> ~ sum == 0 ->
  Forall2 Qeq (map (fun w => w / sum) (map (fun w => w * c) l)) l.
Proof.
  intros Hc Hsum. induction l as [| w l IH]; cbn [map]; constructor; [| exact IH].
  rewrite Hc. apply Qdiv_mult_l, Hsum.
Qed.

(** Adding a path and removing it again gives back the weights, when they
    sum to 1 and there are at least two. *)
Theorem addPath_then_removePath (weights : list Q) :
  (2 <= length weights)%nat -> total weights == 1 ->
  exists out,
    removePath (addPath weights) (length weights) = Some (map Some out) /\
    Forall2 Qeq out weights.
Proof.
  intros Hlen Hone.
  destruct (new_weight_bounds (length weights)) as [Hn0 Hn1]; [lia |].
  set (nw := 1 / inject_Z (Z.of_nat (length weights) + 1)) in *.
  assert (Hkept : filter_out 0 (length weights) (addPath weights)
                  = map (fun w => w * (1 - nw)) weights).
  { rewrite filter_out_spec by lia. rewrite Nat.sub_0_r. unfold addPath. fold nw.
    rewrite firstn_app, skipn_app, !length_map.
    rewrite Nat.sub_diag. replace (S (length weights) - length weights)%nat with 1%nat by lia.
    rewrite firstn_all2 by (rewrite length_map; lia).
    rewrite skipn_all2 by (rewrite length_map; lia).
    cbn. rewrite ?app_nil_r. reflexivity. }
  assert (Hsum : total (map (fun w => w * (1 - nw)) weights) == 1 - nw).
  { rewrite total_scaled, Hone. ring. }
  destruct (removePath_normalized (addPath weights) (length weights))
    as (out & E & _ & Eout).
  - unfold addPath. rewrite length_app, length_map. cbn. lia.
  - rewrite Hkept, Hsum. lra.
  - exists out. split; [exact E |]. rewrite Eout, Hkept.
    apply scaled_back; [symmetry; exact Hsum |]. rewrite Hsum. lra.
Qed.

Lemma addPath_then_removePath_witness :
  exists out,
    removePath (addPath [1 # 2; 1 # 2]) 2 = Some (map Some out) /\
    Forall2 Qeq out [1 # 2; 1 # 2].
Proof.
  apply (addPath_then_removePath [1 # 2; 1 # 2]); [cbn; lia | reflexivity].
Defined.



End WeightEdits.

(** ** The preview canvas *)

Lemma widen_fold (others : list GeneratedRoom.t) :
  forall acc,
  let b := fold_left widen others acc in
  (Bounds.minX b <= Bounds.minX acc /\ Bounds.minY b <= Bounds.minY acc /\
   Bounds.maxX acc <= Bounds.maxX b /\ Bounds.maxY acc <= Bounds.maxY b) /\
  (forall room, In room others ->
     let r := GeneratedRoom.bounds room in
     Bounds.minX b <= Rectangle.x r /\ Bounds.minY b <= Rectangle.y r /\
     Rectangle.x r + Rectangle.width r <= Bounds.maxX b /\
     Rectangle.y r + Rectangle.height r <= Bounds.maxY b) /\
  (Bounds.minX b = Bounds.minX acc \/
   exists room, In room others /\ Bounds.minX b = Rectangle.x (GeneratedRoom.bounds room)) /\
  (Bounds.minY b = Bounds.minY acc \/
   exists room, In room others /\ Bounds.minY b = Rectangle.y (GeneratedRoom.bounds room)) /\
  (Bounds.maxX b = Bounds.maxX acc \/
   exists room, In room others /\
     Bounds.maxX b = Rectangle.x (GeneratedRoom.bounds room)
                     + Rectangle.width (GeneratedRoom.bounds room)) /\
  (Bounds.maxY b = Bounds.maxY acc \/
   exists room, In room others /\
     Bounds.maxY b = Rectangle.y (GeneratedRoom.bounds room)
                     + Rectangle.height (GeneratedRoom.bounds room)).
Proof.
  induction others as [| room others IH]; intros acc; cbn [fold_left].
  - cbn zeta. split; [lia |]. split; [intros ? [] |]. auto.
  - specialize (IH (widen acc room)). cbn zeta in IH |- *.
    destruct IH as (Hmono & Hin & HminX & HminY & HmaxX & HmaxY).
    set (b := fold_left widen others (widen acc room)) in *.
    unfold widen in Hmono, HminX, HminY, HmaxX, HmaxY.
    cbn [Bounds.minX Bounds.minY Bounds.maxX Bounds.maxY] in Hmono, HminX, HminY, HmaxX, HmaxY.
    split; [lia |]. split; [| split; [| split; [| split]]].
    + intros r [<- | Hr]; [lia | apply Hin, Hr].
    + destruct HminX as [E | (r & Hr & E)]; [| right; exists r; cbn; auto].
      destruct (Z.min_spec (Bounds.minX acc) (Rectangle.x (GeneratedRoom.bounds room)))
        as [[_ Em] | [_ Em]]; rewrite Em in E; [left; exact E |].
      right. exists room. cbn. auto.
    + destruct HminY as [E | (r & Hr & E)]; [| right; exists r; cbn; auto].
      destruct (Z.min_spec (Bounds.minY acc) (Rectangle.y (GeneratedRoom.bounds room)))
        as [[_ Em] | [_ Em]]; rewrite Em in E; [left; exact E |].
      right. exists room. cbn. auto.
    + destruct HmaxX as [E | (r & Hr & E)]; [| right; exists r; cbn; auto].
      destruct (Z.max_spec (Bounds.maxX acc)
                  (Rectangle.x (GeneratedRoom.bounds room)
                   + Rectangle.width (GeneratedRoom.bounds room)))
        as [[_ Em] | [_ Em]]; rewrite Em in E; [| left; exact E].
      right. exists room. cbn. auto.
    + destruct HmaxY as [E | (r & Hr & E)]; [| right; exists r; cbn; auto].
      destruct (Z.max_spec (Bounds.maxY acc)
                  (Rectangle.y (GeneratedRoom.bounds room)
                   + Rectangle.height (GeneratedRoom.bounds room)))
        as [[_ Em] | [_ Em]]; rewrite Em in E; [| left; exact E].
      right. exists room. cbn. auto.
Qed.

(** For a non-empty list of rooms [calculateBounds] gives the smallest
    rectangle that encloses every room: every room lies within it, and each
    of its four edges is an edge of some room. *)
Theorem calculateBounds_encloses (rooms : list GeneratedRoom.t) :
  rooms <> [] ->
  let b := calculateBounds rooms in
  (forall room, In room rooms ->
     let r := GeneratedRoom.bounds room in
     Bounds.minX b <= Rectangle.x r /\ Bounds.minY b <= Rectangle.y r /\
     Rectangle.x r + Rectangle.width r <= Bounds.maxX b /\
     Rectangle.y r + Rectangle.height r <= Bounds.maxY b) /\
  (exists room, In room rooms /\ Bounds.minX b = Rectangle.x (GeneratedRoom.bounds room)) /\
  (exists room, In room rooms /\ Bounds.minY b = Rectangle.y (GeneratedRoom.bounds room)) /\
  (exists room, In room rooms /\
     Bounds.maxX b = Rectangle.x (GeneratedRoom.bounds room)
                     + Rectangle.width (GeneratedRoom.bounds room)) /\
  (exists room, In room rooms /\
     Bounds.maxY b = Rectangle.y (GeneratedRoom.bounds room)
                     + Rectangle.height (GeneratedRoom.bounds room)).
Proof.
  destruct rooms as [| first others]; [congruence |]. intros _.
  unfold calculateBounds.
  pose proof (widen_fold others
                (Bounds.mk (Rectangle.x (GeneratedRoom.bounds first))
                           (Rectangle.y (GeneratedRoom.bounds first))
                           (Rectangle.x (GeneratedRoom.bounds first)
                            + Rectangle.width (GeneratedRoom.bounds first))
                           (Rectangle.y (GeneratedRoom.bounds first)
                            + Rectangle.height (GeneratedRoom.bounds first)))) as H.
  cbn zeta in H |- *. destruct H as (Hmono & Hin & HminX & HminY & HmaxX & HmaxY).
  cbn [Bounds.minX Bounds.minY Bounds.maxX Bounds.maxY] in Hmono, HminX, HminY, HmaxX, HmaxY.
  split; [| split; [| split; [| split]]].
  - intros r [<- | Hr]; [lia | apply Hin, Hr].
  - destruct HminX as [E | (r & Hr & E)];
      [exists first | exists r]; split; cbn; auto.
  - destruct HminY as [E | (r & Hr & E)];
      [exists first | exists r]; split; cbn; auto.
  - destruct HmaxX as [E | (r & Hr & E)];
      [exists first | exists r]; split; cbn; auto.
  - destruct HmaxY as [E | (r & Hr & E)];
      [exists first | exists r]; split; cbn; auto.
Qed.

Lemma calculateBounds_encloses_witness :
  let rooms := [ GeneratedRoom.mk "room-0" (Some "entrance"%string)
                   (Rectangle.mk 2 (-1) 6 8) [] (RoomMetadata.mk (Some 0%Q) None);
                 GeneratedRoom.mk "room-1" (Some "boss"%string)
                   (Rectangle.mk 7 4 10 6) [] (RoomMetadata.mk (Some (1 # 2)) None) ]%string in
  calculateBounds rooms = Bounds.mk 2 (-1) 17 10 /\
  forall room, In room rooms ->
    2 <= Rectangle.x (GeneratedRoom.bounds room) /\
    Rectangle.x (GeneratedRoom.bounds room)
    + Rectangle.width (GeneratedRoom.bounds room) <= 17.
Proof.
  intros rooms. split; [reflexivity |].
  intros room Hroom.
  destruct (calculateBounds_encloses rooms) as (H & _); [discriminate |].
  destruct (H room Hroom) as (Hx & _ & Hw & _). split; [exact Hx | exact Hw].
Defined.

Section CanvasArithmetic.

Local Open Scope Q_scope.

Lemma inject_Z_sub (a b : Z) : inject_Z (a - b) == inject_Z a - inject_Z b.
Proof. unfold Z.sub, Qminus. rewrite inject_Z_plus, inject_Z_opp. reflexivity. Qed.

Lemma divide_nonzero (a b : Z) : (0 < b)%Z -> divide a b = Finite (inject_Z a / inject_Z b).
Proof. intros H. unfold divide. destruct (Z.eqb_spec b 0); [lia | reflexivity]. Qed.

Lemma smaller_spec (p q : Q) :
  let m := if Qle_bool p q then p else q in
  m <= p /\ m <= q /\ (m = p \/ m = q).
Proof.
  cbn zeta. destruct (Qle_bool p q) eqn:E.
  - apply Qle_bool_iff in E. repeat split; auto. apply Qle_refl.
  - assert (H : q < p).
    { apply Qnot_le_lt. intros H. apply Qle_bool_iff in H. congruence. }
    repeat split; auto; [apply Qlt_le_weak, H | apply Qle_refl].
Qed.

Lemma calculateScale_fits (bounds : Bounds.t) (canvasWidth canvasHeight : Z) :
  (Bounds.minX bounds < Bounds.maxX bounds)%Z ->
  (Bounds.minY bounds < Bounds.maxY bounds)%Z ->
  (80 < canvasWidth)%Z -> (80 < canvasHeight)%Z ->
  let worldWidth := inject_Z (Bounds.maxX bounds - Bounds.minX bounds) in
  let worldHeight := inject_Z (Bounds.maxY bounds - Bounds.minY bounds) in
  exists scale,
    calculateScale bounds canvasWidth canvasHeight = Finite scale /\
    0 < scale /\ scale <= 16 /\
    worldWidth * scale <= inject_Z canvasWidth - 80 /\
    worldHeight * scale <= inject_Z canvasHeight - 80 /\
    (scale == 16 \/ worldWidth * scale == inject_Z canvasWidth - 80 \/
     worldHeight * scale == inject_Z canvasHeight - 80).
Proof.
  intros Hx Hy Hw Hh worldWidth worldHeight.
  unfold calculateScale. rewrite !divide_nonzero by lia.
  fold worldWidth. fold worldHeight.
  change (40 * 2)%Z with 80%Z.
  assert (Hww : 0 < worldWidth).
  { unfold worldWidth. change 0 with (inject_Z 0). rewrite <- Zlt_Qlt. lia. }
  assert (Hwh : 0 < worldHeight).
  { unfold worldHeight. change 0 with (inject_Z 0). rewrite <- Zlt_Qlt. lia. }
  assert (Haw : 0 < inject_Z (canvasWidth - 80)).
  { change 0 with (inject_Z 0). rewrite <- Zlt_Qlt. lia. }
  assert (Hah : 0 < inject_Z (canvasHeight - 80)).
  { change 0 with (inject_Z 0). rewrite <- Zlt_Qlt. lia. }
  set (scaleX := inject_Z (canvasWidth - 80) / worldWidth).
  set (scaleY := inject_Z (canvasHeight - 80) / worldHeight).
  assert (HsX : 0 < scaleX).
  { apply Qlt_shift_div_l; [exact Hww |]. rewrite Qmult_0_l. exact Haw. }
  assert (HsY : 0 < scaleY).
  { apply Qlt_shift_div_l; [exact Hwh |]. rewrite Qmult_0_l. exact Hah. }
  assert (EX : worldWidth * scaleX == inject_Z canvasWidth - 80).
  { unfold scaleX. rewrite Qmult_div_r by lra. apply inject_Z_sub. }
  assert (EY : worldHeight * scaleY == inject_Z canvasHeight - 80).
  { unfold scaleY. rewrite Qmult_div_r by lra. apply inject_Z_sub. }
  cbn [Math_min].
  pose proof (smaller_spec scaleX scaleY) as H1. cbn zeta in H1.
  set (m := if Qle_bool scaleX scaleY then scaleX else scaleY) in *.
  pose proof (smaller_spec m (inject_Z 16)) as H2. cbn zeta in H2.
  set (scale := if Qle_bool m (inject_Z 16) then m else inject_Z 16) in *.
  change (inject_Z 16) with 16 in H2.
  destruct H1 as (H1x & H1y & H1e). destruct H2 as (H2m & H2c & H2e).
  assert (Hm : 0 < m) by (destruct H1e as [-> | ->]; assumption).
  assert (Hs : 0 < scale) by (destruct H2e as [-> | ->]; [exact Hm | reflexivity]).
  exists scale. split; [reflexivity |]. split; [exact Hs |]. split; [exact H2c |].
  assert (LX : worldWidth * scale <= worldWidth * scaleX).
  { rewrite !(Qmult_comm worldWidth). apply Qmult_le_compat_r; lra. }
  assert (LY : worldHeight * scale <= worldHeight * scaleY).
  { rewrite !(Qmult_comm worldHeight). apply Qmult_le_compat_r; lra. }
  split; [rewrite <- EX; exact LX |]. split; [rewrite <- EY; exact LY |].
  destruct H2e as [E2 | E2]; [| left; rewrite E2; reflexivity].
  right. rewrite E2. destruct H1e as [E1 | E1]; rewrite E1; auto.
Qed.

Lemma centred (canvas world scale low p : Q) :
  0 <= scale -> world * scale <= canvas - 80 ->
  low <= p -> p <= low + world ->
  let at_canvas := p * scale + ((canvas - world * scale) / 2 - low * scale) in
  40 <= at_canvas /\ at_canvas <= canvas - 40.
Proof.
  intros Hs Hfit Hlo Hhi at_canvas.
  assert (H0 : 0 <= (p - low) * scale) by (apply Qmult_le_0_compat; lra).
  assert (H1 : (p - low) * scale <= world * scale)
    by (apply Qmult_le_compat_r; lra).
  assert (E : at_canvas == (p - low) * scale + (canvas - world * scale) * (1 # 2)).
  { unfold at_canvas. field. }
  rewrite E. revert H0 H1 Hfit.
  generalize ((p - low) * scale). generalize (world * scale). intros u t H0 H1 Hfit.
  split; lra.
Qed.

End CanvasArithmetic.

Section Preview.

Local Open Scope Q_scope.

Variable bounds : Bounds.t.
Variables canvasWidth canvasHeight : Z.
Variable scale : Q.

Hypothesis scale_positive : 0 < scale.
Hypothesis fits_width :
  inject_Z (Bounds.maxX bounds - Bounds.minX bounds) * scale <= inject_Z canvasWidth - 80.
Hypothesis fits_height :
  inject_Z (Bounds.maxY bounds - Bounds.minY bounds) * scale <= inject_Z canvasHeight - 80.

Lemma placed (px py : Q) :
  let offset := calculateOffset bounds canvasWidth canvasHeight scale in
  in_world bounds px py ->
  (40 <= px * scale + Point.x offset /\
   px * scale + Point.x offset <= inject_Z canvasWidth - 40) /\
  (40 <= py * scale + Point.y offset /\
   py * scale + Point.y offset <= inject_Z canvasHeight - 40).
Proof.
  intros offset [[Hx0 Hx1] [Hy0 Hy1]]. unfold offset, calculateOffset. cbn [Point.x Point.y].
  split; apply centred; try assumption; try (apply Qlt_le_weak, scale_positive);
    rewrite inject_Z_sub; lra.
Qed.

Lemma room_in_world (room : GeneratedRoom.t) (fx fy : Q) :
  let r := GeneratedRoom.bounds room in
  (Bounds.minX bounds <= Rectangle.x r)%Z -> (Bounds.minY bounds <= Rectangle.y r)%Z ->
  (Rectangle.x r + Rectangle.width r <= Bounds.maxX bounds)%Z ->
  (Rectangle.y r + Rectangle.height r <= Bounds.maxY bounds)%Z ->
  (0 <= Rectangle.width r)%Z -> (0 <= Rectangle.height r)%Z ->
  0 <= fx <= 1 -> 0 <= fy <= 1 ->
  in_world bounds (inject_Z (Rectangle.x r) + inject_Z (Rectangle.width r) * fx)
           (inject_Z (Rectangle.y r) + inject_Z (Rectangle.height r) * fy).
Proof.
  intros r Hx Hy Hxw Hyh Hw Hh [Hfx0 Hfx1] [Hfy0 Hfy1].
  rewrite Zle_Qle in Hx, Hy, Hxw, Hyh, Hw, Hh.
  rewrite inject_Z_plus in Hxw, Hyh. change (inject_Z 0) with 0 in Hw, Hh.
  assert (0 <= inject_Z (Rectangle.width r) * fx) by (apply Qmult_le_0_compat; assumption).
  assert (0 <= inject_Z (Rectangle.height r) * fy) by (apply Qmult_le_0_compat; assumption).
  assert (inject_Z (Rectangle.width r) * fx <= inject_Z (Rectangle.width r) * 1).
  { rewrite !(Qmult_comm (inject_Z (Rectangle.width r))).
    apply Qmult_le_compat_r; assumption. }
  assert (inject_Z (Rectangle.height r) * fy <= inject_Z (Rectangle.height r) * 1).
  { rewrite !(Qmult_comm (inject_Z (Rectangle.height r))).
    apply Qmult_le_compat_r; assumption. }
  unfold in_world. repeat split; lra.
Qed.

Lemma corner_placed (room : GeneratedRoom.t) (fx fy : Q) :
  enclosed bounds room -> 0 <= fx <= 1 -> 0 <= fy <= 1 ->
  let r := GeneratedRoom.bounds room in
  let offset := calculateOffset bounds canvasWidth canvasHeight scale in
  let x := inject_Z (Rectangle.x r) * scale + Point.x offset in
  let y := inject_Z (Rectangle.y r) * scale + Point.y offset in
  let w := inject_Z (Rectangle.width r) * scale in
  let h := inject_Z (Rectangle.height r) * scale in
  (40 <= x + w * fx /\ x + w * fx <= inject_Z canvasWidth - 40) /\
  (40 <= y + h * fy /\ y + h * fy <= inject_Z canvasHeight - 40).
Proof.
  intros ((Hx & Hy & Hxw & Hyh) & Hw & Hh) Hfx Hfy r offset x y w h.
  pose proof (placed _ _ (room_in_world room fx fy Hx Hy Hxw Hyh Hw Hh Hfx Hfy)) as H.
  cbv zeta in H. fold r in H. fold offset in H.
  assert (Ex : x + w * fx
               == (inject_Z (Rectangle.x r) + inject_Z (Rectangle.width r) * fx) * scale
                  + Point.x offset) by (unfold x, w; ring).
  assert (Ey : y + h * fy
               == (inject_Z (Rectangle.y r) + inject_Z (Rectangle.height r) * fy) * scale
                  + Point.y offset) by (unfold y, h; ring).
  rewrite Ex, Ey. exact H.
Qed.

Lemma draw_room_within (room : GeneratedRoom.t) :
  enclosed bounds room ->
  Forall (within_canvas 40 canvasWidth canvasHeight)
         (draw_room scale (calculateOffset bounds canvasWidth canvasHeight scale) room).
Proof.
  intros Hroom.
  pose proof (corner_placed room 0 0 Hroom) as H00.
  pose proof (corner_placed room 1 1 Hroom) as H11.
  pose proof (corner_placed room (1 # 2) (1 # 2) Hroom) as Hmid.
  cbv zeta in H00, H11, Hmid.
  destruct H00 as [H0x H0y]; [split; discriminate | split; discriminate |].
  destruct H11 as [H1x H1y]; [split; discriminate | split; discriminate |].
  destruct Hmid as [Hmx Hmy]; [split; discriminate | split; discriminate |].
  destruct Hroom as (_ & Hw & Hh).
  rewrite Zle_Qle in Hw, Hh. change (inject_Z 0) with 0 in Hw, Hh.
  unfold draw_room. cbv zeta.
  set (x := inject_Z (Rectangle.x (GeneratedRoom.bounds room)) * scale + _) in *.
  set (y := inject_Z (Rectangle.y (GeneratedRoom.bounds room)) * scale + _) in *.
  set (w := inject_Z (Rectangle.width (GeneratedRoom.bounds room)) * scale) in *.
  set (h := inject_Z (Rectangle.height (GeneratedRoom.bounds room)) * scale) in *.
  assert (Hw0 : 0 <= w) by (apply Qmult_le_0_compat; lra).
  assert (Hh0 : 0 <= h) by (apply Qmult_le_0_compat; lra).
  assert (Ex0 : x + w * 0 == x) by ring. assert (Ey0 : y + h * 0 == y) by ring.
  assert (Ex1 : x + w * 1 == x + w) by ring. assert (Ey1 : y + h * 1 == y + h) by ring.
  assert (Exm : x + w * (1 # 2) == x + w / 2) by field.
  assert (Eym : y + h * (1 # 2) == y + h / 2) by field.
  rewrite Ex0 in H0x. rewrite Ey0 in H0y. rewrite Ex1 in H1x. rewrite Ey1 in H1y.
  rewrite Exm in Hmx. rewrite Eym in Hmy.
  repeat constructor; unfold within_canvas; change (inject_Z 40) with 40;
    cbv beta zeta; tauto.
Qed.

Lemma center_placed (room : GeneratedRoom.t) :
  enclosed bounds room ->
  let offset := calculateOffset bounds canvasWidth canvasHeight scale in
  let center := getRoomCenter room in
  (40 <= Point.x center * scale + Point.x offset /\
   Point.x center * scale + Point.x offset <= inject_Z canvasWidth - 40) /\
  (40 <= Point.y center * scale + Point.y offset /\
   Point.y center * scale + Point.y offset <= inject_Z canvasHeight - 40).
Proof.
  intros ((Hx & Hy & Hxw & Hyh) & Hw & Hh) offset center.
  assert (Hhalf : 0 <= 1 # 2 <= 1) by (split; discriminate).
  pose proof (placed _ _ (room_in_world room _ _ Hx Hy Hxw Hyh Hw Hh Hhalf Hhalf)) as H.
  cbv zeta in H. fold offset in H.
  unfold center, getRoomCenter. cbn [Point.x Point.y].
  set (r := GeneratedRoom.bounds room) in *.
  assert (Ex : inject_Z (Rectangle.x r) + inject_Z (Rectangle.width r) / 2
               == inject_Z (Rectangle.x r) + inject_Z (Rectangle.width r) * (1 # 2))
    by field.
  assert (Ey : inject_Z (Rectangle.y r) + inject_Z (Rectangle.height r) / 2
               == inject_Z (Rectangle.y r) + inject_Z (Rectangle.height r) * (1 # 2))
    by field.
  rewrite Ex, Ey. exact H.
Qed.

Lemma draw_connection_within (rooms : list GeneratedRoom.t) (conn : RoomConnection.t) :
  Forall (enclosed bounds) rooms ->
  Forall (within_canvas 40 canvasWidth canvasHeight)
         (draw_connection rooms scale
            (calculateOffset bounds canvasWidth canvasHeight scale) conn).
Proof.
  intros Hrooms. rewrite Forall_forall in Hrooms. unfold draw_connection.
  destruct (find _ rooms) as [a |] eqn:Ea; [| constructor].
  destruct (find (fun r => String.eqb (GeneratedRoom.id r) (RoomConnection.toRoomId conn))
                 rooms) as [b |] eqn:Eb; [| constructor].
  apply find_some in Ea, Eb.
  pose proof (center_placed a (Hrooms _ (proj1 Ea))) as Ha.
  pose proof (center_placed b (Hrooms _ (proj1 Eb))) as Hb.
  cbv zeta in Ha, Hb.
  repeat constructor; unfold within_canvas; change (inject_Z 40) with 40;
    cbv beta zeta; tauto.
Qed.

Lemma draw_marker_within (fillStyle : string) (p : Position.t) :
  in_world bounds (inject_Z (Position.x p)) (inject_Z (Position.y p)) ->
  within_canvas 40 canvasWidth canvasHeight
    (draw_marker fillStyle scale
       (calculateOffset bounds canvasWidth canvasHeight scale) p).
Proof.
  intros H. pose proof (placed _ _ H) as Hp. cbv zeta in Hp.
  unfold draw_marker, within_canvas. change (inject_Z 40) with 40.
  cbv beta zeta. tauto.
Qed.

Lemma contained_in_world (room : GeneratedRoom.t) (p : Position.t) :
  enclosed bounds room -> contains (GeneratedRoom.bounds room) p ->
  in_world bounds (inject_Z (Position.x p)) (inject_Z (Position.y p)).
Proof.
  intros ((Hx & Hy & Hxw & Hyh) & _) [Hpx Hpy].
  unfold in_world. rewrite <- !Zle_Qle. lia.
Qed.

End Preview.

Lemma generated_rooms_enclosed (layout : DungeonLayout.t) :
  layout_shape layout ->
  let bounds := calculateBounds (DungeonLayout.rooms layout) in
  Forall (enclosed bounds) (DungeonLayout.rooms layout) /\
  Bounds.minX bounds < Bounds.maxX bounds /\
  Bounds.minY bounds < Bounds.maxY bounds.
Proof.
  intros (Hlen & Hrooms & _) bounds.
  assert (Hne : DungeonLayout.rooms layout <> []).
  { intros E. rewrite E in Hlen. cbn in Hlen. lia. }
  destruct (calculateBounds_encloses _ Hne) as (Hin & _). fold bounds in Hin.
  assert (Hok : forall room, In room (DungeonLayout.rooms layout) -> room_ok room).
  { intros room Hroom. destruct (In_index _ _ Hroom) as [n Hn].
    apply (Hrooms _ _ Hn). }
  split; [| split].
  - apply Forall_forall. intros room Hroom.
    destruct (Hok room Hroom) as [Hw Hh].
    split; [apply Hin, Hroom | lia].
  - destruct (DungeonLayout.rooms layout) as [| first others] eqn:E; [congruence |].
    destruct (Hok first (or_introl eq_refl)) as [Hw _].
    destruct (Hin first (or_introl eq_refl)) as (? & ? & ? & ?). lia.
  - destruct (DungeonLayout.rooms layout) as [| first others] eqn:E; [congruence |].
    destruct (Hok first (or_introl eq_refl)) as [_ Hh].
    destruct (Hin first (or_introl eq_refl)) as (? & ? & ? & ?). lia.
Qed.

(** For every seed, the preview of the generated dungeon on a canvas of
    more than 80 by 80 pixels first clears the canvas and then draws only
    shapes that keep 40 pixels from its border: every room rectangle and
    label, both ends of every connection line, and the centres of the start
    and exit markers.  The scale is positive and at most 16 pixels a cell. *)
Theorem preview_within_canvas (env : Env.t) (request : GenerationRequest.t)
    (width height : Z) :
  80 < width -> 80 < height ->
  exists result shapes,
    generate_once env request = Returned result /\
    preview_effect (Some result) width height
      = Some (FillRect "#0f172a" 0 0 (inject_Z width) (inject_Z height) :: shapes) /\
    Forall (within_canvas 40 width height) shapes.
Proof.
  intros Hw Hh.
  destruct (generate_once_returns env request) as (result & layout0 & E & _).
  destruct (generate_once_layout env request result E) as (Hok & layout & Hd & Hs).
  exists result.
  pose proof (generated_rooms_enclosed layout Hs) as Henc. cbv zeta in Henc.
  destruct Henc as (Henc & Hx & Hy).
  destruct (calculateScale_fits (calculateBounds (DungeonLayout.rooms layout))
              width height Hx Hy Hw Hh) as (scale & Es & Hpos & _ & Hfw & Hfh & _).
  unfold preview_effect. rewrite Hok, Hd, Es.
  eexists. split; [exact E |]. split; [reflexivity |].
  set (bounds := calculateBounds (DungeonLayout.rooms layout)) in *.
  destruct Hs as (Hlen & Hrooms & _ & _ & _ & _ & (first & Hfirst & Hstart)
                  & (last & Hlast & Hexits)).
  assert (Hin : forall j room, index (DungeonLayout.rooms layout) j = Some room ->
                  In room (DungeonLayout.rooms layout)).
  { intros j room Hj. unfold index in Hj.
    destruct (j <? 0); [discriminate |]. eapply nth_error_In, Hj. }
  rewrite Forall_forall in Henc.
  apply Forall_app. split; [| apply Forall_app; split; [| apply Forall_app; split]].
  - apply Forall_flat_map. apply Forall_forall. intros conn _.
    apply draw_connection_within; try assumption. apply Forall_forall, Henc.
  - apply Forall_flat_map. apply Forall_forall. intros room Hroom.
    apply draw_room_within; try assumption. apply Henc, Hroom.
  - constructor; [| constructor].
    apply draw_marker_within; try assumption.
    apply (contained_in_world bounds first); [apply Henc, (Hin _ _ Hfirst) |].
    rewrite Hstart. apply room_center_inside, (Hrooms _ _ Hfirst).
  - rewrite Hexits. cbn [map]. constructor; [| constructor].
    apply draw_marker_within; try assumption.
    apply (contained_in_world bounds last); [apply Henc, (Hin _ _ Hlast) |].
    apply room_center_inside, (Hrooms _ _ Hlast).
Qed.

Lemma preview_within_canvas_witness :
  exists result shapes,
    generate_once sample_env sample_request = Returned result /\
    preview_effect (Some result) 352 280
      = Some (FillRect "#0f172a" 0 0 (inject_Z 352) (inject_Z 280) :: shapes) /\
    Forall (within_canvas 40 352 280) shapes.
Proof.
  apply (preview_within_canvas sample_env sample_request 352 280); lia.
Defined.

Section PreviewScale.

Local Open Scope Q_scope.

(** When the bounds have a width and a height and the canvas is larger than
    80 by 80 pixels, the scale is a positive number of at most 16, the
    largest for which the scaled world leaves 40 pixels on every side, and
    the offset centres the world: the margins left and right of it are
    equal, and so are those above and below. *)
Theorem world_fitted_and_centred (bounds : Bounds.t) (canvasWidth canvasHeight : Z) :
  (Bounds.minX bounds < Bounds.maxX bounds)%Z ->
  (Bounds.minY bounds < Bounds.maxY bounds)%Z ->
  (80 < canvasWidth)%Z -> (80 < canvasHeight)%Z ->
  let worldWidth := inject_Z (Bounds.maxX bounds - Bounds.minX bounds) in
  let worldHeight := inject_Z (Bounds.maxY bounds - Bounds.minY bounds) in
  exists scale,
    calculateScale bounds canvasWidth canvasHeight = Finite scale /\
    0 < scale /\ scale <= 16 /\
    worldWidth * scale <= inject_Z canvasWidth - 80 /\
    worldHeight * scale <= inject_Z canvasHeight - 80 /\
    (scale == 16 \/ worldWidth * scale == inject_Z canvasWidth - 80 \/
     worldHeight * scale == inject_Z canvasHeight - 80) /\
    let offset := calculateOffset bounds canvasWidth canvasHeight scale in
    let left := inject_Z (Bounds.minX bounds) * scale + Point.x offset in
    let right := inject_Z (Bounds.maxX bounds) * scale + Point.x offset in
    let top := inject_Z (Bounds.minY bounds) * scale + Point.y offset in
    let bottom := inject_Z (Bounds.maxY bounds) * scale + Point.y offset in
    left == inject_Z canvasWidth - right /\ top == inject_Z canvasHeight - bottom /\
    right - left == worldWidth * scale /\ bottom - top == worldHeight * scale.
Proof.
  intros Hx Hy Hw Hh worldWidth worldHeight.
  destruct (calculateScale_fits bounds canvasWidth canvasHeight Hx Hy Hw Hh)
    as (scale & E & Hpos & H16 & Hfw & Hfh & Htight).
  exists scale. repeat (split; [assumption |]).
  cbv zeta. unfold calculateOffset. cbn [Point.x Point.y].
  rewrite !inject_Z_sub. unfold worldWidth, worldHeight. rewrite !inject_Z_sub.
  repeat split; field.
Qed.

Lemma world_fitted_and_centred_witness :
  exists scale,
    calculateScale (Bounds.mk 2 (-1) 17 10) 352 280 = Finite scale /\
    0 < scale /\ scale <= 16.
Proof.
  destruct (world_fitted_and_centred (Bounds.mk 2 (-1) 17 10) 352 280)
    as (scale & E & Hpos & H16 & _); try (cbn; lia).
  exists scale. auto.
Defined.

End PreviewScale.

Lemma find_by_id (rooms : list GeneratedRoom.t) (room : GeneratedRoom.t) :
  NoDup (map GeneratedRoom.id rooms) -> In room rooms ->
  find (fun r => String.eqb (GeneratedRoom.id r) (GeneratedRoom.id room)) rooms
    = Some room.
Proof.
  induction rooms as [| x l IH]; intros Hnd Hin; [destruct Hin |].
  cbn [map] in Hnd. inversion Hnd as [| ? ? Hx Hl]; subst.
  cbn [find]. destruct (String.eqb_spec (GeneratedRoom.id x) (GeneratedRoom.id room)) as [E | E].
  - destruct Hin as [-> | Hin]; [reflexivity |].
    exfalso. apply Hx. rewrite E. apply in_map, Hin.
  - destruct Hin as [-> | Hin]; [congruence |]. apply IH; assumption.
Qed.

(** The preview skips no connection of a generated dungeon: each one is
    drawn as one line, from the centre of the room it starts at to the
    centre of the room it leads to, which comes later in the list. *)
Theorem preview_draws_every_connection (seed : Z) (scale : Q) (offset : Point.t) :
  exists layout,
    generateDungeon seed = Returned layout /\
    let rooms := DungeonLayout.rooms layout in
    forall conn, In conn (DungeonLayout.connections layout) ->
      exists i j a b,
        0 <= i /\ i < j /\ index rooms i = Some a /\ index rooms j = Some b /\
        connects conn a b /\
        draw_connection rooms scale offset conn =
          [ Line "#475569"
                 (Point.x (getRoomCenter a) * scale + Point.x offset)
                 (Point.y (getRoomCenter a) * scale + Point.y offset)
                 (Point.x (getRoomCenter b) * scale + Point.x offset)
                 (Point.y (getRoomCenter b) * scale + Point.y offset) ]%Q.
Proof.
  destruct (generateDungeon_spec seed)
    as (layout & E & _ & Hrooms & _ & (chain & branches & Hc & _ & Hchain & _ & Hbr) & _).
  exists layout. split; [exact E |]. intros rooms conn Hconn.
  assert (Hnd : NoDup (map GeneratedRoom.id rooms)).
  { apply indexed_ids_NoDup. intros j r Hj. apply (Hrooms _ _ Hj). }
  assert (Hin : forall j room, index rooms j = Some room -> In room rooms).
  { intros j room Hj. unfold index in Hj.
    destruct (j <? 0); [discriminate |]. eapply nth_error_In, Hj. }
  assert (H : exists i j a b,
             0 <= i /\ i < j /\ index rooms i = Some a /\ index rooms j = Some b /\
             connects conn a b).
  { rewrite Hc in Hconn. apply in_app_or in Hconn. destruct Hconn as [Hconn | Hconn].
    - destruct (In_index _ _ Hconn) as [n Hn].
      destruct (Hchain _ _ Hn) as (a & b & Ha & Hb & Hab & _).
      exists (Z.of_nat n), (Z.of_nat n + 1), a, b. repeat split; try lia; try assumption;
        apply Hab.
    - rewrite Forall_forall in Hbr.
      destruct (Hbr _ Hconn) as (i & j & a & b & Hi & Hj & Ha & Hb & Hab & _).
      exists i, j, a, b. repeat split; try lia; try assumption; apply Hab. }
  destruct H as (i & j & a & b & Hi & Hij & Ha & Hb & Hab).
  exists i, j, a, b. repeat (split; [assumption |]).
  unfold draw_connection. destruct Hab as [-> ->].
  rewrite (find_by_id rooms a Hnd (Hin _ _ Ha)), (find_by_id rooms b Hnd (Hin _ _ Hb)).
  reflexivity.
Qed.

(** The preview draws the entrance of a generated dungeon in the default
    colour, as it does hallways and chambers, the boss room in the boss
    colour and treasure rooms in the treasure colour; no room is drawn in
    the colour of the key [start]. *)
Theorem preview_room_colours (seed : Z) (scale : Q) (offset : Point.t) :
  exists layout,
    generateDungeon seed = Returned layout /\
    let rooms := DungeonLayout.rooms layout in
    forall j room, index rooms j = Some room ->
      exists color x y w h tx ty,
        draw_room scale offset room =
          [ FillRect (color ++ "40") x y w h; StrokeRect color x y w h;
            FillText "#f8fafc" (GeneratedRoom.type room) tx ty ] /\
        (j = 0 -> color = "#3b82f6"%string) /\
        (j = Z.of_nat (length rooms) - 1 -> color = "#ef4444"%string) /\
        (GeneratedRoom.type room = Some "treasure"%string -> color = "#f59e0b"%string) /\
        color <> "#22c55e"%string.
Proof.
  destruct (generateDungeon_spec seed) as (layout & E & Hlen & Hrooms & _).
  exists layout. split; [exact E |]. intros rooms j room Hj.
  destruct (Hrooms _ _ Hj) as (_ & _ & _ & Hentrance & Hboss & Hmiddle & _).
  fold rooms in Hlen, Hboss, Hmiddle.
  unfold draw_room. cbv zeta.
  do 7 eexists. split; [reflexivity |].
  destruct (Z.eq_dec j 0) as [E0 | E0].
  - rewrite (Hentrance E0). cbn.
    repeat split; intros; try discriminate; try lia; reflexivity.
  - destruct (Z.eq_dec j (Z.of_nat (length rooms) - 1)) as [El | El].
    + rewrite (Hboss E0 El). cbn.
      repeat split; intros; try discriminate; try lia; reflexivity.
    + destruct (Hmiddle E0 El) as (t & -> & [<- | [<- | [<- | []]]]); cbn;
        repeat split; intros; try discriminate; try lia; reflexivity.
Qed.

(** ** The editor store *)

Lemma unique_fold (ids : list string) :
  forall set, NoDup set ->
  let out := fold_left (fun set id => if existsb (String.eqb id) set then set
                                      else set ++ [id]) ids set in
  NoDup out /\ (forall id, In id out <-> In id set \/ In id ids) /\
  exists more, out = set ++ more.
Proof.
  induction ids as [| id ids IH]; intros set Hset; cbn [fold_left].
  - cbn zeta. split; [exact Hset |]. split; [| exists []; symmetry; apply app_nil_r].
    intros id. cbn. tauto.
  - destruct (existsb (String.eqb id) set) eqn:E.
    + apply existsb_exists in E. destruct E as (x & Hx & E).
      apply String.eqb_eq in E. subst x.
      destruct (IH set Hset) as (Hnd & Hin & Hpre). cbn zeta.
      split; [exact Hnd |]. split; [| exact Hpre].
      intros i. rewrite Hin. cbn [In]. split; [tauto |].
      intros [H | [<- | H]]; auto.
    + assert (Hid : ~ In id set).
      { intros Hin. assert (existsb (String.eqb id) set = true); [| congruence].
        apply existsb_exists. exists id. split; [exact Hin | apply String.eqb_refl]. }
      assert (Hset' : NoDup (set ++ [id])).
      { apply NoDup_app; [exact Hset | repeat constructor; intros [] |].
        intros a Ha [<- | []]. exact (Hid Ha). }
      destruct (IH (set ++ [id]) Hset') as (Hnd & Hin & (more & Hpre)). cbn zeta.
      split; [exact Hnd |]. split.
      * intros i. rewrite Hin, in_app_iff. cbn [In]. tauto.
      * exists (id :: more). rewrite Hpre, <- app_assoc. reflexivity.
Qed.

(** Adding to the selection never duplicates an id: after [selectNodes] with
    [append] the selected node ids are pairwise distinct, they are exactly
    the ids selected before and the ids added, and the selected edges are
    kept; without [append] the ids are stored as given and the edge
    selection is emptied. *)
Theorem selectNodes_appends_without_duplicates (ids : list string)
    (state : EditorState.t) :
  let added := selectNodes ids true state in
  let replaced := selectNodes ids false state in
  NoDup (EditorState.selectedNodeIds added) /\
  (forall id, In id (EditorState.selectedNodeIds added) <->
              In id (EditorState.selectedNodeIds state) \/ In id ids) /\
  EditorState.selectedEdgeIds added = EditorState.selectedEdgeIds state /\
  EditorState.selectedNodeIds replaced = ids /\
  EditorState.selectedEdgeIds replaced = [].
Proof.
  cbn zeta. unfold selectNodes. cbn [EditorState.selectedNodeIds EditorState.selectedEdgeIds].
  destruct (unique_fold (EditorState.selectedNodeIds state ++ ids) [] (NoDup_nil _))
    as (Hnd & Hin & _).
  cbn zeta in Hnd, Hin. split; [exact Hnd |]. split; [| auto].
  intros id. unfold unique. rewrite Hin, in_app_iff. cbn [In]. tauto.
Qed.

Section Zoom.

Local Open Scope Q_scope.

(** [setZoom] stores a zoom between 0.1 and 2 for every argument that is a
    number: the argument itself when it lies in this range, the nearer end
    of the range otherwise, also for an infinity.  NaN is stored as NaN. *)
Theorem setZoom_clamps (zoom : number) (state : EditorState.t) :
  match zoom, EditorState.zoom (setZoom zoom state) with
  | Finite q, Finite stored =>
      (1 # 10) <= stored /\ stored <= 2 /\
      ((1 # 10) <= q -> q <= 2 -> stored == q) /\
      (q < (1 # 10) -> stored == (1 # 10)) /\ (2 < q -> stored == 2)
  | PlusInfinity, Finite stored => stored == 2
  | MinusInfinity, Finite stored => stored == (1 # 10)
  | NaN, NaN => True
  | _, _ => False
  end.
Proof.
  destruct zoom as [q | | |]; cbn; try reflexivity; try exact I.
  destruct (Qle_bool 2 q) eqn:E2.
  - apply Qle_bool_iff in E2. cbn.
    repeat split; try discriminate; intros; lra.
  - assert (H2 : q < 2).
    { apply Qnot_le_lt. intros H. apply Qle_bool_iff in H. congruence. }
    destruct (Qle_bool (1 # 10) q) eqn:E1.
    + apply Qle_bool_iff in E1. repeat split; intros; lra.
    + assert (H1 : q < 1 # 10).
      { apply Qnot_le_lt. intros H. apply Qle_bool_iff in H. congruence. }
      repeat split; intros; try lra; discriminate.
Qed.

End Zoom.

(** ** The project store *)

Lemma slice_to_length {T} (array : list T) (to : Z) :
  0 <= to <= Z.of_nat (length array) ->
  slice_to array to = firstn (Z.to_nat to) array /\
  Z.of_nat (length (slice_to array to)) = to.
Proof.
  intros H. unfold slice_to. destruct (Z.ltb_spec to 0); [lia |].
  split; [reflexivity |]. rewrite length_firstn. lia.
Qed.

Lemma firstn_snoc {T} (e : T) (n : nat) :
  forall array, nth_error array n = Some e ->
    firstn (S n) array = firstn n array ++ [e].
Proof.
  induction n as [| n IH]; intros [| a array] E; cbn in E; try discriminate.
  - injection E as ->. reflexivity.
  - cbn [firstn app]. rewrite <- (IH array E). reflexivity.
Qed.

Lemma same_history_consistent (s s' : ProjectState.t) :
  ProjectState.history s' = ProjectState.history s ->
  ProjectState.historyIndex s' = ProjectState.historyIndex s ->
  ProjectState.canUndo s' = ProjectState.canUndo s ->
  ProjectState.canRedo s' = ProjectState.canRedo s ->
  (ProjectState.project s' = None <-> ProjectState.project s = None) ->
  history_consistent s -> history_consistent s'.
Proof.
  unfold history_consistent. intros -> -> -> -> Hp.
  destruct (ProjectState.project s) as [p |], (ProjectState.project s') as [p' |];
    try exact (fun H => H); exfalso; destruct Hp as [H1 H2];
    first [discriminate (H1 eq_refl) | discriminate (H2 eq_refl)].
Qed.

Lemma pushHistory_spec (description : string) (s : ProjectState.t) (p : Project.t) :
  history_consistent s -> ProjectState.project s = Some p ->
  exists before e newer,
    index (ProjectState.history s) (ProjectState.historyIndex s) = Some e /\
    snd (_pushHistory description s) =
      ProjectState.mk (Some p) (ProjectState.filePath s) (ProjectState.isDirty s)
        (ProjectState.activeGeneratorId s)
        (before ++ [e; HistoryEntry.mk p description])
        (Z.of_nat (length before) + 1)
        true false /\
    fst (_pushHistory description s) = Returned tt /\
    Z.of_nat (length before) + 2 <= 50 /\
    newer = ProjectState.history s.
Proof.
  unfold history_consistent. intros H Hp. rewrite Hp in H.
  destruct H as (Hidx & Hlen & _).
  set (h := ProjectState.history s) in *. set (i := ProjectState.historyIndex s) in *.
  destruct (index h i) as [e |] eqn:Ee.
  2:{ unfold index in Ee. destruct (Z.ltb_spec i 0); [lia |].
      apply nth_error_None in Ee. lia. }
  assert (En : nth_error h (Z.to_nat i) = Some e).
  { unfold index in Ee. destruct (Z.ltb_spec i 0); [lia | exact Ee]. }
  assert (Hfirst : slice_to h (i + 1) = firstn (Z.to_nat i) h ++ [e]).
  { destruct (slice_to_length h (i + 1)) as [-> _]; [lia |].
    replace (Z.to_nat (i + 1)) with (S (Z.to_nat i)) by lia.
    apply firstn_snoc, En. }
  assert (Hfl : length (firstn (Z.to_nat i) h) = Z.to_nat i).
  { rewrite length_firstn. lia. }
  unfold _pushHistory. rewrite Hp. fold h. fold i. rewrite Hfirst. cbn zeta.
  rewrite <- app_assoc. cbn [app].
  set (kept := firstn (Z.to_nat i) h) in *.
  destruct (Z.ltb_spec 50 (Z.of_nat (length (kept ++ [e; HistoryEntry.mk p description]))))
    as [Hover | Hfit]; rewrite length_app in *; cbn [length] in *.
  - destruct kept as [| a kept']; [cbn in Hover; lia |].
    exists kept', e, h. split; [reflexivity |]. cbn [app tl snd fst].
    rewrite length_app. cbn [length] in *.
    split; [| split; [reflexivity | split; [lia | reflexivity]]].
    f_equal; [lia |]. apply Z.ltb_lt. lia.
  - exists kept, e, h. split; [reflexivity |]. cbn [snd fst].
    rewrite ?length_app. cbn [length].
    split; [| split; [reflexivity | split; [lia | reflexivity]]].
    f_equal; [lia |]. apply Z.ltb_lt. lia.
Qed.

Lemma pushed_consistent (p : Project.t) (before : list HistoryEntry.t)
    (e e' : HistoryEntry.t) (path : option string) (dirty : bool)
    (active : option string) :
  Z.of_nat (length before) + 2 <= 50 ->
  history_consistent
    (ProjectState.mk (Some p) path dirty active (before ++ [e; e'])
                     (Z.of_nat (length before) + 1) true false).
Proof.
  intros H. unfold history_consistent. cbn. rewrite length_app. cbn [length].
  repeat split; try lia; symmetry;
    first [apply Z.ltb_lt; lia | apply Z.ltb_ge; lia].
Qed.

Lemma pushHistory_consistent (description : string) (s : ProjectState.t) :
  history_consistent s ->
  exists s', _pushHistory description s = (Returned tt, s') /\
             history_consistent s' /\
             (ProjectState.project s' = ProjectState.project s) /\
             ProjectState.activeGeneratorId s' = ProjectState.activeGeneratorId s.
Proof.
  intros H. destruct (ProjectState.project s) as [p |] eqn:Hp.
  - destruct (pushHistory_spec description s p H Hp)
      as (before & e & newer & _ & Es & Ef & Hlen & _).
    destruct (_pushHistory description s) as [o s'] eqn:E. cbn [fst snd] in Es, Ef.
    subst o. exists s'. split; [reflexivity |]. rewrite Es.
    split; [apply pushed_consistent; exact Hlen | split; reflexivity].
  - unfold _pushHistory. rewrite Hp. exists s. rewrite Hp. auto.
Qed.

Lemma change_project_consistent (change : Project.t -> Project.t) (s : ProjectState.t) :
  history_consistent s -> history_consistent (change_project change s).
Proof.
  apply same_history_consistent; try reflexivity.
  unfold change_project. cbn. destruct (ProjectState.project s); cbn; split; congruence.
Qed.

Lemma markDirty_consistent (s : ProjectState.t) :
  history_consistent s -> history_consistent (snd (_markDirty s)).
Proof.
  apply same_history_consistent; reflexivity.
Qed.

Lemma recorded_change_consistent (description : string)
    (change : ProjectState.t -> ProjectState.t) (s : ProjectState.t) :
  (forall s0, history_consistent s0 -> history_consistent (change s0)) ->
  history_consistent s ->
  exists s',
    (_ <- _pushHistory description ;; _ <- set_project_state change ;; _markDirty) s
      = (Returned tt, s') /\
    history_consistent s'.
Proof.
  intros Hchange H.
  destruct (pushHistory_consistent description s H) as (s1 & E & H1 & _).
  unfold bind. rewrite E. unfold set_project_state. cbn.
  eexists. split; [reflexivity |].
  apply (markDirty_consistent (change s1)), Hchange, H1.
Qed.

Lemma index_last {T} (before : list T) (e e' : T) :
  index (before ++ [e; e']) (Z.of_nat (length before)) = Some e /\
  index (before ++ [e; e']) (Z.of_nat (length before) + 1) = Some e'.
Proof.
  unfold index.
  destruct (Z.ltb_spec (Z.of_nat (length before)) 0); [lia |].
  destruct (Z.ltb_spec (Z.of_nat (length before) + 1) 0); [lia |].
  replace (Z.to_nat (Z.of_nat (length before) + 1)) with (S (length before)) by lia.
  rewrite Nat2Z.id. split.
  - rewrite nth_error_app2 by lia. rewrite Nat.sub_diag. reflexivity.
  - rewrite nth_error_app2 by lia.
    replace (S (length before) - length before)%nat with 1%nat by lia. reflexivity.
Qed.

Lemma perform_consistent (c : Command) (s : ProjectState.t) :
  history_consistent s ->
  exists s', perform c s = (Returned tt, s') /\ history_consistent s'.
Proof.
  intros H. destruct c; cbn [perform].
  - eexists. split; [reflexivity |]. unfold history_consistent. cbn. repeat split; lia.
  - eexists. split; [reflexivity |]. unfold history_consistent. cbn. auto.
  - apply recorded_change_consistent; [| exact H].
    intros s0. apply same_history_consistent;
      destruct (ProjectState.project s0) eqn:E; cbn; try reflexivity;
      rewrite ?E; split; congruence.
  - apply recorded_change_consistent; [| exact H].
    intros s0. apply same_history_consistent;
      destruct (ProjectState.project s0) eqn:E; cbn; try reflexivity;
      rewrite ?E; split; congruence.
  - eexists. split; [reflexivity |]. revert H. apply same_history_consistent; reflexivity.
  - apply recorded_change_consistent; [| exact H].
    intros s0. apply change_project_consistent.
  - unfold moveNode, bind, set_project_state. cbn.
    eexists. split; [reflexivity |].
    apply (markDirty_consistent (change_generator _ _ s)), change_project_consistent, H.
  - unfold addEdge.
    destruct (ProjectState.project s) as [p |]; [| exists s; auto].
    destruct (ProjectState.activeGeneratorId s) as [a |]; [| exists s; auto].
    destruct (String.eqb a ""); [exists s; auto |].
    apply recorded_change_consistent; [| exact H].
    intros s0. apply change_project_consistent.
  - apply recorded_change_consistent; [| exact H].
    intros s0. apply change_project_consistent.
  - apply recorded_change_consistent; [| exact H].
    intros s0. apply change_project_consistent.
  - unfold undo. cbv zeta.
    destruct (Z.ltb_spec 0 (ProjectState.historyIndex s)) as [Hi | Hi]; [| exists s; auto].
    unfold history_consistent in H.
    destruct (ProjectState.project s) as [p |]; [| lia].
    destruct H as (Hidx & Hlen & _).
    destruct (index (ProjectState.history s) (ProjectState.historyIndex s - 1))
      as [e |] eqn:Ee.
    2:{ unfold index in Ee.
        destruct (Z.ltb_spec (ProjectState.historyIndex s - 1) 0); [lia |].
        apply nth_error_None in Ee. lia. }
    unfold bind, set_project_state. cbn. eexists. split; [reflexivity |].
    unfold history_consistent. cbn. repeat split; lia.
  - unfold redo. cbv zeta.
    destruct (Z.ltb_spec (ProjectState.historyIndex s)
                (Z.of_nat (length (ProjectState.history s)) - 1)) as [Hi | Hi];
      [| exists s; auto].
    unfold history_consistent in H.
    destruct (ProjectState.project s) as [p |].
    2:{ destruct H as (Hh & Hi' & _). rewrite Hh in Hi. cbn in Hi. lia. }
    destruct H as (Hidx & Hlen & _).
    destruct (index (ProjectState.history s) (ProjectState.historyIndex s + 1))
      as [e |] eqn:Ee.
    2:{ unfold index in Ee.
        destruct (Z.ltb_spec (ProjectState.historyIndex s + 1) 0); [lia |].
        apply nth_error_None in Ee. lia. }
    unfold bind, set_project_state. cbn. eexists. split; [reflexivity |].
    unfold history_consistent. cbn. repeat split; lia.
Qed.

(** However the covered actions of the project store follow each other
    from the start, none of them throws and the history fits the project:
    without a project it is empty; with one, [historyIndex] points at one of
    at most 50 entries, and [canUndo] and [canRedo] tell whether there is an
    entry before it and after it.  In particular [undo] and [redo] never
    read past the ends of the history. *)
Theorem history_always_consistent (commands : list Command) :
  exists state,
    perform_all commands initial_project_state = (Returned tt, state) /\
    history_consistent state.
Proof.
  assert (H : history_consistent initial_project_state).
  { unfold history_consistent. cbn. auto. }
  revert H. generalize initial_project_state.
  induction commands as [| c rest IH]; intros s H; cbn [perform_all].
  - exists s. auto.
  - destruct (perform_consistent c s H) as (s1 & E & H1).
    unfold bind. rewrite E. apply IH, H1.
Qed.

Lemma recorded_change_spec (description : string)
    (change : ProjectState.t -> ProjectState.t) (s : ProjectState.t) (p : Project.t) :
  (forall s0,
     ProjectState.history (change s0) = ProjectState.history s0 /\
     ProjectState.historyIndex (change s0) = ProjectState.historyIndex s0 /\
     ProjectState.canUndo (change s0) = ProjectState.canUndo s0 /\
     ProjectState.canRedo (change s0) = ProjectState.canRedo s0 /\
     (ProjectState.project s0 <> None -> ProjectState.project (change s0) <> None)) ->
  history_consistent s -> ProjectState.project s = Some p ->
  exists s' p' before e,
    (_ <- _pushHistory description ;; _ <- set_project_state change ;; _markDirty) s
      = (Returned tt, s') /\
    ProjectState.project s' = Some p' /\
    index (ProjectState.history s) (ProjectState.historyIndex s) = Some e /\
    ProjectState.history s' = before ++ [e; HistoryEntry.mk p description] /\
    ProjectState.historyIndex s' = Z.of_nat (length before) + 1 /\
    ProjectState.canRedo s' = false /\
    history_consistent s'.
Proof.
  intros Hchange H Hp.
  destruct (pushHistory_spec description s p H Hp)
    as (before & e & newer & He & Es & Ef & Hlen & _).
  destruct (_pushHistory description s) as [o s1] eqn:E. cbn [fst snd] in Es, Ef.
  subst o. unfold bind. rewrite E. unfold set_project_state.
  destruct (Hchange s1) as (Hh & Hi & Hu & Hr & Hsome).
  assert (H1 : history_consistent s1).
  { rewrite Es. apply pushed_consistent, Hlen. }
  assert (Hs1 : ProjectState.project s1 = Some p /\
                ProjectState.history s1 = before ++ [e; HistoryEntry.mk p description] /\
                ProjectState.historyIndex s1 = Z.of_nat (length before) + 1 /\
                ProjectState.canRedo s1 = false).
  { rewrite Es. cbn. auto. }
  destruct Hs1 as (Hp1 & Hh1 & Hi1 & Hr1).
  destruct (ProjectState.project (change s1)) as [p' |] eqn:Ep.
  2:{ exfalso. apply Hsome; [rewrite Hp1; discriminate | reflexivity]. }
  exists (snd (_markDirty (change s1))), p', before, e.
  split; [reflexivity |].
  cbn [_markDirty snd ProjectState.project ProjectState.history
       ProjectState.historyIndex ProjectState.canRedo].
  split; [exact Ep |]. split; [exact He |].
  split; [rewrite Hh; exact Hh1 |]. split; [rewrite Hi; exact Hi1 |].
  split; [rewrite Hr; exact Hr1 |].
  apply (markDirty_consistent (change s1)).
  revert H1. apply same_history_consistent; try assumption.
  rewrite Ep, Hp1. split; discriminate.
Qed.

Lemma change_project_keeps (change : Project.t -> Project.t) (s0 : ProjectState.t) :
  ProjectState.history (change_project change s0) = ProjectState.history s0 /\
  ProjectState.historyIndex (change_project change s0) = ProjectState.historyIndex s0 /\
  ProjectState.canUndo (change_project change s0) = ProjectState.canUndo s0 /\
  ProjectState.canRedo (change_project change s0) = ProjectState.canRedo s0 /\
  (ProjectState.project s0 <> None ->
   ProjectState.project (change_project change s0) <> None).
Proof.
  repeat split. cbn. destruct (ProjectState.project s0); cbn; congruence.
Qed.

Lemma recorded_step (c : Command) (s : ProjectState.t) (p : Project.t) :
  history_consistent s -> ProjectState.project s = Some p -> records c s ->
  exists s' p' before e description,
    perform c s = (Returned tt, s') /\
    ProjectState.project s' = Some p' /\
    index (ProjectState.history s) (ProjectState.historyIndex s) = Some e /\
    ProjectState.history s' = before ++ [e; HistoryEntry.mk p description] /\
    ProjectState.historyIndex s' = Z.of_nat (length before) + 1 /\
    ProjectState.canRedo s' = false /\
    history_consistent s'.
Proof.
  intros H Hp Hrec.
  assert (Hgen : forall (d : string) change,
            (forall s0,
               ProjectState.history (change s0) = ProjectState.history s0 /\
               ProjectState.historyIndex (change s0) = ProjectState.historyIndex s0 /\
               ProjectState.canUndo (change s0) = ProjectState.canUndo s0 /\
               ProjectState.canRedo (change s0) = ProjectState.canRedo s0 /\
               (ProjectState.project s0 <> None ->
                ProjectState.project (change s0) <> None)) ->
            exists s' p' before e description,
              (_ <- _pushHistory d ;; _ <- set_project_state change ;; _markDirty) s
                = (Returned tt, s') /\
              ProjectState.project s' = Some p' /\
              index (ProjectState.history s) (ProjectState.historyIndex s) = Some e /\
              ProjectState.history s' = before ++ [e; HistoryEntry.mk p description] /\
              ProjectState.historyIndex s' = Z.of_nat (length before) + 1 /\
              ProjectState.canRedo s' = false /\
              history_consistent s').
  { intros d change Hchange.
    destruct (recorded_change_spec d change s p Hchange H Hp)
      as (s' & p' & before & e & Hs').
    exists s', p', before, e, d. exact Hs'. }
  destruct c; cbn [records] in Hrec; try contradiction; cbn [perform].
  - apply Hgen. intros s0. destruct (ProjectState.project s0); cbn;
      repeat split; congruence.
  - apply Hgen. intros s0. destruct (ProjectState.project s0); cbn;
      repeat split; congruence.
  - apply Hgen. intros s0. apply change_project_keeps.
  - destruct Hrec as (a & Ha & Hne). unfold addEdge. rewrite Hp, Ha.
    destruct (String.eqb_spec a ""); [contradiction |].
    apply Hgen. intros s0. apply change_project_keeps.
  - apply Hgen. intros s0. apply change_project_keeps.
  - apply Hgen. intros s0. apply change_project_keeps.
Qed.

Lemma undo_at (s : ProjectState.t) (e : HistoryEntry.t) :
  0 < ProjectState.historyIndex s ->
  index (ProjectState.history s) (ProjectState.historyIndex s - 1) = Some e ->
  undo s =
    (Returned tt,
     ProjectState.mk (Some (HistoryEntry.project e)) (ProjectState.filePath s) true
       (ProjectState.activeGeneratorId s) (ProjectState.history s)
       (ProjectState.historyIndex s - 1) (0 <? ProjectState.historyIndex s - 1) true).
Proof.
  intros Hi He. unfold undo. cbv zeta.
  destruct (Z.ltb_spec 0 (ProjectState.historyIndex s)); [| lia].
  unfold bind. rewrite He. reflexivity.
Qed.

Lemma redo_at (s : ProjectState.t) (e : HistoryEntry.t) :
  ProjectState.historyIndex s < Z.of_nat (length (ProjectState.history s)) - 1 ->
  index (ProjectState.history s) (ProjectState.historyIndex s + 1) = Some e ->
  redo s =
    (Returned tt,
     ProjectState.mk (Some (HistoryEntry.project e)) (ProjectState.filePath s) true
       (ProjectState.activeGeneratorId s) (ProjectState.history s)
       (ProjectState.historyIndex s + 1) true
       (ProjectState.historyIndex s + 1
        <? Z.of_nat (length (ProjectState.history s)) - 1)).
Proof.
  intros Hi He. unfold redo. cbv zeta.
  destruct (Z.ltb_spec (ProjectState.historyIndex s)
              (Z.of_nat (length (ProjectState.history s)) - 1)); [| lia].
  unfold bind. rewrite He. reflexivity.
Qed.

(** After two actions that record history, [undo] puts the project back
    as it was before the first of them, and [redo] then as it was before the
    second; nothing is left to redo, so the project as the second action
    left it is not brought back. *)
Theorem undo_after_two_actions (a b : Command) (s : ProjectState.t) (p : Project.t) :
  history_consistent s -> ProjectState.project s = Some p ->
  records a s -> records b (snd (perform a s)) ->
  let s1 := snd (perform a s) in
  let s2 := snd (perform b s1) in
  let s3 := snd (undo s2) in
  let s4 := snd (redo s3) in
  fst (undo s2) = Returned tt /\ fst (redo s3) = Returned tt /\
  ProjectState.project s3 = Some p /\
  ProjectState.project s4 = ProjectState.project s1 /\
  ProjectState.canRedo s4 = false.
Proof.
  intros H Hp Ha Hb s1 s2 s3 s4.
  destruct (recorded_step a s p H Hp Ha)
    as (s1' & p1 & before1 & e1 & d1 & E1 & Hp1 & _ & Hh1 & Hi1 & _ & H1).
  assert (Es1 : s1 = s1') by (unfold s1; rewrite E1; reflexivity).
  fold s1 in Hb. rewrite Es1 in Hb.
  destruct (recorded_step b s1' p1 H1 Hp1 Hb)
    as (s2' & p2 & before2 & e2 & d2 & E2 & Hp2 & He2 & Hh2 & Hi2 & _ & H2).
  assert (Es2 : s2 = s2') by (unfold s2; rewrite Es1, E2; reflexivity).
  assert (Ee2 : e2 = HistoryEntry.mk p d1).
  { rewrite Hh1, Hi1 in He2.
    destruct (index_last before1 e1 (HistoryEntry.mk p d1)) as [_ El].
    congruence. }
  destruct (index_last before2 e2 (HistoryEntry.mk p1 d2)) as [El2 El2'].
  rewrite <- Hh2 in El2, El2'.
  assert (Hlen2 : Z.of_nat (length (ProjectState.history s2'))
                  = Z.of_nat (length before2) + 2).
  { rewrite Hh2, length_app. cbn [length]. lia. }
  assert (E3 : undo s2' = _) by
    (apply (undo_at s2' e2); [lia |];
     rewrite Hi2;
     replace (Z.of_nat (length before2) + 1 - 1) with (Z.of_nat (length before2)) by lia;
     exact El2).
  unfold s4, s3. rewrite Es2, E3. cbn [fst snd].
  rewrite (redo_at _ (HistoryEntry.mk p1 d2)).
  - cbn [fst snd ProjectState.project ProjectState.canRedo ProjectState.history
         ProjectState.historyIndex HistoryEntry.project].
    rewrite Ee2. cbn [HistoryEntry.project].
    repeat split.
    + rewrite Es1. symmetry. exact Hp1.
    + apply Z.ltb_ge. lia.
  - cbn [ProjectState.history ProjectState.historyIndex]. lia.
  - cbn [ProjectState.history ProjectState.historyIndex].
    replace (ProjectState.historyIndex s2' - 1 + 1) with (Z.of_nat (length before2) + 1)
      by lia.
    exact El2'.
Qed.

Lemma undo_after_two_actions_witness :
  let s := snd (newProject "Crypt" "p-1" "2024-01-01T00:00:00.000Z"
                           "2024-01-01T00:00:00.000Z" initial_project_state) in
  let a := AddGenerator "Halls" GeneratorType.dungeon "g-1" in
  let b := AddGenerator "Loot" GeneratorType.loot "g-2" in
  let s1 := snd (perform a s) in
  let s2 := snd (perform b s1) in
  ProjectState.project (snd (undo s2)) = ProjectState.project s /\
  ProjectState.project (snd (redo (snd (undo s2)))) = ProjectState.project s1.
Proof.
  intros s a b s1 s2.
  destruct (undo_after_two_actions a b s
              (createDefaultProject "Crypt" "p-1" "2024-01-01T00:00:00.000Z"
                                    "2024-01-01T00:00:00.000Z"))
    as (_ & _ & H3 & H4 & _).
  - unfold history_consistent. cbn. repeat split; lia.
  - reflexivity.
  - exact I.
  - exact I.
  - split; [exact H3 | exact H4].
Defined.

Lemma change_found_In {T} (found : T -> bool) (change : T -> T) (array : list T) (x : T) :
  In x (change_found found change array) ->
  In x array \/ exists a, In a array /\ found a = true /\ x = change a.
Proof.
  induction array as [| a rest IH]; cbn [change_found]; [intros [] |].
  destruct (found a) eqn:E.
  - intros [<- | Hx]; [right; exists a; cbn; auto | left; right; exact Hx].
  - intros [<- | Hx]; [left; left; reflexivity |].
    destruct (IH Hx) as [H | (b & Hb & Hf & ->)]; [left; right; exact H |].
    right. exists b. cbn. auto.
Qed.

Lemma find_change_found {T} (found : T -> bool) (change : T -> T) (array : list T) :
  (forall a, found (change a) = found a) ->
  find found (change_found found change array) = option_map change (find found array).
Proof.
  intros Hsame. induction array as [| a rest IH]; cbn [change_found find]; [reflexivity |].
  destruct (found a) eqn:E; cbn [find].
  - rewrite Hsame, E. reflexivity.
  - rewrite E. exact IH.
Qed.

Lemma change_found_ids (found : Generator.t -> bool) (change : Generator.t -> Generator.t)
    (generators : list Generator.t) :
  (forall g, Generator.id (change g) = Generator.id g) ->
  map Generator.id (change_found found change generators) = map Generator.id generators.
Proof.
  intros Hid. induction generators as [| g rest IH]; cbn [change_found map]; [reflexivity |].
  destruct (found g); cbn [map]; [rewrite Hid; reflexivity | rewrite IH; reflexivity].
Qed.

(** [deleteNode] leaves no edge without its nodes: when every edge of
    every generator starts and ends at a node of its graph, the same holds
    afterwards, and the active generator has neither a node with the deleted
    id nor an edge from or to it.  The generators stay the same in number
    and id. *)
Theorem deleteNode_keeps_edges_attached (id : string) (s : ProjectState.t)
    (p : Project.t) :
  ProjectState.project s = Some p ->
  (forall g, In g (Project.generators p) -> edges_attached (Generator.graph g)) ->
  exists s' p',
    deleteNode id s = (Returned tt, s') /\
    ProjectState.project s' = Some p' /\
    (forall g, In g (Project.generators p') -> edges_attached (Generator.graph g)) /\
    (forall g,
       find (is_generator (ProjectState.activeGeneratorId s)) (Project.generators p')
         = Some g ->
       (forall n, In n (NodeGraph.nodes (Generator.graph g)) -> GraphNode.id n <> id) /\
       (forall e, In e (NodeGraph.edges (Generator.graph g)) ->
          PortRef.nodeId (Edge.source e) <> id /\ PortRef.nodeId (Edge.target e) <> id)) /\
    map Generator.id (Project.generators p') = map Generator.id (Project.generators p).
Proof.
  intros Hp Hatt.
  set (clean := fun generator : Generator.t =>
         with_graph
           (NodeGraph.mk
              (filter (fun n => negb (String.eqb (GraphNode.id n) id))
                      (NodeGraph.nodes (Generator.graph generator)))
              (filter (fun e =>
                         negb (String.eqb (PortRef.nodeId (Edge.source e)) id)
                         && negb (String.eqb (PortRef.nodeId (Edge.target e)) id))
                      (NodeGraph.edges (Generator.graph generator))))
           generator).
  set (active := ProjectState.activeGeneratorId s).
  exists (snd (deleteNode id s)),
         (with_generators (change_found (is_generator active) clean (Project.generators p)) p).
  assert (Hclean : forall g,
            (forall n, In n (NodeGraph.nodes (Generator.graph (clean g))) ->
                       GraphNode.id n <> id) /\
            (forall e, In e (NodeGraph.edges (Generator.graph (clean g))) ->
               PortRef.nodeId (Edge.source e) <> id /\
               PortRef.nodeId (Edge.target e) <> id /\
               In e (NodeGraph.edges (Generator.graph g))) /\
            (forall n, In n (NodeGraph.nodes (Generator.graph g)) ->
                       GraphNode.id n <> id ->
                       In n (NodeGraph.nodes (Generator.graph (clean g))))).
  { intros g. unfold clean. cbn. split; [| split].
    - intros n Hn. apply filter_In in Hn. destruct Hn as [_ Hn].
      apply negb_true_iff, String.eqb_neq in Hn. exact Hn.
    - intros e He. apply filter_In in He. destruct He as [He Hf].
      apply andb_true_iff in Hf. destruct Hf as [Hs Ht].
      apply negb_true_iff, String.eqb_neq in Hs.
      apply negb_true_iff, String.eqb_neq in Ht. auto.
    - intros n Hn Hne. apply filter_In. split; [exact Hn |].
      apply negb_true_iff, String.eqb_neq. exact Hne. }
  split; [| split; [| split; [| split]]].
  - unfold deleteNode, bind, _pushHistory. rewrite Hp. reflexivity.
  - unfold deleteNode, bind, _pushHistory. rewrite Hp. reflexivity.
  - cbn [with_generators Project.generators]. intros g Hg.
    apply change_found_In in Hg. destruct Hg as [Hg | (g0 & Hg0 & _ & ->)];
      [apply Hatt, Hg |].
    destruct (Hclean g0) as (_ & Hedges & Hnodes).
    intros e He. destruct (Hedges e He) as (Hs & Ht & He0).
    destruct (Hatt g0 Hg0 e He0) as ((n & Hn & En) & (m & Hm & Em)).
    split; [exists n | exists m]; (split; [apply Hnodes; [assumption | congruence]
                                           | assumption]).
  - cbn [with_generators Project.generators]. intros g Hg.
    rewrite find_change_found in Hg.
    + destruct (find (is_generator active) (Project.generators p)) as [g0 |];
        [| discriminate].
      cbn in Hg. injection Hg as <-.
      destruct (Hclean g0) as (Hnodes & Hedges & _).
      split; [exact Hnodes |]. intros e He. destruct (Hedges e He) as (? & ? & _). auto.
    + intros a. unfold is_generator. destruct active; reflexivity.
  - cbn [with_generators Project.generators]. apply change_found_ids.
    intros g. reflexivity.
Qed.

Lemma deleteNode_keeps_edges_attached_witness :
  let generator := Generator.mk "gen-a" "Crypt" "" GeneratorType.dungeon sample_graph [] in
  let project := with_generators [generator]
                   (createDefaultProject "Crypt" "p-1" "2024-01-01T00:00:00.000Z"
                                         "2024-01-01T00:00:00.000Z") in
  let s := ProjectState.mk (Some project) None false (Some "gen-a"%string)
             [HistoryEntry.mk project "Initial"] 0 false false in
  exists s' p',
    deleteNode "n2" s = (Returned tt, s') /\
    ProjectState.project s' = Some p' /\
    (forall g, In g (Project.generators p') -> edges_attached (Generator.graph g)).
Proof.
  intros generator project s.
  destruct (deleteNode_keeps_edges_attached "n2" s project) as (s' & p' & E & Hp & Hatt & _).
  - reflexivity.
  - intros g [<- | []] e [<- | [<- | []]]; split;
      first [ eexists; split; [left; reflexivity | reflexivity]
            | eexists; split; [right; left; reflexivity | reflexivity]
            | eexists; split; [right; right; left; reflexivity | reflexivity] ].
  - exists s', p'. auto.
Defined.
